(** * A decoder-only transformer and its training utilities

    Shallow embedding of [Hw#2/starter_part4.py]: the modules of the model
    ([Embedder], [PositionalEncoder], [Norm], [attention],
    [MultiHeadAttention], [FeedForward], [DecoderLayer], [Decoder],
    [Transformer]), the scheduler [CosineWithRestarts], the data set and
    its batching, and the evaluation and training loops.

    Numbers.  Python floats and tensor entries are idealised as real
    numbers ([R]): rounding, overflow and the NaN of an undefined
    operation on tensor entries are outside the model.  Where the program
    itself manufactures an infinity or a NaN (the causal mask, the mean
    loss over no position) the values are extended reals ([xfloat]).
    Python integers are [Z]; sizes are [nat].

    Shapes.  Tensors are nested lists.  Broadcasting is modelled where the
    program relies on it (the mask against the scores, the positional
    table against the batch); elsewhere the operands are taken to have
    the shapes the modules produce.

    Effects.  Exceptions are a [Result]; the process-wide random generator
    that [nn.Dropout] draws from is an explicit stream threaded through the
    forward passes by the monad [M].  Objects that Python updates in place
    (the scheduler, the model's mode) are returned as new values. *)

From Stdlib Require Import Reals Lra Lia List ZArith Bool Arith.
Import ListNotations.

Local Open Scope R_scope.

(** ** Exceptions *)

Inductive PyError : Type :=
| IndexError
| ValueError
| ZeroDivisionError
| RuntimeError.

Inductive Result (A : Type) : Type :=
| Ok (a : A)
| Raise (e : PyError).

Arguments Ok {A} a.
Arguments Raise {A} e.

(** ** Extended reals: finite values, the two infinities and NaN *)

Inductive xfloat : Type :=
| Fin (r : R)
| PosInf
| NegInf
| NaN.

Definition Rsign (r : R) : comparison :=
  if Rlt_dec 0 r then Gt else if Rlt_dec r 0 then Lt else Eq.

(** IEEE multiplication: [0 * inf] is NaN, otherwise the signs multiply. *)
Definition xmul (x y : xfloat) : xfloat :=
  match x, y with
  | NaN, _ | _, NaN => NaN
  | Fin a, Fin b => Fin (a * b)
  | Fin a, PosInf | PosInf, Fin a =>
      match Rsign a with Gt => PosInf | Lt => NegInf | Eq => NaN end
  | Fin a, NegInf | NegInf, Fin a =>
      match Rsign a with Gt => NegInf | Lt => PosInf | Eq => NaN end
  | PosInf, PosInf | NegInf, NegInf => PosInf
  | PosInf, NegInf | NegInf, PosInf => NegInf
  end.

Definition xadd (x y : xfloat) : xfloat :=
  match x, y with
  | NaN, _ | _, NaN => NaN
  | Fin a, Fin b => Fin (a + b)
  | PosInf, NegInf | NegInf, PosInf => NaN
  | PosInf, _ | _, PosInf => PosInf
  | NegInf, _ | _, NegInf => NegInf
  end.

(** [x == 0] on a tensor entry. *)
Definition xeq0 (x : xfloat) : bool :=
  match x with
  | Fin r => if Req_dec_T r 0 then true else false
  | _ => false
  end.

(** [math.exp]. *)
Definition xexp (x : xfloat) : xfloat :=
  match x with
  | Fin r => Fin (exp r)
  | PosInf => PosInf
  | NegInf => Fin 0
  | NaN => NaN
  end.

(** ** Tensors as nested lists *)

Definition vec := list R.
Definition mat := list (list R).
Definition tensor3 := list mat.
Definition tensor4 := list (list mat).
Definition xmat := list (list xfloat).

(** [imap f i0 l] maps [f] over [l] with the index of each element,
    counting from [i0]. *)
Fixpoint imap {A B : Type} (f : nat -> A -> B) (i0 : nat) (l : list A) : list B :=
  match l with
  | [] => []
  | x :: t => f i0 x :: imap f (S i0) t
  end.

Fixpoint map2 {A B C : Type} (f : A -> B -> C) (l : list A) (l' : list B) : list C :=
  match l, l' with
  | x :: t, y :: t' => f x y :: map2 f t t'
  | _, _ => []
  end.

(** ** The causal mask: [no_peak_mask] *)

(** [torch.ones(n, m)]. *)
Definition ones (n m : nat) : xmat := repeat (repeat (Fin 1) m) n.

(** [t * c] for a Python scalar [c]. *)
Definition mul_scalar (t : xmat) (c : xfloat) : xmat :=
  map (map (fun x => xmul x c)) t.

(** [torch.triu(t, diagonal)]: entry [(i, j)] is kept when
    [j - i >= diagonal] and replaced by zero otherwise. *)
Definition triu (t : xmat) (diagonal : Z) : xmat :=
  imap (fun i row =>
          imap (fun j x =>
                  if (diagonal <=? Z.of_nat j - Z.of_nat i)%Z then x else Fin 0)
               0%nat row)
       0%nat t.

Definition no_peak_mask (size : nat) : xmat :=
  triu (mul_scalar (ones size size) NegInf) 1.

(** The matrix the specification describes: negative infinity strictly
    above the main diagonal, zero on and below it. *)
Definition causal_matrix (L : nat) : xmat :=
  map (fun i => map (fun j => if (i <? j)%nat then NegInf else Fin 0) (seq 0 L))
      (seq 0 L).

(** ** The forward-pass monad: a random stream and exceptions *)

(** The generator is the stream of keep/drop outcomes that the Bernoulli
    draws of dropout will produce. *)
Definition Generator := nat -> bool.

Definition M (A : Type) : Type := Generator -> Result (A * Generator).

Definition ret {A : Type} (a : A) : M A := fun g => Ok (a, g).

Definition bind {A B : Type} (m : M A) (f : A -> M B) : M B :=
  fun g => match m g with
           | Ok (a, g') => f a g'
           | Raise e => Raise e
           end.

Definition raise {A : Type} (e : PyError) : M A := fun _ => Raise e.

(** One Bernoulli outcome. *)
Definition draw : M bool := fun g => Ok (g 0%nat, fun n => g (S n)).

Declare Scope monad_scope.
Delimit Scope monad_scope with monad.
Notation "x <- m ;; k" := (bind m (fun x => k))
  (at level 61, m at next level, right associativity) : monad_scope.
Local Open Scope monad_scope.

Fixpoint mapM {A B : Type} (f : A -> M B) (l : list A) : M (list B) :=
  match l with
  | [] => ret []
  | x :: t => y <- f x ;; ys <- mapM f t ;; ret (y :: ys)
  end.

(** ** Linear algebra on nested lists *)

Definition Rsum (l : list R) : R := fold_right Rplus 0 l.

Definition dot (u v : vec) : R := Rsum (map2 Rmult u v).

(** [t.transpose(-2, -1)] of a matrix. *)
Definition transpose (m : mat) : mat :=
  match m with
  | [] => []
  | r :: _ => map (fun j => map (fun row => nth j row 0) m) (seq 0 (length r))
  end.

(** [torch.matmul(a, b)] of two matrices. *)
Definition matmul (a b : mat) : mat :=
  map (fun row => map (fun col => dot row col) (transpose b)) a.

Definition mat_div (a : mat) (c : R) : mat := map (map (fun x => x / c)) a.

(** [F.softmax(row, dim=-1)]. *)
Definition softmax (row : vec) : vec :=
  let e := map exp row in
  map (fun x => x / Rsum e) e.

(** ** [nn.Dropout] *)

Record Dropout : Type := mkDropout {
  drop_p : R;
  drop_training : bool
}.

(** A kept entry is rescaled by [1 / (1 - p)], a dropped one is zero;
    with [p = 1] everything is dropped. *)
Definition dropout_entry (p : R) (x : R) : M R :=
  keep <- draw ;;
  ret (if Req_dec_T p 1 then 0
       else if keep then x * (1 / (1 - p)) else 0).

Definition Dropout_forward (d : Dropout) (x : tensor3) : M tensor3 :=
  if drop_training d then mapM (mapM (mapM (dropout_entry (drop_p d)))) x
  else ret x.

Definition Dropout_forward4 (d : Dropout) (x : tensor4) : M tensor4 :=
  if drop_training d
  then mapM (mapM (mapM (mapM (dropout_entry (drop_p d))))) x
  else ret x.

(** ** Scaled dot-product attention *)

Fixpoint sequence {A : Type} (l : list (Result A)) : Result (list A) :=
  match l with
  | [] => Ok []
  | Ok x :: t => match sequence t with Ok xs => Ok (x :: xs) | Raise e => Raise e end
  | Raise e :: _ => Raise e
  end.

(** Broadcasting of two operands along one dimension: equal sizes pair
    up, an operand of size one is repeated, anything else is refused. *)
Definition broadcast_pair {A B : Type} (l : list A) (l' : list B)
  : Result (list (A * B)) :=
  if (length l =? length l')%nat then Ok (combine l l')
  else match l, l' with
       | [x], _ => Ok (map (fun y => (x, y)) l')
       | _, [y] => Ok (map (fun x => (x, y)) l)
       | _, _ => Raise RuntimeError
       end.

(** [scores.masked_fill(mask == 0, value)] on the two trailing dimensions:
    scores and mask are broadcast against each other, and an entry is
    overwritten where the mask entry equals zero. *)
Definition masked_fill (scores : mat) (mask : xmat) (value : R) : Result mat :=
  match broadcast_pair scores mask with
  | Ok rows =>
      sequence
        (map (fun sm : vec * list xfloat =>
                match broadcast_pair (fst sm) (snd sm) with
                | Ok cols =>
                    Ok (map (fun e : R * xfloat =>
                               if xeq0 (snd e) then value else fst e) cols)
                | Raise e => Raise e
                end)
             rows)
  | Raise e => Raise e
  end.

Definition mask_fill_value : R := 1e-9.

(** The masking step on the scores of one (batch, head) slice; the mask,
    which [expand] repeats along the batch and head dimensions, is the
    same for every slice. *)
Definition mask_scores (mask : option xmat) (scores : mat) : Result mat :=
  match mask with
  | None => Ok scores
  | Some m => masked_fill scores m mask_fill_value
  end.

Definition lift {A : Type} (r : Result A) : M A :=
  match r with
  | Ok a => ret a
  | Raise e => raise e
  end.

(** [attention(q, k, v, d_k, mask, dropout)] on tensors of shape
    batch x heads x seq_len x d_k. *)
Definition attention (q k v : tensor4) (d_k : nat)
           (mask : option xmat) (dropout : option Dropout) : M tensor4 :=
  let scores :=
    map2 (map2 (fun qh kh => mat_div (matmul qh (transpose kh)) (sqrt (INR d_k))))
         q k in
  scores <- lift (sequence (map (fun b => sequence (map (mask_scores mask) b))
                                scores)) ;;
  let scores := map (map (map softmax)) scores in
  scores <- match dropout with
            | Some d => Dropout_forward4 d scores
            | None => ret scores
            end ;;
  ret (map2 (map2 matmul) scores v).

(** ** [Norm] *)

Record Norm : Type := mkNorm {
  norm_size : nat;
  norm_alpha : vec;
  norm_bias : vec;
  norm_eps : R
}.

(** [x.mean(dim=-1)]. *)
Definition mean (x : vec) : R := Rsum x / INR (length x).

(** [x.std(dim=-1)], with Bessel's correction as torch computes it. *)
Definition std (x : vec) : R :=
  sqrt (Rsum (map (fun xi => (xi - mean x) * (xi - mean x)) x)
        / INR (length x - 1)).

Definition Norm_vec (n : Norm) (x : vec) : vec :=
  map2 Rplus
       (map2 (fun a xi => a * (xi - mean x) / (std x + norm_eps n))
             (norm_alpha n) x)
       (norm_bias n).

Definition Norm_forward (n : Norm) (x : tensor3) : tensor3 :=
  map (map (Norm_vec n)) x.

(** ** [nn.Linear]: [y = x W^T + b], with [W] of shape out x in *)

Record Linear : Type := mkLinear {
  lin_weight : mat;
  lin_bias : vec
}.

Definition Linear_vec (l : Linear) (x : vec) : vec :=
  map2 (fun w b => dot x w + b) (lin_weight l) (lin_bias l).

Definition Linear_forward (l : Linear) (x : tensor3) : tensor3 :=
  map (map (Linear_vec l)) x.

(** ** [MultiHeadAttention] *)

Record MultiHeadAttention : Type := mkMHA {
  mha_d_model : nat;
  mha_d_k : nat;
  mha_h : nat;
  mha_q_linear : Linear;
  mha_v_linear : Linear;
  mha_k_linear : Linear;
  mha_dropout : Dropout;
  mha_out : Linear
}.

(** [x.view(bs, -1, h, d_k).transpose(1, 2)] on one batch element: head
    [j] receives columns [j * d_k .. (j + 1) * d_k - 1] of every row
    (with [d_model = h * d_k], which [get_model] asserts). *)
Definition split_heads (h d_k : nat) (x : mat) : list mat :=
  map (fun j => map (fun row => firstn d_k (skipn (j * d_k) row)) x) (seq 0 h).

(** [t.transpose(1, 2).contiguous().view(bs, -1, d_model)] on one batch
    element: the head outputs of each position are concatenated. *)
Definition merge_heads (hs : list mat) : mat :=
  match hs with
  | [] => []
  | m :: _ => map (fun t => concat (map (fun hm => nth t hm []) hs))
                  (seq 0 (length m))
  end.

Definition MultiHeadAttention_forward (a : MultiHeadAttention)
           (q k v : tensor3) (mask : option xmat) : M tensor3 :=
  let k := map (split_heads (mha_h a) (mha_d_k a)) (Linear_forward (mha_k_linear a) k) in
  let q := map (split_heads (mha_h a) (mha_d_k a)) (Linear_forward (mha_q_linear a) q) in
  let v := map (split_heads (mha_h a) (mha_d_k a)) (Linear_forward (mha_v_linear a) v) in
  scores <- attention q k v (mha_d_k a) mask (Some (mha_dropout a)) ;;
  let concat := map merge_heads scores in
  ret (Linear_forward (mha_out a) concat).

(** ** [FeedForward] *)

Record FeedForward : Type := mkFF {
  ff_linear_1 : Linear;
  ff_dropout : Dropout;
  ff_linear_2 : Linear
}.

Definition relu (x : R) : R := Rmax 0 x.

Definition FeedForward_forward (f : FeedForward) (x : tensor3) : M tensor3 :=
  x <- Dropout_forward (ff_dropout f)
         (map (map (map relu)) (Linear_forward (ff_linear_1 f) x)) ;;
  ret (Linear_forward (ff_linear_2 f) x).

(** ** [DecoderLayer] *)

Record DecoderLayer : Type := mkDecoderLayer {
  norm_1 : Norm;
  norm_2 : Norm;
  norm_3 : Norm;
  dropout_1 : Dropout;
  dropout_3 : Dropout;
  attn_1 : MultiHeadAttention;
  ff : FeedForward
}.

Definition DecoderLayer_forward (l : DecoderLayer) (x : tensor3)
           (trg_mask : option xmat) : M tensor3 :=
  let x2 := Norm_forward (norm_1 l) x in
  a <- MultiHeadAttention_forward (attn_1 l) x2 x2 x2 trg_mask ;;
  x <- Dropout_forward (dropout_1 l) a ;;
  let x2 := Norm_forward (norm_2 l) x in
  a <- MultiHeadAttention_forward (attn_1 l) x2 x2 x2 trg_mask ;;
  x <- Dropout_forward (dropout_1 l) a ;;
  ret x.



(** A decoder layer in evaluation mode, on one position of width two,
    whose two normalisations differ: both [Norm]s have [alpha = 0], so
    each returns its own bias, and the attention block echoes its input
    (one head, identity value and output projections). *)
Definition eval_dropout : Dropout := mkDropout (1 / 10) false.
Definition zero_linear2 : Linear := mkLinear [[0; 0]; [0; 0]] [0; 0].
Definition id_linear2 : Linear := mkLinear [[1; 0]; [0; 1]] [0; 0].
Definition echo_attn : MultiHeadAttention :=
  mkMHA 2 2 1 zero_linear2 id_linear2 zero_linear2 eval_dropout id_linear2.
Definition two_norm_layer : DecoderLayer :=
  mkDecoderLayer (mkNorm 2 [0; 0] [1; 0] 1e-6) (mkNorm 2 [0; 0] [0; 1] 1e-6)
                 (mkNorm 2 [1; 1] [0; 0] 1e-6) eval_dropout eval_dropout
                 echo_attn (mkFF zero_linear2 eval_dropout zero_linear2).

(** ** Exceptions outside the forward pass *)

Definition rbind {A B : Type} (r : Result A) (f : A -> Result B) : Result B :=
  match r with
  | Ok a => f a
  | Raise e => Raise e
  end.

Notation "'let?' x := r 'in' k" := (rbind r (fun x => k))
  (at level 10, x name, r at level 100, k at level 200).

Fixpoint foldM {S A : Type} (f : S -> A -> Result S) (l : list A) (s : S)
  : Result S :=
  match l with
  | [] => Ok s
  | x :: t => let? s' := f s x in foldM f t s'
  end.

(** [range(start, stop, step)]. *)
Definition py_range (start stop step : Z) : Result (list Z) :=
  if (step =? 0)%Z then Raise ValueError
  else
    let count :=
      if (0 <? step)%Z then ((stop - start + step - 1) / step)%Z
      else ((start - stop - step - 1) / (- step))%Z in
    Ok (map (fun k => (start + Z.of_nat k * step)%Z) (seq 0 (Z.to_nat count))).

(** A Python index into a dimension of size [n]: negative indices count
    from the end, anything outside [-n, n) is an [IndexError]. *)
Definition norm_index (n : nat) (i : Z) : Result nat :=
  if ((0 <=? i) && (i <? Z.of_nat n))%Z then Ok (Z.to_nat i)
  else if ((- Z.of_nat n <=? i) && (i <? 0))%Z then Ok (Z.to_nat (i + Z.of_nat n))
  else Raise IndexError.

Fixpoint list_update {A : Type} (l : list A) (i : nat) (v : A) : list A :=
  match l, i with
  | [], _ => []
  | _ :: t, O => v :: t
  | x :: t, S i' => x :: list_update t i' v
  end.

(** [t[r, c] = v] on a matrix. *)
Definition tensor_set (t : mat) (r c : Z) (v : R) : Result mat :=
  let? r' := norm_index (length t) r in
  let row := nth r' t [] in
  let? c' := norm_index (length row) c in
  Ok (list_update t r' (list_update row c' v)).

(** ** [PositionalEncoder] *)

Record PositionalEncoder : Type := mkPE {
  pe_d_model : Z;
  pe_dropout : Dropout;
  pe_buffer : mat
}.

(** [nn.Dropout(p)]: the probability is checked, the module starts in
    training mode. *)
Definition nn_Dropout (p : R) : Result Dropout :=
  if Rlt_dec p 0 then Raise ValueError
  else if Rlt_dec 1 p then Raise ValueError
  else Ok (mkDropout p true).

Definition zeros (n m : nat) : mat := repeat (repeat 0 m) n.

(** [torch.zeros(n, m)] refuses a negative dimension. *)
Definition torch_zeros (n m : Z) : Result mat :=
  if ((n <? 0) || (m <? 0))%Z then Raise RuntimeError
  else Ok (zeros (Z.to_nat n) (Z.to_nat m)).

(** The body of the inner loop: the two writes for feature index [i]. *)
Definition pe_write_pair (d_model pos : Z) (pe : mat) (i : Z) : Result mat :=
  let? pe := tensor_set pe pos i
               (sin (IZR pos / Rpower 10000 (IZR (2 * i) / IZR d_model))) in
  tensor_set pe pos (i + 1)
             (cos (IZR pos / Rpower 10000 (IZR (2 * (i + 1)) / IZR d_model))).

Definition PositionalEncoder_init (d_model max_seq_len : Z) (dropout : R)
  : Result PositionalEncoder :=
  let? drop := nn_Dropout dropout in
  let? pe := torch_zeros max_seq_len d_model in
  let? positions := py_range 0 max_seq_len 1 in
  let? pe :=
    foldM (fun pe pos =>
             let? features := py_range 0 d_model 2 in
             foldM (pe_write_pair d_model pos) features pe)
          positions pe in
  Ok (mkPE d_model drop pe).

(** The positional entry the specification gives for column [j] of row
    [pos]: the sine and the cosine of pair [i] (columns [2i] and [2i+1])
    share the exponent [2i / d_model]. *)
Definition pe_spec_entry (d_model : Z) (pos j : Z) : R :=
  let i := (j / 2)%Z in
  let angle := IZR pos / Rpower 10000 (IZR (2 * i) / IZR d_model) in
  if Z.even j then sin angle else cos angle.

(** The entry the constructor computes for column [j] of row [pos]: the
    exponent is [2 * j / d_model], with [j] the column itself. *)
Definition pe_code_entry (d_model : Z) (pos j : Z) : R :=
  let angle := IZR pos / Rpower 10000 (IZR (2 * j) / IZR d_model) in
  if Z.even j then sin angle else cos angle.

Definition pe_code_row (d_model : Z) (pos : Z) (n : nat) : vec :=
  map (fun j => pe_code_entry d_model pos (Z.of_nat j)) (seq 0 n).

Definition pe_code_table (d_model max_seq_len : Z) : mat :=
  map (fun pos => pe_code_row d_model (Z.of_nat pos) (Z.to_nat d_model))
      (seq 0 (Z.to_nat max_seq_len)).

(** [x + pe] where [pe] has a leading dimension of size one: along the
    position dimension the two operands are broadcast against each
    other. *)
Definition add_positional (x : tensor3) (pe : mat) : Result tensor3 :=
  sequence
    (map (fun xb : mat =>
            match broadcast_pair xb pe with
            | Ok rows => Ok (map (fun r : vec * vec => map2 Rplus (fst r) (snd r)) rows)
            | Raise e => Raise e
            end)
         x).

Definition PositionalEncoder_forward (p : PositionalEncoder) (x : tensor3)
  : M tensor3 :=
  let x := map (map (map (fun e => e * sqrt (IZR (pe_d_model p))))) x in
  let seq_len := length (hd [] x) in
  let pe := firstn seq_len (pe_buffer p) in
  x <- lift (add_positional x pe) ;;
  Dropout_forward (pe_dropout p) x.

(** ** [Embedder] *)

Record Embedder : Type := mkEmbedder {
  emb_d_model : nat;
  emb_weight : mat
}.

(** [nn.Embedding]: a row lookup; an id outside the table is an error. *)
Definition embedding_lookup (w : mat) (id : Z) : Result vec :=
  if ((0 <=? id) && (id <? Z.of_nat (length w)))%Z
  then Ok (nth (Z.to_nat id) w [])
  else Raise IndexError.

Definition Embedder_forward (e : Embedder) (x : list (list Z)) : Result tensor3 :=
  sequence (map (fun row => sequence (map (embedding_lookup (emb_weight e)) row)) x).

(** ** [Decoder] and [Transformer] *)

Record Decoder : Type := mkDecoder {
  dec_N : nat;
  dec_embed : Embedder;
  dec_pe : PositionalEncoder;
  dec_layers : list DecoderLayer;
  dec_norm : Norm
}.

Fixpoint Decoder_layers (layers : list DecoderLayer) (idx : list nat)
         (x : tensor3) (trg_mask : option xmat) : M tensor3 :=
  match idx with
  | [] => ret x
  | i :: rest =>
      match nth_error layers i with
      | Some l => x <- DecoderLayer_forward l x trg_mask ;;
                  Decoder_layers layers rest x trg_mask
      | None => raise IndexError
      end
  end.

Definition Decoder_forward (d : Decoder) (trg : list (list Z))
           (trg_mask : option xmat) : M tensor3 :=
  x <- lift (Embedder_forward (dec_embed d) trg) ;;
  x <- PositionalEncoder_forward (dec_pe d) x ;;
  x <- Decoder_layers (dec_layers d) (seq 0 (dec_N d)) x trg_mask ;;
  ret (Norm_forward (dec_norm d) x).

Record Transformer : Type := mkTransformer {
  decoder : Decoder;
  out : Linear
}.

Definition Transformer_forward (m : Transformer) (trg : list (list Z))
           (trg_mask : option xmat) : M tensor3 :=
  d_output <- Decoder_forward (decoder m) trg trg_mask ;;
  ret (Linear_forward (out m) d_output).

(** A matrix of [rows] rows, each of [cols] entries. *)
Definition shaped (rows cols : nat) (t : mat) : Prop :=
  length t = rows /\ Forall (fun r => length r = cols) t.

(** ** [CosineWithRestarts] *)

(** The scheduler's own fields, and the two fields of its host class
    [_LRScheduler] that [get_lr] reads: [base_lrs] and [last_epoch]. *)
Record CosineWithRestarts : Type := mkCosineWithRestarts {
  T_max : Z;
  eta_min : R;
  factor : R;
  _last_restart : Z;
  _cycle_counter : Z;
  _cycle_factor : R;
  _updated_cycle_len : Z;
  _initialized : bool;
  base_lrs : list R;
  last_epoch : Z
}.

(** The fields as [__init__] sets them, before the host class takes over. *)
Definition CosineWithRestarts_init (T_max : Z) (eta_min : R) (last_epoch : Z)
           (factor : R) (base_lrs : list R) : CosineWithRestarts :=
  mkCosineWithRestarts T_max eta_min factor 0 0 1 T_max false base_lrs last_epoch.

(** [int(x)] of a float: truncation towards zero. *)
Definition py_int (x : R) : Z :=
  if Rle_dec 0 x then Int_part x else (- Int_part (- x))%Z.

Definition get_lr (s : CosineWithRestarts)
  : Result (list R * CosineWithRestarts) :=
  if negb (_initialized s) then
    Ok (base_lrs s,
        mkCosineWithRestarts (T_max s) (eta_min s) (factor s) (_last_restart s)
          (_cycle_counter s) (_cycle_factor s) (_updated_cycle_len s) true
          (base_lrs s) (last_epoch s))
  else
    let step := (last_epoch s + 1)%Z in
    let cycle_counter := (step - _last_restart s)%Z in
    if (_updated_cycle_len s =? 0)%Z then Raise ZeroDivisionError
    else
      let lrs :=
        map (fun lr =>
               eta_min s + ((lr - eta_min s) / 2) *
                 (cos (PI * IZR (cycle_counter mod _updated_cycle_len s)
                       / IZR (_updated_cycle_len s)) + 1))
            (base_lrs s) in
      if (cycle_counter mod _updated_cycle_len s =? 0)%Z then
        let cycle_factor := _cycle_factor s * factor s in
        Ok (lrs,
            mkCosineWithRestarts (T_max s) (eta_min s) (factor s) step 0
              cycle_factor (py_int (cycle_factor * IZR (T_max s))) true
              (base_lrs s) (last_epoch s))
      else
        Ok (lrs,
            mkCosineWithRestarts (T_max s) (eta_min s) (factor s)
              (_last_restart s) cycle_counter (_cycle_factor s)
              (_updated_cycle_len s) true (base_lrs s) (last_epoch s)).

(** [sched.step()], as the training loop calls it once per optimizer
    update: the host class advances [last_epoch] by one and queries
    [get_lr]. *)
Definition sched_step (s : CosineWithRestarts)
  : Result (list R * CosineWithRestarts) :=
  get_lr (mkCosineWithRestarts (T_max s) (eta_min s) (factor s) (_last_restart s)
            (_cycle_counter s) (_cycle_factor s) (_updated_cycle_len s)
            (_initialized s) (base_lrs s) (last_epoch s + 1)).

Fixpoint sched_steps (n : nat) (s : CosineWithRestarts) : Result CosineWithRestarts :=
  match n with
  | O => Ok s
  | S n' => let? r := sched_step s in sched_steps n' (snd r)
  end.

(** The states a scheduler goes through, from the state [s0] that
    [__init__] builds: queries of [get_lr] and steps of the host. *)
Inductive sched_run (s0 : CosineWithRestarts) : CosineWithRestarts -> Prop :=
| run_start : sched_run s0 s0
| run_query (s : CosineWithRestarts) (lrs : list R) (s' : CosineWithRestarts) :
    sched_run s0 s -> get_lr s = Ok (lrs, s') -> sched_run s0 s'
| run_step (s : CosineWithRestarts) (lrs : list R) (s' : CosineWithRestarts) :
    sched_run s0 s -> sched_step s = Ok (lrs, s') -> sched_run s0 s'.

(** The rate the specification gives for base rate [lr] at in-cycle
    position [c] of a cycle of length [len]. *)
Definition cosine_rate (eta_min : R) (len c : Z) (lr : R) : R :=
  eta_min + ((lr - eta_min) / 2) * (cos (PI * IZR c / IZR len) + 1).

(** The states of a run with [factor = 1]: the cycle length stays
    [T_max], and restarts are a whole number of cycles apart. *)
Definition steady (r0 : Z) (s : CosineWithRestarts) : Prop :=
  _initialized s = true /\ factor s = 1 /\ _cycle_factor s = 1
  /\ _updated_cycle_len s = T_max s /\ (0 < T_max s)%Z
  /\ ((_last_restart s) mod (T_max s) = r0 mod (T_max s))%Z.

(** ** [WikiDataset] *)

(** [l[i:j]]: negative bounds count from the end, and both bounds are
    clamped to the list. *)
Definition slice_bound (n : nat) (k : Z) : Z :=
  if (k <? 0)%Z then Z.max 0 (k + Z.of_nat n) else Z.min k (Z.of_nat n).

Definition py_slice {A : Type} (l : list A) (i j : Z) : list A :=
  let i' := slice_bound (length l) i in
  let j' := slice_bound (length l) j in
  firstn (Z.to_nat (j' - i')) (skipn (Z.to_nat i') l).

Record WikiDataset : Type := mkWikiDataset {
  block_size : Z;
  data : list (list Z)
}.

Definition WikiDataset_init (tokens : list Z) (block_size : Z) : Result WikiDataset :=
  let? starts := py_range 0 (Z.of_nat (length tokens)) block_size in
  Ok (mkWikiDataset block_size
        (map (fun i => py_slice tokens i (i + block_size + 1)) starts)).

Definition WikiDataset_len (ds : WikiDataset) : nat := length (data ds).

(** [__getitem__]: the block without its last token, and without its
    first one. *)
Definition WikiDataset_getitem (ds : WikiDataset) (index : Z)
  : Result (list Z * list Z) :=
  let? i := norm_index (length (data ds)) index in
  let text := nth i (data ds) [] in
  let input_text := py_slice text 0 (-1) in
  let target_text := py_slice text 1 (Z.of_nat (length text)) in
  Ok (input_text, target_text).

(** ** Batching: [collate_fn] *)

(** [pad_sequence(seqs, batch_first=True, padding_value=v)]: every
    sequence is extended on the right to the longest length. *)
Definition pad_sequence (seqs : list (list Z)) (padding_value : Z) : list (list Z) :=
  let max_len := fold_right Nat.max 0%nat (map (@length Z) seqs) in
  map (fun s => s ++ repeat padding_value (max_len - length s)) seqs.

(** An empty batch cannot be unzipped into inputs and targets. *)
Definition collate_fn (batch : list (list Z * list Z))
  : Result (list (list Z) * list (list Z)) :=
  match batch with
  | [] => Raise ValueError
  | _ =>
      let input_text := map fst batch in
      let target_text := map snd batch in
      let inputs := pad_sequence input_text 0 in
      let targets := pad_sequence target_text (-100) in
      Ok (inputs, targets)
  end.

(** ** [nn.CrossEntropyLoss] with an ignore index, mean reduction *)

Record CrossEntropyLoss : Type := mkCrossEntropyLoss {
  ignore_index : Z
}.

(** The loss of one position: minus the log-probability of the target
    class; a target that is not a class is an error. *)
Definition nll_entry (x : vec) (t : Z) : Result R :=
  if ((0 <=? t) && (t <? Z.of_nat (length x)))%Z
  then Ok (- ln (nth (Z.to_nat t) (softmax x) 0))
  else Raise IndexError.

(** The losses of the positions that are not ignored. *)
Fixpoint ce_terms (ignore : Z) (input : mat) (target : list Z) : Result (list R) :=
  match input, target with
  | x :: input', t :: target' =>
      if (t =? ignore)%Z then ce_terms ignore input' target'
      else
        let? v := nll_entry x t in
        let? rest := ce_terms ignore input' target' in
        Ok (v :: rest)
  | _, _ => Ok []
  end.

(** The mean over the positions that are not ignored; over no position
    it is NaN. *)
Definition CrossEntropyLoss_forward (l : CrossEntropyLoss) (input : mat)
           (target : list Z) : Result xfloat :=
  if negb (length input =? length target)%nat then Raise ValueError
  else
    let? terms := ce_terms (ignore_index l) input target in
    Ok (match terms with
        | [] => NaN
        | _ => Fin (Rsum terms / INR (length terms))
        end).

(** The loss function [main] builds. *)
Definition loss_fn : CrossEntropyLoss := mkCrossEntropyLoss (-100).

(** [loss_fn(output.view(-1, output.size(-1)), target_text.view(-1))]. *)
Definition batch_loss (l : CrossEntropyLoss) (output : tensor3)
           (target_text : list (list Z)) : Result xfloat :=
  CrossEntropyLoss_forward l (concat output) (concat target_text).

(** ** Training and evaluation mode *)

(** [module.train(mode)] sets the mode of a module and of every module
    below it; only [nn.Dropout] reads it. *)
Definition Dropout_train (mode : bool) (d : Dropout) : Dropout :=
  mkDropout (drop_p d) mode.

Definition MultiHeadAttention_train (mode : bool) (a : MultiHeadAttention)
  : MultiHeadAttention :=
  mkMHA (mha_d_model a) (mha_d_k a) (mha_h a) (mha_q_linear a) (mha_v_linear a)
        (mha_k_linear a) (Dropout_train mode (mha_dropout a)) (mha_out a).

Definition FeedForward_train (mode : bool) (f : FeedForward) : FeedForward :=
  mkFF (ff_linear_1 f) (Dropout_train mode (ff_dropout f)) (ff_linear_2 f).

Definition DecoderLayer_train (mode : bool) (l : DecoderLayer) : DecoderLayer :=
  mkDecoderLayer (norm_1 l) (norm_2 l) (norm_3 l)
                 (Dropout_train mode (dropout_1 l))
                 (Dropout_train mode (dropout_3 l))
                 (MultiHeadAttention_train mode (attn_1 l))
                 (FeedForward_train mode (ff l)).

Definition PositionalEncoder_train (mode : bool) (p : PositionalEncoder)
  : PositionalEncoder :=
  mkPE (pe_d_model p) (Dropout_train mode (pe_dropout p)) (pe_buffer p).

Definition Decoder_train (mode : bool) (d : Decoder) : Decoder :=
  mkDecoder (dec_N d) (dec_embed d) (PositionalEncoder_train mode (dec_pe d))
            (map (DecoderLayer_train mode) (dec_layers d)) (dec_norm d).

Definition Transformer_train (mode : bool) (m : Transformer) : Transformer :=
  mkTransformer (Decoder_train mode (decoder m)) (out m).

(** ** [model.parameters()] *)

Inductive ParamTensor : Type :=
| Param1 (v : vec)
| Param2 (w : mat).

Definition Norm_parameters (n : Norm) : list ParamTensor :=
  [Param1 (norm_alpha n); Param1 (norm_bias n)].

Definition Linear_parameters (l : Linear) : list ParamTensor :=
  [Param2 (lin_weight l); Param1 (lin_bias l)].

Definition MultiHeadAttention_parameters (a : MultiHeadAttention) : list ParamTensor :=
  Linear_parameters (mha_q_linear a) ++ Linear_parameters (mha_v_linear a)
  ++ Linear_parameters (mha_k_linear a) ++ Linear_parameters (mha_out a).

Definition FeedForward_parameters (f : FeedForward) : list ParamTensor :=
  Linear_parameters (ff_linear_1 f) ++ Linear_parameters (ff_linear_2 f).

Definition DecoderLayer_parameters (l : DecoderLayer) : list ParamTensor :=
  Norm_parameters (norm_1 l) ++ Norm_parameters (norm_2 l)
  ++ Norm_parameters (norm_3 l) ++ MultiHeadAttention_parameters (attn_1 l)
  ++ FeedForward_parameters (ff l).

(** The positional table is a buffer, not a parameter. *)
Definition Decoder_parameters (d : Decoder) : list ParamTensor :=
  Param2 (emb_weight (dec_embed d))
  :: flat_map DecoderLayer_parameters (dec_layers d)
  ++ Norm_parameters (dec_norm d).

Definition Transformer_parameters (m : Transformer) : list ParamTensor :=
  Decoder_parameters (decoder m) ++ Linear_parameters (out m).

(** ** The evaluation and training loops *)

(** [total / n] for a Python float and a positive count. *)
Definition xdiv (x : xfloat) (n : nat) : xfloat :=
  match x with
  | Fin r => Fin (r / INR n)
  | other => other
  end.

Fixpoint for_each {S A : Type} (f : S -> A -> M S) (l : list A) (s : S) : M S :=
  match l with
  | [] => ret s
  | x :: t => s' <- f s x ;; for_each f t s'
  end.

(** A batch as the data loader yields it: padded inputs and targets. *)
Definition Batch : Type := (list (list Z) * list (list Z))%type.

(** The part the loops share: the mask for the batch's sequence length,
    the forward pass, and the loss on the flattened positions. *)
Definition forward_loss (model : Transformer) (loss_fn : CrossEntropyLoss)
           (batch : Batch) : M xfloat :=
  let input_text := fst batch in
  let target_text := snd batch in
  let input_mask := no_peak_mask (length (hd [] input_text)) in
  output <- Transformer_forward model input_text (Some input_mask) ;;
  lift (batch_loss loss_fn output target_text).

(** [validate]; the model, which Python updates in place, is returned
    with the results.  The data loader is the list of its batches in the
    order of this pass; the device, which only says where the tensors
    live, is left out. *)
Definition validate (model : Transformer) (valid_dataloader : list Batch)
           (loss_fn : CrossEntropyLoss)
  : M (xfloat * xfloat * Transformer) :=
  let model := Transformer_train false model in
  total_loss <- for_each (fun total_loss batch =>
                            loss <- forward_loss model loss_fn batch ;;
                            ret (xadd total_loss loss))
                         valid_dataloader (Fin 0) ;;
  match valid_dataloader with
  | [] => raise ZeroDivisionError
  | _ =>
      let avg_loss := xdiv total_loss (length valid_dataloader) in
      let perplexity := xexp avg_loss in
      ret (avg_loss, perplexity, model)
  end.

(** [test]: the same loop, with the device taken from [opt]. *)
Definition test (model : Transformer) (test_dataloader : list Batch)
           (loss_fn : CrossEntropyLoss)
  : M (xfloat * xfloat * Transformer) :=
  let model := Transformer_train false model in
  total_loss <- for_each (fun total_loss batch =>
                            loss <- forward_loss model loss_fn batch ;;
                            ret (xadd total_loss loss))
                         test_dataloader (Fin 0) ;;
  match test_dataloader with
  | [] => raise ZeroDivisionError
  | _ =>
      let avg_loss := xdiv total_loss (length test_dataloader) in
      let perplexity := xexp avg_loss in
      ret (avg_loss, perplexity, model)
  end.

Definition get_generator : M Generator := fun g => Ok (g, g).

Section Training.

(** The optimizer with its moment estimates and, when enabled, the
    scheduler. *)
Variable Optimizer : Type.

(** [optimizer.zero_grad(); loss.backward(); optimizer.step()] and the
    optional [opt.sched.step()]: the new parameters and optimizer state
    that the gradient of this batch's loss determines.  The gradient is
    that of the forward pass just run, so it depends on the generator
    state the pass started from. *)
Variable backward_step :
  Transformer -> Optimizer -> Batch -> Generator -> Transformer * Optimizer.

(** The batch loop of one epoch of [train_model]. *)
Definition train_epoch (model : Transformer) (optimizer : Optimizer)
           (train_dataloader : list Batch) (loss_fn : CrossEntropyLoss)
  : M (xfloat * xfloat * Transformer * Optimizer) :=
  let model := Transformer_train true model in
  st <- for_each (fun (st : xfloat * Transformer * Optimizer) batch =>
                    let '(total_tl, model, optimizer) := st in
                    g <- get_generator ;;
                    loss <- forward_loss model loss_fn batch ;;
                    let '(model, optimizer) :=
                      backward_step model optimizer batch g in
                    ret (xadd total_tl loss, model, optimizer))
                 train_dataloader (Fin 0, model, optimizer) ;;
  let '(total_tl, model, optimizer) := st in
  match train_dataloader with
  | [] => raise ZeroDivisionError
  | _ =>
      let avg_tl := xdiv total_tl (length train_dataloader) in
      let train_perplexity := xexp avg_tl in
      ret (avg_tl, train_perplexity, model, optimizer)
  end.

End Training.

(** A model small enough to run by hand: two token ids, width two, one
    decoder layer ([two_norm_layer]), a final [Norm] with zero scale and
    bias, and the identity as output projection. *)
Definition tiny_model : Transformer :=
  mkTransformer
    (mkDecoder 1 (mkEmbedder 2 [[1; 0]; [0; 1]])
               (mkPE 2 eval_dropout [[0; 1]; [0; 1]])
               [two_norm_layer] (mkNorm 2 [0; 0] [0; 0] 1e-6))
    id_linear2.

(** ** Constructors with fixed initial values *)

(** [torch.ones(n)] and [torch.zeros(n)] for a vector refuse a negative
    size. *)
Definition torch_vector (value : R) (n : Z) : Result vec :=
  if (n <? 0)%Z then Raise RuntimeError else Ok (repeat value (Z.to_nat n)).

(** [Norm(d_model, eps)]: the scale starts at one and the shift at
    zero. *)
Definition Norm_init (d_model : Z) (eps : R) : Result Norm :=
  let? alpha := torch_vector 1 d_model in
  let? bias := torch_vector 0 d_model in
  Ok (mkNorm (Z.to_nat d_model) alpha bias eps).

(** [get_clones(module, N)]: [N] independent copies of the module. *)
Definition get_clones {A : Type} (module : A) (N : Z) : list A :=
  repeat module (Z.to_nat N).

(** The layers of a list, each applied to the result of the one before. *)
Fixpoint run_layers (layers : list DecoderLayer) (x : tensor3)
         (trg_mask : option xmat) : M tensor3 :=
  match layers with
  | [] => ret x
  | l :: rest => y <- DecoderLayer_forward l x trg_mask ;;
                 run_layers rest y trg_mask
  end.

(** The states inside the cycle that [s0] starts: [n] steps after the
    restart, nothing but the step counters has moved. *)
Definition in_cycle (s0 : CosineWithRestarts) (n : Z) (s : CosineWithRestarts)
  : Prop :=
  _initialized s = true
  /\ T_max s = T_max s0 /\ eta_min s = eta_min s0 /\ factor s = factor s0
  /\ base_lrs s = base_lrs s0
  /\ _cycle_factor s = _cycle_factor s0
  /\ _updated_cycle_len s = _updated_cycle_len s0
  /\ _last_restart s = _last_restart s0
  /\ last_epoch s = (last_epoch s0 + n)%Z.

(** ** Computations that leave the generator alone *)

(** A computation that neither reads nor advances the generator: from
    every generator state it gives the same outcome and hands the state
    back. *)
Definition generator_free {A : Type} (m : M A) : Prop :=
  exists r : Result A,
    forall g : Generator,
      m g = match r with
            | Ok a => Ok (a, g)
            | Raise e => Raise e
            end.

(** ** [train_model] *)

Section TrainModel.

Variable Optimizer : Type.

Variable backward_step :
  Transformer -> Optimizer -> Batch -> Generator -> Transformer * Optimizer.

(** What [train_model] builds up: the four lists it returns, and the
    checkpoints it writes, each with the number in its file name and
    the model whose state is saved. *)
Record TrainLog : Type := mkTrainLog {
  train_losses : list xfloat;
  train_perplexities : list xfloat;
  valid_losses : list xfloat;
  valid_perplexities : list xfloat;
  checkpoints : list (Z * Transformer)
}.

(** The body of the epoch loop. *)
Definition train_model_epoch (train_dataloader valid_dataloader : list Batch)
           (loss_fn : CrossEntropyLoss)
           (st : Transformer * Optimizer * TrainLog) (epoch : Z)
  : M (Transformer * Optimizer * TrainLog) :=
  let '(model, optimizer, log) := st in
  r <- train_epoch Optimizer backward_step model optimizer train_dataloader loss_fn ;;
  let '(avg_tl, train_perplexity, model, optimizer) := r in
  v <- validate model valid_dataloader loss_fn ;;
  let '(avg_vl, valid_perplexity, model) := v in
  let saved :=
    if ((epoch + 1) mod 5 =? 0)%Z
    then checkpoints log ++ [((epoch + 1)%Z, model)]
    else checkpoints log in
  ret (model, optimizer,
       mkTrainLog (train_losses log ++ [avg_tl])
                  (train_perplexities log ++ [train_perplexity])
                  (valid_losses log ++ [avg_vl])
                  (valid_perplexities log ++ [valid_perplexity])
                  saved).

(** [train_model]; the model and the optimizer, which Python updates in
    place, are returned with the log. *)
Definition train_model (model : Transformer) (optimizer : Optimizer) (epochs : Z)
           (train_dataloader valid_dataloader : list Batch)
           (loss_fn : CrossEntropyLoss)
  : M (Transformer * Optimizer * TrainLog) :=
  for_each (train_model_epoch train_dataloader valid_dataloader loss_fn)
           (map Z.of_nat (seq 0 (Z.to_nat epochs)))
           (model, optimizer, mkTrainLog [] [] [] [] []).

End TrainModel.

(** A model without decoder layers: embedding, positional encoding
    (with its dropout), a final [Norm] with zero scale and bias, and
    the identity as output projection. *)
Definition bare_model : Transformer :=
  mkTransformer
    (mkDecoder 0 (mkEmbedder 2 [[1; 0]; [0; 1]])
               (mkPE 2 eval_dropout [[0; 1]; [0; 1]])
               [] (mkNorm 2 [0; 0] [0; 0] 1e-6))
    id_linear2.

(** ** Shapes *)

(** A batch of [B] matrices of [L] rows and [W] columns. *)
Definition shaped3 (B L W : nat) (x : tensor3) : Prop :=
  length x = B /\ Forall (shaped L W) x.

(** The shapes the constructors give to the weights: [nn.Linear(d_in,
    d_out)] has a weight of [d_out] rows and [d_in] columns and a bias
    of [d_out] entries; [Norm(d)] has [d] scales and [d] shifts;
    [MultiHeadAttention(heads, d_model)] has four square linear maps
    and [d_k = d_model // heads], with [heads] dividing [d_model] as
    [get_model] asserts. *)
Definition Linear_shaped (d_in d_out : nat) (l : Linear) : Prop :=
  shaped d_out d_in (lin_weight l) /\ length (lin_bias l) = d_out.

Definition Norm_shaped (d : nat) (n : Norm) : Prop :=
  length (norm_alpha n) = d /\ length (norm_bias n) = d.

Definition MultiHeadAttention_shaped (d_model : nat) (a : MultiHeadAttention)
  : Prop :=
  (0 < mha_h a)%nat /\ (0 < mha_d_k a)%nat
  /\ (mha_h a * mha_d_k a = d_model)%nat
  /\ Linear_shaped d_model d_model (mha_q_linear a)
  /\ Linear_shaped d_model d_model (mha_k_linear a)
  /\ Linear_shaped d_model d_model (mha_v_linear a)
  /\ Linear_shaped d_model d_model (mha_out a).

Definition DecoderLayer_shaped (d_model : nat) (l : DecoderLayer) : Prop :=
  Norm_shaped d_model (norm_1 l) /\ Norm_shaped d_model (norm_2 l)
  /\ MultiHeadAttention_shaped d_model (attn_1 l).

(** A model as [Transformer(trg_vocab, d_model, N, heads, dropout)]
    builds it, with a positional table of [max_seq_len] rows. *)
Definition Transformer_shaped (trg_vocab d_model max_seq_len : nat)
           (m : Transformer) : Prop :=
  shaped trg_vocab d_model (emb_weight (dec_embed (decoder m)))
  /\ shaped max_seq_len d_model (pe_buffer (dec_pe (decoder m)))
  /\ dec_N (decoder m) = length (dec_layers (decoder m))
  /\ Forall (DecoderLayer_shaped d_model) (dec_layers (decoder m))
  /\ Norm_shaped d_model (dec_norm (decoder m))
  /\ Linear_shaped d_model trg_vocab (out m).

(** A computation that, from every generator state, returns a value
    with property [P]. *)
Definition returns {A : Type} (P : A -> Prop) (m : M A) : Prop :=
  forall g : Generator, exists (a : A) (g' : Generator), m g = Ok (a, g') /\ P a.

(** A batch the model can take: [B >= 1] sequences of one length [L]
    between 1 and [max_seq_len], token ids below the vocabulary size,
    and targets of the same shape, each the ignore index -100 or a
    class. *)
Definition Batch_valid (trg_vocab max_seq_len : nat) (batch : Batch) : Prop :=
  exists B L : nat,
    (0 < B)%nat /\ (0 < L <= max_seq_len)%nat
    /\ length (fst batch) = B /\ length (snd batch) = B
    /\ Forall (fun row => length row = L) (fst batch)
    /\ Forall (fun row => length row = L) (snd batch)
    /\ Forall (Forall (fun id => (0 <= id < Z.of_nat trg_vocab)%Z)) (fst batch)
    /\ Forall (Forall (fun t => t = (-100)%Z \/ (0 <= t < Z.of_nat trg_vocab)%Z))
              (snd batch).

(** * Properties *)

Lemma Rsign_1 : Rsign 1 = Gt.
Proof.
  unfold Rsign. destruct (Rlt_dec 0 1) as [_ | H]; [reflexivity | lra].
Qed.

Lemma imap_repeat {A B : Type} (f : nat -> A -> B) (x : A) (n i0 : nat) :
  imap f i0 (repeat x n) = map (fun i => f i x) (seq i0 n).
Proof.
  revert i0. induction n as [| n IH]; intros i0; simpl.
  - reflexivity.
  - now rewrite IH.
Qed.

Lemma map_repeat {A B : Type} (f : A -> B) (x : A) (n : nat) :
  map f (repeat x n) = repeat (f x) n.
Proof.
  induction n as [| n IH]; simpl; [reflexivity | now rewrite IH].
Qed.

Lemma no_peak_mask_entries (L : nat) : no_peak_mask L = causal_matrix L.
Proof.
  unfold no_peak_mask, triu, mul_scalar, ones, causal_matrix.
  rewrite !map_repeat, imap_repeat.
  apply map_ext; intros i.
  rewrite imap_repeat.
  apply map_ext_in; intros j _.
  simpl xmul. rewrite Rsign_1.
  destruct (Nat.ltb_spec i j) as [H | H];
    destruct (Z.leb_spec 1 (Z.of_nat j - Z.of_nat i)) as [H' | H'];
    solve [reflexivity | lia].
Qed.

Lemma no_peak_mask_square (L : nat) :
  length (no_peak_mask L) = L
  /\ Forall (fun row => length row = L) (no_peak_mask L).
Proof.
  rewrite no_peak_mask_entries. unfold causal_matrix. split.
  - now rewrite length_map, length_seq.
  - apply Forall_forall. intros row Hin.
    apply in_map_iff in Hin as [i [<- _]].
    now rewrite length_map, length_seq.
Qed.

(** C8. For every length [L], [no_peak_mask L] is the [L]-by-[L] matrix
    whose entries strictly above the main diagonal are negative infinity
    and whose other entries are zero. *)
Theorem no_peak_mask_causal (L : nat) :
  no_peak_mask L = causal_matrix L
  /\ length (no_peak_mask L) = L
  /\ Forall (fun row => length row = L) (no_peak_mask L).
Proof.
  split.
  - apply no_peak_mask_entries.
  - apply no_peak_mask_square.
Qed.

(** ** Masking inside [attention] *)

Lemma xeq0_zero : xeq0 (Fin 0) = true.
Proof.
  unfold xeq0. destruct (Req_dec_T 0 0); [reflexivity | contradiction].
Qed.

Lemma map2_map_seq {A B C : Type} (f : A -> B -> C) (g : nat -> B) (l : list A) :
  forall i0, map2 f l (map g (seq i0 (length l))) = imap (fun i x => f x (g i)) i0 l.
Proof.
  induction l as [| x l IH]; intros i0; simpl; [reflexivity | now rewrite IH].
Qed.

Lemma imap_in_ext {A B : Type} (f g : nat -> A -> B) (l : list A) :
  forall i0, (forall i x, In x l -> f i x = g i x) -> imap f i0 l = imap g i0 l.
Proof.
  induction l as [| x l IH]; intros i0 H; simpl; [reflexivity |].
  rewrite H by now left. f_equal. apply IH. intros i y Hy. apply H. now right.
Qed.

Lemma broadcast_pair_same {A B : Type} (l : list A) (l' : list B) :
  length l = length l' -> broadcast_pair l l' = Ok (combine l l').
Proof.
  intros H. unfold broadcast_pair. now rewrite H, Nat.eqb_refl.
Qed.

Lemma map_combine_map2 {A B C : Type} (f : A -> B -> C) (l : list A) (l' : list B) :
  map (fun e => f (fst e) (snd e)) (combine l l') = map2 f l l'.
Proof.
  revert l'. induction l as [| x l IH]; intros [| y l']; simpl;
    [reflexivity | reflexivity | reflexivity | now rewrite IH].
Qed.

(** On operands of the same shape [masked_fill] is the entrywise
    selection. *)
Lemma masked_fill_same_shape (scores : mat) (mask : xmat) (value : R) :
  Forall2 (fun s m => length s = length m) scores mask ->
  masked_fill scores mask value =
  Ok (map2 (map2 (fun s m => if xeq0 m then value else s)) scores mask).
Proof.
  intros H. unfold masked_fill.
  rewrite broadcast_pair_same by (induction H; simpl; congruence).
  induction H as [| s m scores mask Hsm _ IH]; simpl; [reflexivity |].
  rewrite (broadcast_pair_same s m Hsm), IH.
  now rewrite (map_combine_map2 (fun s0 m0 => if xeq0 m0 then value else s0)).
Qed.

(** What the masking step of [attention] does with a mask built by
    [no_peak_mask]: the entries on and below the diagonal, where the mask
    is zero, are overwritten with the fill value; the entries strictly
    above the diagonal keep their score. *)
Lemma mask_scores_no_peak (L : nat) (scores : mat) :
  length scores = L -> Forall (fun r => length r = L) scores ->
  mask_scores (Some (no_peak_mask L)) scores =
  Ok (imap (fun i row =>
              imap (fun j s => if (j <=? i)%nat then mask_fill_value else s)
                   0%nat row)
           0%nat scores).
Proof.
  intros Hlen Hrows. unfold mask_scores.
  pose proof (no_peak_mask_entries L) as E.
  destruct (no_peak_mask_square L) as [Hl Hf].
  rewrite masked_fill_same_shape.
  - rewrite E. f_equal. unfold causal_matrix.
    subst L. rewrite map2_map_seq.
    apply imap_in_ext. intros i row Hin.
    rewrite Forall_forall in Hrows. rewrite <- (Hrows row Hin).
    rewrite map2_map_seq. apply imap_in_ext. intros j s _.
    destruct (Nat.ltb_spec i j), (Nat.leb_spec j i); try lia.
    + reflexivity.
    + now rewrite xeq0_zero.
  - rewrite <- Hl in Hlen. clear E Hl.
    revert Hlen Hrows Hf. generalize (no_peak_mask L) as mask.
    induction scores as [| s scores IH]; intros [| m mask] Hlen Hrows Hf;
      simpl in Hlen; try discriminate; constructor.
    + inversion Hrows; inversion Hf; congruence.
    + apply IH; [congruence | now inversion Hrows | now inversion Hf].
Qed.

(** C1. With the mask of [no_peak_mask 2], [attention] overwrites the
    scores on and below the diagonal and leaves the score of the future
    position (0, 1) as it was; two value tensors that agree at position 0
    and differ only at position 1 then give different outputs at
    position 0: the output of a position depends on a later position. *)
Theorem attention_no_peak_reads_future :
  (forall a b c d : R,
      mask_scores (Some (no_peak_mask 2)) [[a; b]; [c; d]] =
      Ok [[mask_fill_value; b]; [mask_fill_value; mask_fill_value]])
  /\ (forall g : Generator,
         let q := [[ [[0]; [0]] ]] in
         let v := [[ [[0]; [1]] ]] in
         let v' := [[ [[0]; [0]] ]] in
         exists o o' : mat,
           attention q q v 1 (Some (no_peak_mask 2)) None g = Ok ([[o]], g)
           /\ attention q q v' 1 (Some (no_peak_mask 2)) None g = Ok ([[o']], g)
           /\ nth 0 o [] <> nth 0 o' []).
Proof.
  split.
  - intros a b c d.
    now rewrite (mask_scores_no_peak 2) by (repeat constructor).
  - intros g q v v'. unfold attention, q, v, v'.
    cbn [map2 map transpose length seq nth matmul mat_div dot Rsum
         fold_right sequence].
    rewrite !(mask_scores_no_peak 2) by (repeat constructor).
    cbn. do 2 eexists. split; [reflexivity |]. split; [reflexivity |].
    cbn.
    set (a := exp mask_fill_value). set (b := exp _).
    assert (Ha : 0 < a) by apply exp_pos.
    assert (Hb : 0 < b) by apply exp_pos.
    assert (Hw : 0 < b / (a + (b + 0))) by (apply Rdiv_lt_0_compat; lra).
    set (w := b / _) in *. intros H. injection H. lra.
Qed.

(** ** The decoder layer *)

Lemma bind_Ok {A B : Type} (m : M A) (f : A -> M B) (g g' : Generator) (a : A) :
  m g = Ok (a, g') -> bind m f g = f a g'.
Proof.
  intros H. unfold bind. now rewrite H.
Qed.

Lemma bind_assoc {A B C : Type} (m : M A) (f : A -> M B) (k : B -> M C)
      (g : Generator) :
  bind (bind m f) k g = bind m (fun a => bind (f a) k) g.
Proof.
  unfold bind. destruct (m g) as [[a g'] | e]; reflexivity.
Qed.

Lemma bind_ret_r {A : Type} (m : M A) (g : Generator) :
  bind m (fun a => ret a) g = m g.
Proof.
  unfold bind, ret. destruct (m g) as [[a g'] | e]; reflexivity.
Qed.

Lemma bind_ext {A B : Type} (m : M A) (f f' : A -> M B) (g : Generator) :
  (forall a g', f a g' = f' a g') -> bind m f g = bind m f' g.
Proof.
  intros H. unfold bind. destruct (m g) as [[a g'] | e]; [apply H | reflexivity].
Qed.

Lemma softmax_singleton (s : R) : softmax [s] = [1].
Proof.
  unfold softmax. simpl. f_equal. pose proof (exp_pos s). field. lra.
Qed.

(** On a single position [echo_attn] returns its input: the only
    attention weight is one, and the value and output projections are the
    identity. *)
Lemma echo_attn_forward (y0 y1 : R) (g : Generator) :
  MultiHeadAttention_forward echo_attn [[[y0; y1]]] [[[y0; y1]]] [[[y0; y1]]]
                             (Some (no_peak_mask 1)) g
  = Ok ([[[y0; y1]]], g).
Proof.
  unfold MultiHeadAttention_forward, attention.
  cbn -[softmax]. rewrite softmax_singleton. cbn.
  unfold ret. repeat f_equal; ring.
Qed.

(** A [Norm] whose scale is zero returns its bias. *)
Lemma Norm_vec_alpha0 (n : Norm) (b0 b1 x0 x1 : R) :
  norm_alpha n = [0; 0] -> norm_bias n = [b0; b1] ->
  Norm_vec n [x0; x1] = [b0; b1].
Proof.
  intros Ha Hb. unfold Norm_vec. rewrite Ha, Hb. simpl.
  unfold Rdiv. repeat f_equal; ring.
Qed.

(** On a single position [two_norm_layer] returns the bias of its second
    normalisation, whatever the input. *)
Lemma two_norm_layer_forward (x0 x1 : R) (g : Generator) :
  DecoderLayer_forward two_norm_layer [[[x0; x1]]] (Some (no_peak_mask 1)) g
  = Ok ([[[0; 1]]], g).
Proof.
  unfold DecoderLayer_forward, Norm_forward.
  cbn [map two_norm_layer norm_1 norm_2 attn_1 dropout_1].
  rewrite (Norm_vec_alpha0 _ 1 0) by reflexivity.
  rewrite (bind_Ok _ _ _ _ _ (echo_attn_forward 1 0 g)).
  cbn [Dropout_forward eval_dropout drop_training bind ret map].
  rewrite (Norm_vec_alpha0 _ 0 1) by reflexivity.
  now rewrite (bind_Ok _ _ _ _ _ (echo_attn_forward 0 1 g)).
Qed.




(** ** Construction of the positional encoder *)

Lemma nn_Dropout_ok (p : R) : 0 <= p <= 1 -> nn_Dropout p = Ok (mkDropout p true).
Proof.
  intros [H0 H1]. unfold nn_Dropout.
  destruct (Rlt_dec p 0); [lra |]. destruct (Rlt_dec 1 p); [lra | reflexivity].
Qed.

Lemma length_list_update {A : Type} (l : list A) (i : nat) (v : A) :
  length (list_update l i v) = length l.
Proof.
  revert i. induction l as [| x l IH]; intros [| i]; simpl; auto.
Qed.

Lemma Forall_list_update {A : Type} (P : A -> Prop) (l : list A) (i : nat) (v : A) :
  Forall P l -> P v -> Forall P (list_update l i v).
Proof.
  intros H Hv. revert i. induction H as [| x l Hx Hl IH]; intros [| i]; simpl;
    constructor; auto.
Qed.

Lemma norm_index_in (n : nat) (i : Z) :
  (0 <= i < Z.of_nat n)%Z -> norm_index n i = Ok (Z.to_nat i).
Proof.
  intros H. unfold norm_index.
  destruct (Z.leb_spec 0 i), (Z.ltb_spec i (Z.of_nat n)); simpl; solve [reflexivity | lia].
Qed.

Lemma norm_index_end (n : nat) : norm_index n (Z.of_nat n) = Raise IndexError.
Proof.
  unfold norm_index.
  destruct (Z.ltb_spec (Z.of_nat n) (Z.of_nat n)); [lia |].
  destruct (Z.ltb_spec (Z.of_nat n) 0); [lia |].
  now rewrite !andb_false_r.
Qed.

Lemma shaped_nth (rows cols : nat) (t : mat) (r : nat) :
  shaped rows cols t -> (r < rows)%nat -> length (nth r t []) = cols.
Proof.
  intros [Hl Hf] Hr. rewrite Forall_forall in Hf. apply Hf, nth_In. lia.
Qed.

Lemma tensor_set_in (rows cols : nat) (t : mat) (r c : Z) (v : R) :
  shaped rows cols t -> (0 <= r < Z.of_nat rows)%Z -> (0 <= c < Z.of_nat cols)%Z ->
  exists t', tensor_set t r c v = Ok t' /\ shaped rows cols t'.
Proof.
  intros Hs Hr Hc. pose proof Hs as [Hl Hf]. unfold tensor_set.
  rewrite norm_index_in by lia. cbn [rbind].
  rewrite (shaped_nth rows cols) by (auto; lia).
  rewrite norm_index_in by lia. cbn [rbind].
  eexists. split; [reflexivity |]. split.
  - now rewrite length_list_update.
  - apply Forall_list_update; [exact Hf |].
    rewrite length_list_update. apply (shaped_nth rows cols); auto; lia.
Qed.

Lemma tensor_set_col_end (rows cols : nat) (t : mat) (r : Z) (v : R) :
  shaped rows cols t -> (0 <= r < Z.of_nat rows)%Z ->
  tensor_set t r (Z.of_nat cols) v = Raise IndexError.
Proof.
  intros Hs Hr. pose proof Hs as [Hl Hf]. unfold tensor_set.
  rewrite norm_index_in by lia. cbn [rbind].
  rewrite (shaped_nth rows cols) by (auto; lia).
  now rewrite norm_index_end.
Qed.

Lemma pe_write_pair_in (rows cols : nat) (d pos i : Z) (t : mat) :
  shaped rows cols t -> (0 <= pos < Z.of_nat rows)%Z ->
  (0 <= i)%Z -> (i + 1 < Z.of_nat cols)%Z ->
  exists t', pe_write_pair d pos t i = Ok t' /\ shaped rows cols t'.
Proof.
  intros Hs Hp H0 H1. unfold pe_write_pair.
  destruct (tensor_set_in rows cols t pos i
              (sin (IZR pos / Rpower 10000 (IZR (2 * i) / IZR d))) Hs Hp)
    as [t1 [E1 Hs1]]; [lia |].
  rewrite E1. cbn [rbind]. apply tensor_set_in; auto; lia.
Qed.

Lemma pe_write_pair_end (rows cols : nat) (d pos i : Z) (t : mat) :
  shaped rows cols t -> (0 <= pos < Z.of_nat rows)%Z ->
  (0 <= i)%Z -> (i + 1 = Z.of_nat cols)%Z ->
  pe_write_pair d pos t i = Raise IndexError.
Proof.
  intros Hs Hp H0 H1. unfold pe_write_pair.
  destruct (tensor_set_in rows cols t pos i
              (sin (IZR pos / Rpower 10000 (IZR (2 * i) / IZR d))) Hs Hp)
    as [t1 [E1 Hs1]]; [lia |].
  rewrite E1, H1. cbn [rbind]. now apply (tensor_set_col_end rows cols).
Qed.

Lemma foldM_inv {S A : Type} (P : S -> Prop) (f : S -> A -> Result S) (l : list A) :
  (forall s x, P s -> In x l -> exists s', f s x = Ok s' /\ P s') ->
  forall s, P s -> exists s', foldM f l s = Ok s' /\ P s'.
Proof.
  induction l as [| x l IH]; intros Hf s Hs; simpl.
  - now exists s.
  - destruct (Hf s x Hs (or_introl eq_refl)) as [s1 [E1 H1]].
    rewrite E1. cbn [rbind]. apply IH; [| exact H1].
    intros s0 y H0 Hy. apply Hf; [exact H0 | now right].
Qed.

Lemma foldM_app {S A : Type} (f : S -> A -> Result S) (l l' : list A) (s : S) :
  foldM f (l ++ l') s = let? s' := foldM f l s in foldM f l' s'.
Proof.
  revert s. induction l as [| x l IH]; intros s; simpl; [reflexivity |].
  destruct (f s x) as [s1 | e]; cbn [rbind]; [apply IH | reflexivity].
Qed.

Lemma py_range_up (stop : Z) :
  py_range 0 stop 1 = Ok (map Z.of_nat (seq 0 (Z.to_nat stop))).
Proof.
  unfold py_range. cbn [Z.eqb Z.ltb Z.compare].
  f_equal. replace ((stop - 0 + 1 - 1) / 1)%Z with stop by (rewrite Z.div_1_r; lia).
  apply map_ext. intros k. lia.
Qed.

Lemma py_range_by_2 (stop : Z) :
  py_range 0 stop 2 =
  Ok (map (fun k => (2 * Z.of_nat k)%Z) (seq 0 (Z.to_nat ((stop + 1) / 2)))).
Proof.
  unfold py_range. cbn [Z.eqb Z.ltb Z.compare].
  f_equal. replace (stop - 0 + 2 - 1)%Z with (stop + 1)%Z by lia.
  apply map_ext. intros k. lia.
Qed.

Lemma shaped_zeros (n m : nat) : shaped n m (zeros n m).
Proof.
  unfold zeros. split.
  - apply repeat_length.
  - apply Forall_forall. intros r Hr. apply repeat_spec in Hr. subst r.
    apply repeat_length.
Qed.

(** The inner loop on an even width succeeds. *)
Lemma pe_row_even (rows : nat) (d pos : Z) (t : mat) :
  (0 <= d)%Z -> Z.even d = true ->
  shaped rows (Z.to_nat d) t -> (0 <= pos < Z.of_nat rows)%Z ->
  exists t',
    (let? features := py_range 0 d 2 in foldM (pe_write_pair d pos) features t) = Ok t'
    /\ shaped rows (Z.to_nat d) t'.
Proof.
  intros Hd He Hs Hp. rewrite py_range_by_2. cbn [rbind].
  apply (foldM_inv (shaped rows (Z.to_nat d))); [| exact Hs].
  intros s i Hs' Hi. apply in_map_iff in Hi as [k [<- Hk]].
  apply in_seq in Hk.
  apply Z.even_spec in He as [h Hh].
  apply (pe_write_pair_in rows (Z.to_nat d)); auto; try lia.
  subst d. replace ((2 * h + 1) / 2)%Z with h in Hk; [lia |].
  apply Z.div_unique with (r := 1%Z); lia.
Qed.

(** The inner loop on an odd width stops at its last feature index. *)
Lemma pe_row_odd (rows : nat) (d pos : Z) (t : mat) :
  (0 <= d)%Z -> Z.odd d = true ->
  shaped rows (Z.to_nat d) t -> (0 <= pos < Z.of_nat rows)%Z ->
  (let? features := py_range 0 d 2 in foldM (pe_write_pair d pos) features t)
  = Raise IndexError.
Proof.
  intros Hd Ho Hs Hp. rewrite py_range_by_2. cbn [rbind].
  apply Z.odd_spec in Ho as [h Hh].
  replace ((d + 1) / 2)%Z with (h + 1)%Z
    by (subst d; apply Z.div_unique with (r := 0%Z); lia).
  replace (Z.to_nat (h + 1)) with (S (Z.to_nat h)) by lia.
  rewrite seq_S, map_app, foldM_app. cbn [map].
  destruct (foldM_inv (shaped rows (Z.to_nat d)) (pe_write_pair d pos)
              (map (fun k => (2 * Z.of_nat k)%Z) (seq 0 (Z.to_nat h)))) with (s := t)
    as [t1 [E1 H1]]; [| exact Hs |].
  - intros s i Hs' Hi. apply in_map_iff in Hi as [k [<- Hk]].
    apply in_seq in Hk.
    apply (pe_write_pair_in rows (Z.to_nat d)); auto; lia.
  - rewrite E1. cbn [rbind foldM].
    rewrite (pe_write_pair_end rows (Z.to_nat d)); auto; lia.
Qed.

Lemma torch_zeros_ok (n m : Z) :
  (0 <= n)%Z -> (0 <= m)%Z -> torch_zeros n m = Ok (zeros (Z.to_nat n) (Z.to_nat m)).
Proof.
  intros Hn Hm. unfold torch_zeros.
  destruct (Z.ltb_spec n 0), (Z.ltb_spec m 0); simpl; solve [reflexivity | lia].
Qed.

Lemma PositionalEncoder_init_odd (d m : Z) (p : R) :
  0 <= p <= 1 -> (0 <= d)%Z -> Z.odd d = true -> (0 < m)%Z ->
  PositionalEncoder_init d m p = Raise IndexError.
Proof.
  intros Hp Hd Ho Hm. unfold PositionalEncoder_init.
  rewrite nn_Dropout_ok, torch_zeros_ok, py_range_up by (auto; lia).
  cbn [rbind].
  replace (Z.to_nat m) with (S (Z.to_nat (m - 1))) by lia.
  cbn [seq map foldM].
  rewrite (pe_row_odd (S (Z.to_nat (m - 1)))); auto; try lia.
  apply shaped_zeros.
Qed.

Lemma PositionalEncoder_init_even (d m : Z) (p : R) :
  0 <= p <= 1 -> (0 <= d)%Z -> Z.even d = true -> (0 <= m)%Z ->
  exists pe, PositionalEncoder_init d m p = Ok pe.
Proof.
  intros Hp Hd He Hm. unfold PositionalEncoder_init.
  rewrite nn_Dropout_ok, torch_zeros_ok, py_range_up by (auto; lia).
  cbn [rbind].
  destruct (foldM_inv (shaped (Z.to_nat m) (Z.to_nat d))
              (fun pe pos =>
                 let? features := py_range 0 d 2 in
                 foldM (pe_write_pair d pos) features pe)
              (map Z.of_nat (seq 0 (Z.to_nat m))))
    with (s := zeros (Z.to_nat m) (Z.to_nat d)) as [t [E Ht]].
  - intros s pos Hs Hpos. apply in_map_iff in Hpos as [k [<- Hk]].
    apply in_seq in Hk. apply pe_row_even; auto; lia.
  - apply shaped_zeros.
  - rewrite E. cbn [rbind]. eexists; reflexivity.
Qed.

(** C10, as stated, fails: with [max_seq_len = 0] the loops never run and
    the odd width 1 is accepted. *)
Lemma PositionalEncoder_init_empty :
  Z.odd 1 = true /\
  PositionalEncoder_init 1 0 (1 / 10) = Ok (mkPE 1 (mkDropout (1 / 10) true) []).
Proof.
  split; [reflexivity |].
  unfold PositionalEncoder_init. rewrite nn_Dropout_ok by lra. reflexivity.
Qed.

(** C10, amended.  With at least one position ([max_seq_len >= 1])
    construction succeeds only for an even [d_model]: for an odd positive
    [d_model] the inner loop reaches [i = d_model - 1] and its second
    write, to column [i + 1 = d_model], is out of bounds; an even
    non-negative [d_model] is accepted. *)
Theorem PositionalEncoder_init_needs_even (d_model max_seq_len : Z) (dropout : R) :
  (0 < max_seq_len)%Z ->
  ((exists pe, PositionalEncoder_init d_model max_seq_len dropout = Ok pe) ->
   Z.even d_model = true)
  /\ (0 <= dropout <= 1 -> (0 < d_model)%Z -> Z.odd d_model = true ->
      PositionalEncoder_init d_model max_seq_len dropout = Raise IndexError)
  /\ (0 <= dropout <= 1 -> (0 <= d_model)%Z -> Z.even d_model = true ->
      exists pe, PositionalEncoder_init d_model max_seq_len dropout = Ok pe).
Proof.
  intros Hm. split; [| split].
  - intros [pe E].
    destruct (Z.even d_model) eqn:He; [reflexivity | exfalso].
    assert (Ho : Z.odd d_model = true) by now rewrite <- Z.negb_even, He.
    unfold PositionalEncoder_init in E.
    destruct (nn_Dropout dropout) as [drop |] eqn:Ed; [| discriminate].
    assert (Hp : 0 <= dropout <= 1).
    { unfold nn_Dropout in Ed.
      destruct (Rlt_dec dropout 0); [discriminate |].
      destruct (Rlt_dec 1 dropout); [discriminate | lra]. }
    destruct (Z.ltb_spec d_model 0) as [Hneg | Hd].
    + cbn [rbind] in E. unfold torch_zeros in E.
      apply Z.ltb_lt in Hneg. rewrite Hneg, orb_true_r in E. discriminate.
    + pose proof (PositionalEncoder_init_odd d_model max_seq_len dropout
                    Hp Hd Ho Hm) as E'.
      unfold PositionalEncoder_init in E'. rewrite Ed in E'.
      rewrite E' in E. discriminate.
  - intros Hp Hd Ho. apply PositionalEncoder_init_odd; auto; lia.
  - intros Hp Hd He. apply PositionalEncoder_init_even; auto; lia.
Qed.

Lemma PositionalEncoder_init_needs_even_witness :
  PositionalEncoder_init 3 1 (1 / 10) = Raise IndexError.
Proof.
  apply (proj1 (proj2 (PositionalEncoder_init_needs_even 3 1 (1 / 10) eq_refl)));
    [lra | reflexivity | reflexivity].
Defined.

(** *** The table the constructor computes *)

Lemma list_update_app {A : Type} (p q : list A) (x v : A) :
  list_update (p ++ x :: q) (length p) v = p ++ v :: q.
Proof.
  induction p as [| y p IH]; simpl; [reflexivity | now rewrite IH].
Qed.

Lemma tensor_set_at (above below : mat) (left right : vec) (x v : R) :
  tensor_set (above ++ (left ++ x :: right) :: below)
             (Z.of_nat (length above)) (Z.of_nat (length left)) v
  = Ok (above ++ (left ++ v :: right) :: below).
Proof.
  unfold tensor_set.
  rewrite norm_index_in by (rewrite length_app; simpl; lia).
  cbn [rbind]. rewrite Nat2Z.id, nth_middle.
  rewrite norm_index_in by (rewrite length_app; simpl; lia).
  cbn [rbind]. rewrite Nat2Z.id, !list_update_app. reflexivity.
Qed.

Lemma pe_code_row_S (d pos : Z) (n : nat) :
  pe_code_row d pos (S n) = pe_code_row d pos n ++ [pe_code_entry d pos (Z.of_nat n)].
Proof.
  unfold pe_code_row. now rewrite seq_S, map_app.
Qed.

Lemma length_pe_code_row (d pos : Z) (n : nat) : length (pe_code_row d pos n) = n.
Proof.
  unfold pe_code_row. now rewrite length_map, length_seq.
Qed.

(** The inner loop, after [n] feature pairs of a row that started as
    zeros. *)
Lemma pe_row_filled (d : Z) (above below : mat) (h n : nat) :
  d = (2 * Z.of_nat h)%Z -> (n <= h)%nat ->
  foldM (pe_write_pair d (Z.of_nat (length above)))
        (map (fun k => (2 * Z.of_nat k)%Z) (seq 0 n))
        (above ++ repeat 0 (2 * h) :: below)
  = Ok (above ++ (pe_code_row d (Z.of_nat (length above)) (2 * n)
                  ++ repeat 0 (2 * h - 2 * n)) :: below).
Proof.
  intros Hd. induction n as [| n IH]; intros Hn.
  - cbn [seq map foldM]. now rewrite Nat.sub_0_r.
  - rewrite seq_S, map_app, foldM_app, IH by lia.
    cbn [rbind map foldM Nat.add].
    replace (2 * h - 2 * n)%nat with (S (S (2 * h - 2 * S n))) by lia.
    cbn [repeat]. unfold pe_write_pair.
    set (pos := Z.of_nat (length above)).
    set (row := pe_code_row d pos (2 * n)).
    assert (Hrow : length row = (2 * n)%nat) by apply length_pe_code_row.
    set (v1 := sin _). set (v2 := cos _).
    replace (2 * Z.of_nat n)%Z with (Z.of_nat (length row)) by lia.
    unfold pos at 1. rewrite tensor_set_at. cbn [rbind].
    change (row ++ v1 :: 0 :: repeat 0 (2 * h - 2 * S n))
      with (row ++ [v1] ++ 0 :: repeat 0 (2 * h - 2 * S n)).
    rewrite app_assoc.
    replace (Z.of_nat (length row) + 1)%Z with (Z.of_nat (length (row ++ [v1])))
      by (rewrite length_app; simpl; lia).
    unfold pos at 1. rewrite tensor_set_at. do 2 f_equal.
    replace (2 * S n)%nat with (S (S (2 * n))) by lia.
    rewrite !pe_code_row_S. fold row. rewrite <- !app_assoc. cbn [app].
    assert (E1 : pe_code_entry d pos (Z.of_nat (2 * n)) = v1).
    { unfold pe_code_entry, v1.
      replace (Z.even (Z.of_nat (2 * n))) with true.
      - do 5 f_equal. lia.
      - symmetry. apply Z.even_spec. exists (Z.of_nat n). lia. }
    assert (E2 : pe_code_entry d pos (Z.of_nat (S (2 * n))) = v2).
    { unfold pe_code_entry, v2.
      replace (Z.even (Z.of_nat (S (2 * n)))) with false.
      - do 5 f_equal. lia.
      - symmetry. rewrite <- Z.negb_odd. apply negb_false_iff.
        apply Z.odd_spec. exists (Z.of_nat n). lia. }
    now rewrite E1, E2.
Qed.

Lemma pe_table_filled (d : Z) (h m k : nat) :
  d = (2 * Z.of_nat h)%Z -> (k <= m)%nat ->
  foldM (fun pe pos =>
           let? features := py_range 0 d 2 in
           foldM (pe_write_pair d pos) features pe)
        (map Z.of_nat (seq 0 k)) (zeros m (2 * h))
  = Ok (map (fun pos => pe_code_row d (Z.of_nat pos) (2 * h)) (seq 0 k)
        ++ repeat (repeat 0 (2 * h)) (m - k)).
Proof.
  intros Hd. induction k as [| k IH]; intros Hk.
  - cbn [seq map foldM app]. now rewrite Nat.sub_0_r.
  - rewrite seq_S, !map_app, foldM_app, IH by lia.
    cbn [rbind map foldM Nat.add]. rewrite py_range_by_2. cbn [rbind].
    replace (Z.to_nat ((d + 1) / 2)) with h.
    2:{ replace ((d + 1) / 2)%Z with (Z.of_nat h); [lia |].
        subst d. apply Z.div_unique with (r := 1%Z); lia. }
    replace (m - k)%nat with (S (m - S k)) by lia. cbn [repeat].
    set (above := map _ (seq 0 k)).
    assert (Ha : length above = k)
      by (unfold above; now rewrite length_map, length_seq).
    rewrite <- Ha at 1 2.
    rewrite (pe_row_filled d above _ h h Hd (le_n h)).
    rewrite Nat.sub_diag, Ha. cbn [repeat]. rewrite app_nil_r.
    cbn [rbind]. unfold vec, mat in *. rewrite Ha, <- app_assoc. reflexivity.
Qed.

(** What the constructor computes.  For an even width and valid
    arguments construction succeeds, and column [j] of row [pos] holds the
    sine (even [j]) or cosine (odd [j]) of [pos / 10000^(2j/d_model)]. *)
Lemma PositionalEncoder_init_table (d_model max_seq_len : Z) (dropout : R) :
  0 <= dropout <= 1 -> (0 <= d_model)%Z -> Z.even d_model = true ->
  (0 <= max_seq_len)%Z ->
  PositionalEncoder_init d_model max_seq_len dropout
  = Ok (mkPE d_model (mkDropout dropout true)
             (pe_code_table d_model max_seq_len)).
Proof.
  intros Hp Hd He Hm. unfold PositionalEncoder_init.
  rewrite nn_Dropout_ok, torch_zeros_ok, py_range_up by (auto; lia).
  cbn [rbind].
  apply Z.even_spec in He as [h' Hh].
  assert (Hd2 : d_model = (2 * Z.of_nat (Z.to_nat h'))%Z) by lia.
  replace (Z.to_nat d_model) with (2 * Z.to_nat h')%nat by lia.
  rewrite (pe_table_filled d_model (Z.to_nat h') (Z.to_nat max_seq_len)
                           (Z.to_nat max_seq_len) Hd2 (le_n _)).
  cbn [rbind]. rewrite Nat.sub_diag. cbn [repeat]. rewrite app_nil_r.
  unfold pe_code_table.
  now replace (Z.to_nat d_model) with (2 * Z.to_nat h')%nat by lia.
Qed.

(** *** Divergence from the specified formula *)

Lemma Rpower_10000_half : Rpower 10000 (2 / 4) = 100.
Proof.
  replace (2 / 4) with (/ 2) by lra.
  rewrite Rpower_sqrt by lra.
  replace 10000 with (100 * 100) by lra.
  apply sqrt_square. lra.
Qed.

Lemma Rpower_10000_one : Rpower 10000 (4 / 4) = 10000.
Proof.
  replace (4 / 4) with 1 by lra. apply Rpower_1. lra.
Qed.

Lemma Rpower_10000_zero : Rpower 10000 (0 / 4) = 1.
Proof.
  replace (0 / 4) with 0 by lra. apply Rpower_O. lra.
Qed.

(** C3.  For [d_model = 4] the row of position 1 is computed with the
    exponents 0/4, 2/4, 4/4, 6/4: the loop variable, which already
    advances by two, is doubled again, and the cosine uses the exponent
    of its own column.  The specification has 0/4, 0/4, 2/4, 2/4; the
    entries of columns 1 and 2 differ from it. *)
Theorem PositionalEncoder_init_exponents :
  exists pe : PositionalEncoder,
    PositionalEncoder_init 4 2 (1 / 10) = Ok pe
    /\ nth 1 (pe_buffer pe) [] =
       [sin (1 / Rpower 10000 (0 / 4)); cos (1 / Rpower 10000 (2 / 4));
        sin (1 / Rpower 10000 (4 / 4)); cos (1 / Rpower 10000 (6 / 4))]
    /\ map (pe_spec_entry 4 1) [0; 1; 2; 3]%Z =
       [sin (1 / Rpower 10000 (0 / 4)); cos (1 / Rpower 10000 (0 / 4));
        sin (1 / Rpower 10000 (2 / 4)); cos (1 / Rpower 10000 (2 / 4))]
    /\ nth 1 (nth 1 (pe_buffer pe) []) 0 <> pe_spec_entry 4 1 1
    /\ nth 2 (nth 1 (pe_buffer pe) []) 0 <> pe_spec_entry 4 1 2.
Proof.
  eexists. split.
  { unfold PositionalEncoder_init. rewrite nn_Dropout_ok by lra.
    simpl. reflexivity. }
  assert (Hpi : 2 < PI) by (pose proof PI2_1; lra).
  split; [reflexivity |]. split; [reflexivity |].
  unfold pe_spec_entry. simpl.
  rewrite Rpower_10000_half, Rpower_10000_one, Rpower_10000_zero.
  split.
  - apply Rgt_not_eq. replace (1 / 1) with 1 by lra.
    apply cos_decreasing_1; lra.
  - apply Rlt_not_eq. apply sin_increasing_1; lra.
Qed.

(** ** The learning-rate scheduler *)

(** C6. On the first query, with the scheduler not yet initialized,
    [get_lr] returns the base learning rates as they are and the only
    change of state is that the scheduler is now initialized. *)
Theorem get_lr_first_call (s : CosineWithRestarts) :
  _initialized s = false ->
  exists s' : CosineWithRestarts,
    get_lr s = Ok (base_lrs s, s')
    /\ _initialized s' = true
    /\ T_max s' = T_max s /\ eta_min s' = eta_min s /\ factor s' = factor s
    /\ _last_restart s' = _last_restart s
    /\ _cycle_counter s' = _cycle_counter s
    /\ _cycle_factor s' = _cycle_factor s
    /\ _updated_cycle_len s' = _updated_cycle_len s
    /\ base_lrs s' = base_lrs s /\ last_epoch s' = last_epoch s.
Proof.
  intros H. unfold get_lr. rewrite H. cbn [negb].
  eexists. split; [reflexivity |]. cbn. repeat split.
Qed.

Lemma get_lr_first_call_witness :
  exists s' : CosineWithRestarts,
    get_lr (CosineWithRestarts_init 10 0 (-1) 1 [1 / 1000]) = Ok ([1 / 1000], s')
    /\ _initialized s' = true.
Proof.
  destruct (get_lr_first_call (CosineWithRestarts_init 10 0 (-1) 1 [1 / 1000])
                              eq_refl) as [s' [E [Hi _]]].
  exists s'. split; [exact E | exact Hi].
Defined.

Lemma py_int_IZR (z : Z) : py_int (IZR z) = z.
Proof.
  assert (H : forall k : Z, Int_part (IZR k) = k).
  { intros k. symmetry. apply Int_part_spec. lra. }
  unfold py_int. destruct (Rle_dec 0 (IZR z)).
  - apply H.
  - rewrite <- opp_IZR, H. lia.
Qed.

Lemma cosine_rate_0 (e : R) (l : Z) (lr : R) : cosine_rate e l 0 lr = lr.
Proof.
  unfold cosine_rate. replace (PI * 0 / IZR l) with 0 by (unfold Rdiv; ring).
  rewrite cos_0. lra.
Qed.

Lemma get_lr_steady (r0 : Z) (s : CosineWithRestarts) :
  steady r0 s ->
  exists s',
    get_lr s = Ok (map (cosine_rate (eta_min s) (T_max s)
                          ((last_epoch s + 1 - r0) mod T_max s))
                       (base_lrs s), s')
    /\ steady r0 s'
    /\ T_max s' = T_max s /\ eta_min s' = eta_min s
    /\ base_lrs s' = base_lrs s /\ last_epoch s' = last_epoch s.
Proof.
  intros (Hi & Hf & Hc & Hl & HT & Hr). unfold get_lr.
  rewrite Hi, Hl. cbn [negb].
  destruct (Z.eqb_spec (T_max s) 0) as [E | _]; [lia |].
  assert (Hmod : ((last_epoch s + 1 - _last_restart s) mod T_max s
                  = (last_epoch s + 1 - r0) mod T_max s)%Z).
  { rewrite Zminus_mod, Hr, <- Zminus_mod. reflexivity. }
  rewrite Hmod.
  destruct (Z.eqb_spec ((last_epoch s + 1 - r0) mod T_max s) 0) as [E0 | _].
  - eexists. split; [reflexivity |]. unfold steady. cbn.
    rewrite Hc, Hf. replace (1 * 1 * IZR (T_max s)) with (IZR (T_max s)) by ring.
    rewrite py_int_IZR. repeat split; try lra; try lia.
    pose proof (Z.div_mod (last_epoch s + 1 - r0) (T_max s)) as Hd.
    rewrite E0 in Hd.
    replace (last_epoch s + 1)%Z
      with (r0 + (last_epoch s + 1 - r0) / T_max s * T_max s)%Z by lia.
    apply Z.mod_add. lia.
  - eexists. split; [reflexivity |]. unfold steady. cbn. repeat split; auto.
Qed.

Lemma sched_step_steady (r0 : Z) (s : CosineWithRestarts) :
  steady r0 s ->
  exists s',
    sched_step s = Ok (map (cosine_rate (eta_min s) (T_max s)
                              ((last_epoch s + 2 - r0) mod T_max s))
                           (base_lrs s), s')
    /\ steady r0 s'
    /\ T_max s' = T_max s /\ eta_min s' = eta_min s
    /\ base_lrs s' = base_lrs s /\ last_epoch s' = (last_epoch s + 1)%Z.
Proof.
  intros H. unfold sched_step.
  set (s1 := mkCosineWithRestarts _ _ _ _ _ _ _ _ _ _).
  destruct (get_lr_steady r0 s1) as [s' [E H']]; [exact H |].
  exists s'. subst s1. cbn in E, H'. split; [| exact H'].
  rewrite E.
  now replace (last_epoch s + 1 + 1)%Z with (last_epoch s + 2)%Z by lia.
Qed.

Lemma sched_steps_steady (r0 : Z) (n : nat) (s : CosineWithRestarts) :
  steady r0 s ->
  exists s',
    sched_steps n s = Ok s'
    /\ steady r0 s'
    /\ T_max s' = T_max s /\ eta_min s' = eta_min s
    /\ base_lrs s' = base_lrs s /\ last_epoch s' = (last_epoch s + Z.of_nat n)%Z.
Proof.
  revert s. induction n as [| n IH]; intros s H.
  - exists s. cbn [sched_steps].
    split; [reflexivity | split; [exact H | repeat split; lia]].
  - destruct (sched_step_steady r0 s H) as [s1 [E1 (H1 & HT & He & Hb & Hl)]].
    cbn [sched_steps]. rewrite E1. cbn [rbind snd].
    destruct (IH s1 H1) as [s' [E' (H' & HT' & He' & Hb' & Hl')]].
    exists s'. split; [exact E' |]. split; [exact H' |].
    repeat split; try congruence. lia.
Qed.

(** With [factor = 1] every state of a run keeps the cycle length
    [T_max]. *)
Lemma get_lr_regular (s : CosineWithRestarts) (lrs : list R)
      (s' : CosineWithRestarts) :
  get_lr s = Ok (lrs, s') ->
  factor s = 1 -> _cycle_factor s = 1 -> _updated_cycle_len s = T_max s ->
  factor s' = 1 /\ _cycle_factor s' = 1 /\ _updated_cycle_len s' = T_max s'
  /\ T_max s' = T_max s /\ eta_min s' = eta_min s /\ base_lrs s' = base_lrs s.
Proof.
  intros E Hf Hc Hl. unfold get_lr in E.
  destruct (_initialized s); cbn [negb] in E.
  - destruct (_updated_cycle_len s =? 0)%Z; [discriminate |].
    destruct (_ =? 0)%Z; injection E as _ <-; cbn; repeat split; auto.
    + rewrite Hc, Hf. lra.
    + rewrite Hc, Hf.
      replace (1 * 1 * IZR (T_max s)) with (IZR (T_max s)) by ring.
      apply py_int_IZR.
  - injection E as _ <-. cbn. repeat split; auto.
Qed.

Lemma sched_run_regular (T : Z) (eta : R) (epoch : Z) (base : list R)
      (s : CosineWithRestarts) :
  sched_run (CosineWithRestarts_init T eta epoch 1 base) s ->
  factor s = 1 /\ _cycle_factor s = 1 /\ _updated_cycle_len s = T_max s
  /\ T_max s = T /\ eta_min s = eta /\ base_lrs s = base.
Proof.
  induction 1 as [| s lrs s' _ IH E | s lrs s' _ IH E].
  - cbn. repeat split.
  - destruct IH as (Hf & Hc & Hl & HT & He & Hb).
    destruct (get_lr_regular s lrs s' E Hf Hc Hl) as (? & ? & ? & ? & ? & ?).
    repeat split; congruence.
  - destruct IH as (Hf & Hc & Hl & HT & He & Hb).
    destruct (get_lr_regular _ lrs s' E Hf Hc Hl) as (? & ? & ? & ? & ? & ?).
    cbn in *. repeat split; congruence.
Qed.

(** C7. For the initialized scheduler with [factor = 1] (any state [s] of
    a run from construction with [T_max > 0], after the first query):
    each query computes [c = (step - last_restart) mod cycle_len] with
    [step = last_epoch + 1] and returns, per base rate [lr],
    [eta_min + ((lr - eta_min) / 2) * (cos (pi * c / cycle_len) + 1)];
    this stays so along any number of scheduler steps; and from a restart
    ([last_restart = step]) the [T_max]-th step returns the base rates
    again. *)
Theorem get_lr_cosine_cycle (T : Z) (eta : R) (epoch : Z) (base : list R)
        (s : CosineWithRestarts) :
  (0 < T)%Z ->
  sched_run (CosineWithRestarts_init T eta epoch 1 base) s ->
  _initialized s = true ->
  (exists s',
      get_lr s =
      Ok (map (fun lr =>
                 eta + ((lr - eta) / 2) *
                   (cos (PI * IZR ((last_epoch s + 1 - _last_restart s)
                                     mod _updated_cycle_len s)
                         / IZR (_updated_cycle_len s)) + 1))
              base, s'))
  /\ (forall n : nat,
         exists s1 s2,
           sched_steps n s = Ok s1
           /\ sched_step s1 =
              Ok (map (cosine_rate eta T
                         ((last_epoch s + 1 + Z.of_nat (S n) - _last_restart s)
                            mod T))
                      base, s2))
  /\ (_last_restart s = (last_epoch s + 1)%Z ->
      exists s1 s2,
        sched_steps (Z.to_nat T - 1) s = Ok s1
        /\ sched_step s1 = Ok (base, s2)).
Proof.
  intros HT Hrun Hi.
  destruct (sched_run_regular T eta epoch base s Hrun)
    as (Hf & Hc & Hl & HT' & He & Hb).
  rewrite <- HT' in HT.
  assert (Hs : steady (_last_restart s) s) by (repeat split; auto).
  assert (Hsteps : forall n : nat,
         exists s1 s2,
           sched_steps n s = Ok s1
           /\ sched_step s1 =
              Ok (map (cosine_rate eta T
                         ((last_epoch s + 1 + Z.of_nat (S n) - _last_restart s)
                            mod T))
                      base, s2)).
  { intros n.
    destruct (sched_steps_steady _ n s Hs) as [s1 [E1 (H1 & HT1 & He1 & Hb1 & Hl1)]].
    destruct (sched_step_steady _ s1 H1) as [s2 [E2 _]].
    exists s1, s2. split; [exact E1 |].
    rewrite E2, HT1, He1, Hb1, Hl1, HT', He, Hb.
    now replace (last_epoch s + Z.of_nat n + 2)%Z
      with (last_epoch s + 1 + Z.of_nat (S n))%Z by lia. }
  split; [| split].
  - destruct (get_lr_steady _ s Hs) as [s' [E _]].
    exists s'. rewrite E, Hl, He, Hb. reflexivity.
  - exact Hsteps.
  - intros Hr. destruct (Hsteps (Z.to_nat T - 1)%nat) as [s1 [s2 [E1 E2]]].
    exists s1, s2. split; [exact E1 |]. rewrite E2. f_equal. f_equal.
    replace (last_epoch s + 1 + Z.of_nat (S (Z.to_nat T - 1)) - _last_restart s)%Z
      with T by lia.
    rewrite Z.mod_same by lia.
    rewrite <- (map_id base) at 2.
    apply map_ext. intros lr. apply cosine_rate_0.
Qed.

(** A scheduler built with [T_max = 4] and [last_epoch = -1], after its
    first query: the fourth step returns the base rate. *)
Lemma get_lr_cosine_cycle_witness :
  get_lr (CosineWithRestarts_init 4 0 (-1) 1 [1 / 1000])
  = Ok ([1 / 1000], mkCosineWithRestarts 4 0 1 0 0 1 4 true [1 / 1000] (-1))
  /\ exists s1 s2 : CosineWithRestarts,
      sched_steps 3 (mkCosineWithRestarts 4 0 1 0 0 1 4 true [1 / 1000] (-1))
      = Ok s1
      /\ sched_step s1 = Ok ([1 / 1000], s2).
Proof.
  split; [reflexivity |].
  exact (proj2 (proj2 (get_lr_cosine_cycle
                         4 0 (-1) [1 / 1000]
                         (mkCosineWithRestarts 4 0 1 0 0 1 4 true [1 / 1000] (-1))
                         eq_refl
                         (run_query _ (CosineWithRestarts_init 4 0 (-1) 1 [1 / 1000])
                                    [1 / 1000] _ (run_start _) eq_refl)
                         eq_refl))
               eq_refl).
Defined.

Local Open Scope Z_scope.

(** ** The dataset *)

Lemma length_py_slice {A : Type} (l : list A) (i j : Z) :
  Z.of_nat (length (py_slice l i j)) =
  Z.max 0 (Z.min (slice_bound (length l) j - slice_bound (length l) i)
                 (Z.of_nat (length l) - Z.max 0 (slice_bound (length l) i))).
Proof.
  unfold py_slice. rewrite length_firstn, length_skipn. lia.
Qed.

Lemma WikiDataset_init_pos (tokens : list Z) (bs : Z) :
  0 < bs ->
  WikiDataset_init tokens bs =
  Ok (mkWikiDataset bs
        (map (fun k => py_slice tokens (Z.of_nat k * bs) (Z.of_nat k * bs + bs + 1))
             (seq 0 (Z.to_nat ((Z.of_nat (length tokens) + bs - 1) / bs))))).
Proof.
  intros Hbs. unfold WikiDataset_init, py_range.
  destruct (Z.eqb_spec bs 0); [lia |].
  destruct (Z.ltb_spec 0 bs); [| lia].
  cbn [rbind]. rewrite map_map, Z.sub_0_r. reflexivity.
Qed.

(** C4, as stated, fails: five tokens in blocks of three give a second
    example whose input and target hold one token each. *)
Lemma WikiDataset_short_last_block :
  exists ds : WikiDataset,
    WikiDataset_init [1; 2; 3; 4; 5] 3 = Ok ds
    /\ WikiDataset_getitem ds 1 = Ok ([4], [5])
    /\ length [4] <> Z.to_nat 3.
Proof.
  eexists. split; [reflexivity |]. split; [reflexivity |]. discriminate.
Qed.

Lemma nth_map_seq {A : Type} (f : nat -> A) (c k : nat) (d : A) :
  (k < c)%nat -> nth k (map f (seq 0 c)) d = f k.
Proof.
  intros H. rewrite (nth_indep _ d (f 0%nat)) by now rewrite length_map, length_seq.
  rewrite map_nth, seq_nth by exact H. reflexivity.
Qed.

(** The example made from the block that starts at token
    [k * block_size]. *)
Lemma WikiDataset_block_lengths (tokens : list Z) (bs : Z) (k : nat) :
  0 < bs -> Z.of_nat k * bs < Z.of_nat (length tokens) ->
  exists (ds : WikiDataset) (input_text target_text : list Z),
    WikiDataset_init tokens bs = Ok ds
    /\ WikiDataset_getitem ds (Z.of_nat k) = Ok (input_text, target_text)
    /\ length input_text = length target_text
    /\ Z.of_nat (length input_text) =
       Z.min bs (Z.of_nat (length tokens) - Z.of_nat k * bs - 1).
Proof.
  intros Hbs Hk. rewrite WikiDataset_init_pos by exact Hbs.
  set (n := Z.of_nat (length tokens)) in *.
  assert (Hcount : Z.of_nat k < (n + bs - 1) / bs).
  { assert (Z.of_nat k + 1 <= (n + bs - 1) / bs); [| lia].
    apply Z.div_le_lower_bound; [lia | nia]. }
  do 3 eexists. split; [reflexivity |].
  unfold WikiDataset_getitem. cbn [data].
  rewrite length_map, length_seq, norm_index_in by lia.
  cbn [rbind]. rewrite Nat2Z.id, nth_map_seq by lia.
  split; [reflexivity |].
  set (block := py_slice tokens (Z.of_nat k * bs) (Z.of_nat k * bs + bs + 1)).
  assert (Hblock : Z.of_nat (length block) = Z.min (bs + 1) (n - Z.of_nat k * bs)).
  { unfold block. rewrite length_py_slice. unfold slice_bound. fold n.
    destruct (Z.ltb_spec (Z.of_nat k * bs) 0),
             (Z.ltb_spec (Z.of_nat k * bs + bs + 1) 0); lia. }
  assert (Hin : Z.of_nat (length (py_slice block 0 (-1)))
                = Z.of_nat (length block) - 1).
  { rewrite length_py_slice. unfold slice_bound. cbn [Z.ltb Z.compare]. lia. }
  assert (Hout : Z.of_nat (length (py_slice block 1 (Z.of_nat (length block))))
                 = Z.of_nat (length block) - 1).
  { rewrite length_py_slice. unfold slice_bound. cbn [Z.ltb Z.compare].
    destruct (Z.ltb_spec (Z.of_nat (length block)) 0); lia. }
  repeat split; lia.
Qed.

(** A block size of zero is refused, and a negative one gives no
    example. *)
Lemma WikiDataset_init_nonpositive (tokens : list Z) (bs : Z) :
  (bs = 0 -> WikiDataset_init tokens bs = Raise ValueError)
  /\ (bs < 0 -> WikiDataset_init tokens bs = Ok (mkWikiDataset bs [])).
Proof.
  unfold WikiDataset_init, py_range. split; intros H.
  - subst bs. reflexivity.
  - destruct (Z.eqb_spec bs 0); [lia |].
    destruct (Z.ltb_spec 0 bs); [lia |].
    cbn [rbind].
    replace (Z.to_nat ((0 - Z.of_nat (length tokens) - bs - 1) / - bs)) with 0%nat;
      [reflexivity |].
    assert ((0 - Z.of_nat (length tokens) - bs - 1) / - bs <= 0); [| lia].
    apply Z.lt_succ_r, Z.div_lt_upper_bound; lia.
Qed.

(** C4, amended.  Every example [k] of a data set has an input and a
    target of the same length, [min block_size (len - k * block_size -
    1)]: that is [block_size] when the block is followed by at least one
    more token, and less for a shorter last block. *)
Theorem WikiDataset_example_lengths
        (tokens : list Z) (bs : Z) (ds : WikiDataset) (k : nat) :
  WikiDataset_init tokens bs = Ok ds ->
  (k < WikiDataset_len ds)%nat ->
  exists input_text target_text : list Z,
    WikiDataset_getitem ds (Z.of_nat k) = Ok (input_text, target_text)
    /\ length input_text = length target_text
    /\ Z.of_nat (length input_text) =
       Z.min bs (Z.of_nat (length tokens) - Z.of_nat k * bs - 1)
    /\ Z.of_nat (length input_text) <= bs
    /\ (Z.of_nat k * bs + bs + 1 <= Z.of_nat (length tokens) ->
        Z.of_nat (length input_text) = bs).
Proof.
  intros Hinit Hk.
  destruct (WikiDataset_init_nonpositive tokens bs) as [H0 Hneg].
  destruct (Z.lt_trichotomy bs 0) as [Hbs | [Hbs | Hbs]].
  - rewrite (Hneg Hbs) in Hinit. injection Hinit as <-.
    cbn in Hk. lia.
  - rewrite (H0 Hbs) in Hinit. discriminate.
  - assert (Hstart : Z.of_nat k * bs < Z.of_nat (length tokens)).
    { rewrite WikiDataset_init_pos in Hinit by exact Hbs.
      injection Hinit as <-. unfold WikiDataset_len in Hk. cbn [data] in Hk.
      rewrite length_map, length_seq in Hk.
      pose proof (Z.mul_div_le (Z.of_nat (length tokens) + bs - 1) bs Hbs).
      nia. }
    destruct (WikiDataset_block_lengths tokens bs k Hbs Hstart)
      as (ds' & i & t & Hi & Hg & Hl & Hmin).
    rewrite Hinit in Hi. injection Hi as <-.
    exists i, t. repeat split; auto; lia.
Qed.

Lemma WikiDataset_example_lengths_witness :
  exists input_text target_text : list Z,
    WikiDataset_getitem
      (mkWikiDataset 3 [[1; 2; 3; 4]; [4; 5]]) 1 = Ok (input_text, target_text)
    /\ length input_text = length target_text.
Proof.
  destruct (WikiDataset_example_lengths
              [1; 2; 3; 4; 5] 3 (mkWikiDataset 3 [[1; 2; 3; 4]; [4; 5]]) 1
              eq_refl (le_n 2))
    as (i & t & Hg & Hl & _).
  exists i, t. split; [exact Hg | exact Hl].
Defined.

Local Close Scope Z_scope.

(** ** Padding and the loss *)

Lemma ce_terms_app (ign : Z) (a b : mat) (c d : list Z) :
  length a = length c ->
  ce_terms ign (a ++ b) (c ++ d) =
  (let? u := ce_terms ign a c in
   let? v := ce_terms ign b d in
   Ok (u ++ v)).
Proof.
  revert c. induction a as [| x a IH]; intros [| t c] H; simpl in H;
    try discriminate.
  - simpl. destruct (ce_terms ign b d); reflexivity.
  - injection H as H. simpl. destruct (Z.eqb_spec t ign).
    + now apply IH.
    + destruct (nll_entry x t) as [v |]; cbn [rbind]; [| reflexivity].
      rewrite IH by exact H.
      destruct (ce_terms ign a c) as [u |]; cbn [rbind]; [| reflexivity].
      destruct (ce_terms ign b d); reflexivity.
Qed.

Lemma ce_terms_ignored (ign : Z) (e : mat) (k : nat) :
  ce_terms ign e (repeat ign k) = Ok [].
Proof.
  revert e. induction k as [| k IH]; intros [| x e]; simpl; try reflexivity.
  rewrite Z.eqb_refl. apply IH.
Qed.



Lemma collate_fn_targets (batch : list (list Z * list Z))
      (inputs targets : list (list Z)) :
  collate_fn batch = Ok (inputs, targets) ->
  inputs = pad_sequence (map fst batch) 0
  /\ targets = pad_sequence (map snd batch) (ignore_index loss_fn).
Proof.
  destruct batch as [| b batch]; [discriminate |].
  intros H. injection H as <- <-. split; reflexivity.
Qed.



(** ** Evaluation *)

Lemma for_each_losses {A : Type} (f : A -> M xfloat) (l : list A) :
  forall (total : xfloat) (g : Generator),
    for_each (fun total x => loss <- f x ;; ret (xadd total loss)) l total g
    = (losses <- mapM f l ;; ret (fold_left xadd losses total)) g.
Proof.
  induction l as [| x l IH]; intros total g; [reflexivity |].
  cbn [for_each mapM]. rewrite !bind_assoc.
  apply bind_ext. intros loss g1.
  unfold bind at 1. cbn [ret]. rewrite IH.
  rewrite !bind_assoc. apply bind_ext. intros losses g2. reflexivity.
Qed.

Lemma Transformer_train_parameters (mode : bool) (m : Transformer) :
  Transformer_parameters (Transformer_train mode m) = Transformer_parameters m.
Proof.
  unfold Transformer_parameters, Decoder_parameters. cbn.
  do 3 f_equal. rewrite flat_map_concat_map, map_map, <- flat_map_concat_map.
  reflexivity.
Qed.

(** C9, as stated, fails on a data loader without batches: the average
    divides by the number of batches. *)
Lemma validate_no_batch :
  validate tiny_model [] loss_fn (fun _ => true) = Raise ZeroDivisionError
  /\ test tiny_model [] loss_fn (fun _ => true) = Raise ZeroDivisionError.
Proof.
  split; reflexivity.
Qed.

(** C9, amended.  On a data loader with at least one batch, [validate]
    (and [test], which is the same code) puts the model in evaluation
    mode, runs on every batch the forward-and-loss computation that the
    training loop runs ([forward_loss]: causal mask of the batch's
    length, forward pass, cross-entropy on the flattened positions), and
    returns the average of the batch losses with its exponential as
    perplexity.  No parameter of the model changes.  One epoch of
    training on a batch computes the same [forward_loss], in training
    mode, and then updates the parameters. *)
Theorem validate_contract (model : Transformer) (dataloader : list Batch)
        (g : Generator) :
  dataloader <> [] ->
  let eval_model := Transformer_train false model in
  let mean losses := xdiv (fold_left xadd losses (Fin 0)) (length dataloader) in
  validate model dataloader loss_fn g =
    (losses <- mapM (forward_loss eval_model loss_fn) dataloader ;;
     ret (mean losses, xexp (mean losses), eval_model)) g
  /\ test model dataloader loss_fn g = validate model dataloader loss_fn g
  /\ (forall (losses : list xfloat) (g' : Generator),
         mapM (forward_loss eval_model loss_fn) dataloader g = Ok (losses, g') ->
         validate model dataloader loss_fn g =
         Ok (mean losses, xexp (mean losses), eval_model, g'))
  /\ Transformer_parameters eval_model = Transformer_parameters model
  /\ (forall (Optimizer : Type)
             (backward_step : Transformer -> Optimizer -> Batch -> Generator ->
                              Transformer * Optimizer)
             (optimizer : Optimizer) (batch : Batch),
         train_epoch Optimizer backward_step model optimizer [batch] loss_fn g =
         (loss <- forward_loss (Transformer_train true model) loss_fn batch ;;
          let avg_tl := xdiv (xadd (Fin 0) loss) 1 in
          ret (avg_tl, xexp avg_tl,
               fst (backward_step (Transformer_train true model) optimizer batch g),
               snd (backward_step (Transformer_train true model) optimizer batch g)))
           g).
Proof.
  intros Hne eval_model mean.
  assert (Hv : validate model dataloader loss_fn g =
               (losses <- mapM (forward_loss eval_model loss_fn) dataloader ;;
                ret (mean losses, xexp (mean losses), eval_model)) g).
  { unfold validate. fold eval_model.
    unfold bind at 1. rewrite for_each_losses.
    unfold bind. destruct (mapM _ dataloader g) as [[losses g'] | e];
      [| reflexivity].
    cbn [ret]. destruct dataloader; [contradiction | reflexivity]. }
  split; [exact Hv |]. split; [reflexivity |]. split; [| split].
  - intros losses g' E. rewrite Hv. unfold bind. now rewrite E.
  - apply Transformer_train_parameters.
  - intros Optimizer backward_step optimizer batch.
    unfold train_epoch. cbn [for_each]. unfold bind, get_generator, ret.
    destruct (forward_loss _ loss_fn batch g) as [[loss g'] | e]; [| reflexivity].
    destruct (backward_step _ optimizer batch g) as [m' o']. reflexivity.
Qed.

(** The tiny model on one batch of one token: both logits are zero, the
    loss is [ln 2] and the perplexity is 2. *)
Lemma tiny_model_forward (g : Generator) :
  Transformer_forward (Transformer_train false tiny_model) [[0%Z]]
                      (Some (no_peak_mask 1)) g
  = Ok ([[[0; 0]]], g).
Proof.
  assert (Hpe : PositionalEncoder_forward
            (PositionalEncoder_train false
               (mkPE 2 eval_dropout [[0; 1]; [0; 1]])) [[[1; 0]]] g
          = Ok ([[[1 * sqrt 2 + 0; 0 * sqrt 2 + 1]]], g)) by reflexivity.
  unfold Transformer_forward, Decoder_forward.
  cbn -[DecoderLayer_forward DecoderLayer_train Norm_vec no_peak_mask
        Linear_forward PositionalEncoder_forward].
  change (DecoderLayer_train false two_norm_layer) with two_norm_layer.
  rewrite bind_assoc. unfold bind at 1. cbn [ret].
  rewrite bind_assoc, (bind_Ok _ _ _ _ _ Hpe).
  rewrite !bind_assoc, (bind_Ok _ _ _ _ _ (two_norm_layer_forward _ _ g)).
  cbn [bind ret]. unfold Norm_forward. cbn [map].
  rewrite (Norm_vec_alpha0 _ 0 0) by reflexivity.
  cbn. unfold ret. repeat f_equal; ring.
Qed.

Lemma tiny_model_loss (g : Generator) :
  forward_loss (Transformer_train false tiny_model) loss_fn
               ([[0%Z]], [[1%Z]]) g
  = Ok (Fin (ln 2), g).
Proof.
  unfold forward_loss. cbn [fst snd hd length].
  rewrite (bind_Ok _ _ _ _ _ (tiny_model_forward g)).
  simpl. unfold ret. repeat f_equal.
  rewrite exp_0. replace (1 / (1 + (1 + 0))) with (/ 2) by lra.
  rewrite ln_Rinv by lra. lra.
Qed.

Lemma validate_contract_witness :
  validate tiny_model [([[0%Z]], [[1%Z]])] loss_fn (fun _ => true)
  = Ok (Fin (ln 2), Fin 2, Transformer_train false tiny_model, fun _ => true).
Proof.
  assert (Hne : [([[0%Z]], [[1%Z]])] <> @nil Batch) by discriminate.
  rewrite (proj1 (proj2 (proj2 (validate_contract
                                  tiny_model [([[0%Z]], [[1%Z]])]
                                  (fun _ => true) Hne)))
                 [Fin (ln 2)] (fun _ => true)).
  - cbn [fold_left xadd xdiv xexp length INR].
    replace ((0 + ln 2) / 1) with (ln 2) by lra.
    rewrite exp_ln by lra. reflexivity.
  - cbn [mapM]. now rewrite (bind_Ok _ _ _ _ _ (tiny_model_loss _)).
Defined.

(** * Further properties of the code *)

(** ** The embedding lookup *)

Lemma sequence_map_all {A B : Type} (f : A -> Result B) (g : A -> B) (l : list A) :
  (forall x, In x l -> f x = Ok (g x)) -> sequence (map f l) = Ok (map g l).
Proof.
  induction l as [| x l IH]; intros H; simpl; [reflexivity |].
  rewrite (H x (or_introl eq_refl)), IH; [reflexivity |].
  intros y Hy. apply H. now right.
Qed.





(** ** The positional encoder's forward pass *)

Lemma map2_firstn_r {A B C : Type} (f : A -> B -> C) (l : list A) (l' : list B) :
  map2 f l (firstn (length l) l') = map2 f l l'.
Proof.
  revert l'. induction l as [| x l IH]; intros [| y l']; simpl;
    [reflexivity | reflexivity | reflexivity | now rewrite IH].
Qed.

Lemma map2_map_l {A A' B C : Type} (f : A' -> B -> C) (h : A -> A')
      (l : list A) (l' : list B) :
  map2 f (map h l) l' = map2 (fun a b => f (h a) b) l l'.
Proof.
  revert l'. induction l as [| x l IH]; intros [| y l']; simpl;
    [reflexivity | reflexivity | reflexivity | now rewrite IH].
Qed.

Lemma broadcast_pair_refused {A B : Type} (l : list A) (l' : list B) :
  length l <> length l' -> length l <> 1%nat -> length l' <> 1%nat ->
  broadcast_pair l l' = Raise RuntimeError.
Proof.
  intros Hne H1 H1'. unfold broadcast_pair.
  destruct (Nat.eqb_spec (length l) (length l')); [contradiction |].
  destruct l as [| a [| b l]]; destruct l' as [| a' [| b' l']];
    simpl in *; solve [reflexivity | contradiction | lia].
Qed.

(** X3. [PositionalEncoder.forward] on a batch of sequences of length
    [L], with features as wide as the table. When the table has at least
    [L] rows, in evaluation mode, every token is scaled by [sqrt
    d_model] and row [t] of the table is added at position [t]. When the
    table has fewer than [L] rows (and neither number is one), the
    addition cannot be broadcast and the call raises [RuntimeError]. A
    table of a single row is added at every position. *)
Theorem PositionalEncoder_forward_lengths
        (p : PositionalEncoder) (x : tensor3) (L W : nat) (g : Generator) :
  x <> [] -> Forall (fun xb => length xb = L) x ->
  Forall (Forall (fun row : vec => length row = W)) x ->
  Forall (fun pe_row : vec => length pe_row = W) (pe_buffer p) ->
  ((L <= length (pe_buffer p))%nat -> drop_training (pe_dropout p) = false ->
   PositionalEncoder_forward p x g =
   Ok (map (fun xb =>
              map2 (fun row pe_row =>
                      map2 Rplus (map (fun e => e * sqrt (IZR (pe_d_model p))) row)
                           pe_row)
                   xb (pe_buffer p))
           x, g))
  /\ ((length (pe_buffer p) < L)%nat -> length (pe_buffer p) <> 1%nat ->
      L <> 1%nat ->
      PositionalEncoder_forward p x g = Raise RuntimeError)
  /\ (forall pe_row : vec,
         pe_buffer p = [pe_row] -> (1 < L)%nat ->
         drop_training (pe_dropout p) = false ->
         PositionalEncoder_forward p x g =
         Ok (map (map (fun row =>
                         map2 Rplus
                              (map (fun e => e * sqrt (IZR (pe_d_model p))) row)
                              pe_row))
                 x, g)).
Proof.
  intros Hne Hx _ _.
  set (scaled := map (map (map (fun e => e * sqrt (IZR (pe_d_model p))))) x).
  assert (Hlen : length (hd [] scaled) = L).
  { unfold scaled. destruct x as [| xb x']; [contradiction |].
    cbn [map hd]. rewrite length_map. now inversion Hx. }
  split; [| split].
  - intros HL Heval. unfold PositionalEncoder_forward. fold scaled.
    rewrite Hlen. unfold add_positional.
    rewrite (sequence_map_all _
               (fun xb => map2 (map2 Rplus) xb (pe_buffer p))).
    + cbn [lift]. unfold bind, ret, Dropout_forward. rewrite Heval.
      unfold ret. do 2 f_equal. unfold scaled. rewrite map_map.
      apply map_ext. intros xb. now rewrite map2_map_l.
    + intros xb Hin. unfold scaled in Hin.
      apply in_map_iff in Hin as [xb0 [<- Hin0]].
      rewrite Forall_forall in Hx. specialize (Hx xb0 Hin0).
      rewrite broadcast_pair_same
        by (rewrite length_map, length_firstn; lia).
      rewrite (map_combine_map2 (map2 Rplus)).
      rewrite <- Hx, <- (length_map (map (fun e => e * sqrt (IZR (pe_d_model p))))).
      now rewrite map2_firstn_r.
  - intros HL H1 HL1. unfold PositionalEncoder_forward. fold scaled.
    rewrite Hlen. unfold add_positional.
    destruct x as [| xb x']; [contradiction |].
    unfold scaled. cbn [map sequence].
    rewrite broadcast_pair_refused; [reflexivity | | |];
      rewrite ?length_map, ?length_firstn; inversion Hx; subst; lia.
  - intros pe_row Hbuf HL Heval. unfold PositionalEncoder_forward. fold scaled.
    rewrite Hlen, Hbuf. unfold add_positional.
    assert (Hfirst : @firstn (list R) L [pe_row] = [pe_row])
      by (destruct L as [| [| L']]; [lia | lia | reflexivity]).
    rewrite Hfirst.
    rewrite (sequence_map_all _ (map (fun row => map2 Rplus row pe_row))).
    + cbn [lift]. unfold bind, ret, Dropout_forward. rewrite Heval.
      unfold ret. do 2 f_equal. unfold scaled. rewrite map_map.
      apply map_ext. intros xb. rewrite map_map. reflexivity.
    + intros xb Hin. unfold scaled in Hin.
      apply in_map_iff in Hin as [xb0 [<- Hin0]].
      rewrite Forall_forall in Hx. specialize (Hx xb0 Hin0).
      unfold broadcast_pair. rewrite length_map, Hx. cbn [length].
      destruct (Nat.eqb_spec L 1); [lia |].
      destruct xb0 as [| a [| b xb0]]; simpl in Hx; try lia.
      cbn [map fst snd]. now rewrite map_map.
Qed.

Lemma PositionalEncoder_forward_lengths_witness :
  PositionalEncoder_forward (mkPE 2 eval_dropout [[0; 1]; [0; 1]]) [[[1; 0]]]
                            (fun _ => true)
  = Ok ([[[1 * sqrt 2 + 0; 0 * sqrt 2 + 1]]], fun _ => true).
Proof.
  refine (proj1 (PositionalEncoder_forward_lengths
                   (mkPE 2 eval_dropout [[0; 1]; [0; 1]]) [[[1; 0]]] 1 2
                   (fun _ => true) _ _ _ _) _ _).
  - discriminate.
  - repeat constructor.
  - repeat constructor.
  - repeat constructor.
  - simpl. lia.
  - reflexivity.
Defined.

(** ** [Norm] *)

Lemma map2_map_r {A B B' C : Type} (f : A -> B' -> C) (h : B -> B')
      (l : list A) (l' : list B) :
  map2 f l (map h l') = map2 (fun a b => f a (h b)) l l'.
Proof.
  revert l'. induction l as [| x l IH]; intros [| y l']; simpl;
    [reflexivity | reflexivity | reflexivity | now rewrite IH].
Qed.

Lemma map2_ext {A B C : Type} (f f' : A -> B -> C) (l : list A) (l' : list B) :
  (forall a b, f a b = f' a b) -> map2 f l l' = map2 f' l l'.
Proof.
  intros H. revert l'. induction l as [| x l IH]; intros [| y l']; simpl;
    [reflexivity | reflexivity | reflexivity | now rewrite H, IH].
Qed.

Lemma Rsum_map_shift (c : R) (x : vec) :
  Rsum (map (fun xi => xi + c) x) = Rsum x + INR (length x) * c.
Proof.
  induction x as [| a x IH]; [simpl; ring |].
  cbn [map Rsum fold_right length]. fold (Rsum (map (fun xi => xi + c) x)).
  fold (Rsum x). rewrite IH, S_INR. ring.
Qed.

Lemma mean_shift (c : R) (x : vec) :
  x <> [] -> mean (map (fun xi => xi + c) x) = mean x + c.
Proof.
  intros Hne. unfold mean. rewrite Rsum_map_shift, length_map.
  assert (INR (length x) <> 0).
  { apply not_0_INR. destruct x; [contradiction | discriminate]. }
  field. assumption.
Qed.

Lemma std_shift (c : R) (x : vec) :
  x <> [] -> std (map (fun xi => xi + c) x) = std x.
Proof.
  intros Hne. unfold std. rewrite mean_shift by exact Hne.
  rewrite map_map, length_map. do 3 f_equal.
  apply map_ext. intros a. ring.
Qed.

Lemma Norm_vec_shift (n : Norm) (c : R) (x : vec) :
  x <> [] -> Norm_vec n (map (fun xi => xi + c) x) = Norm_vec n x.
Proof.
  intros Hne. unfold Norm_vec.
  rewrite mean_shift, std_shift by exact Hne.
  rewrite map2_map_r. f_equal. apply map2_ext. intros a b.
  f_equal. f_equal. ring.
Qed.

(** X5. Adding the same constant to every feature of a token changes
    nothing: the mean is subtracted and the deviation is unchanged.
    (With at least two features and a positive [eps] the deviation is
    defined and the division is by a positive number.) *)
Theorem Norm_vec_shift_invariant (n : Norm) (c : R) (x : vec) :
  (2 <= length x)%nat -> 0 < norm_eps n ->
  Norm_vec n (map (fun xi => xi + c) x) = Norm_vec n x.
Proof.
  intros Hlen _. apply Norm_vec_shift.
  destruct x; [simpl in Hlen; lia | discriminate].
Qed.

Lemma Norm_vec_shift_invariant_witness :
  Norm_vec (mkNorm 2 [1; 1] [0; 0] 1e-6) (map (fun xi => xi + 5) [1; 3])
  = Norm_vec (mkNorm 2 [1; 1] [0; 0] 1e-6) [1; 3].
Proof.
  apply Norm_vec_shift_invariant; [simpl; lia | simpl; lra].
Defined.

Lemma map2_repeat_l {A B C : Type} (f : A -> B -> C) (a : A) (l : list B) :
  map2 f (repeat a (length l)) l = map (f a) l.
Proof.
  induction l as [| y l IH]; simpl; [reflexivity | now rewrite IH].
Qed.

Lemma map2_repeat_r {A B C : Type} (f : A -> B -> C) (b : B) (l : list A) :
  map2 f l (repeat b (length l)) = map (fun a => f a b) l.
Proof.
  induction l as [| y l IH]; simpl; [reflexivity | now rewrite IH].
Qed.

Lemma Rsum_map_affine (a m s b : R) (x : vec) :
  Rsum (map (fun xi => a * (xi - m) / s + b) x)
  = a * (Rsum x - INR (length x) * m) / s + INR (length x) * b.
Proof.
  induction x as [| y x IH]; [simpl; unfold Rdiv; ring |].
  cbn [map Rsum fold_right length].
  fold (Rsum (map (fun xi => a * (xi - m) / s + b) x)). fold (Rsum x).
  rewrite IH, S_INR. unfold Rdiv. ring.
Qed.

(** X4. A freshly constructed [Norm] (of at least two features, with a
    positive [eps]) returns, for a vector of its size, a vector of that
    size whose entries sum to zero. *)
Theorem Norm_init_zero_mean (d_model : Z) (eps : R) (n : Norm) (x : vec) :
  Norm_init d_model eps = Ok n -> (2 <= d_model)%Z -> 0 < eps ->
  length x = Z.to_nat d_model ->
  length (Norm_vec n x) = length x /\ Rsum (Norm_vec n x) = 0.
Proof.
  intros Hinit _ _ Hlen. unfold Norm_init, torch_vector in Hinit.
  destruct (d_model <? 0)%Z; [discriminate |]. cbn [rbind] in Hinit.
  injection Hinit as <-.
  assert (E : Norm_vec (mkNorm (Z.to_nat d_model) (repeat 1 (Z.to_nat d_model))
                               (repeat 0 (Z.to_nat d_model)) eps) x
              = map (fun xi => 1 * (xi - mean x) / (std x + eps) + 0) x).
  { unfold Norm_vec. cbn [norm_alpha norm_bias norm_eps].
    rewrite <- Hlen, map2_repeat_l.
    rewrite <- (length_map (fun xi => 1 * (xi - mean x) / (std x + eps)) x).
    now rewrite map2_repeat_r, map_map. }
  rewrite E. split.
  - now rewrite length_map.
  - rewrite (Rsum_map_affine 1 (mean x) (std x + eps) 0).
    destruct x as [| y x]; [simpl; unfold Rdiv; ring |].
    unfold mean. set (k := INR (length (y :: x))).
    assert (Hk : k <> 0) by (apply not_0_INR; discriminate).
    replace (Rsum (y :: x) - k * (Rsum (y :: x) / k)) with 0 by (field; exact Hk).
    unfold Rdiv. ring.
Qed.

Lemma Norm_init_zero_mean_witness :
  length (Norm_vec (mkNorm 2 [1; 1] [0; 0] 1e-6) [1; 3]) = 2%nat
  /\ Rsum (Norm_vec (mkNorm 2 [1; 1] [0; 0] 1e-6) [1; 3]) = 0.
Proof.
  apply (Norm_init_zero_mean 2 1e-6 (mkNorm 2 [1; 1] [0; 0] 1e-6) [1; 3]);
    [reflexivity | lia | lra | reflexivity].
Defined.

(** ** Splitting into heads and merging back *)

Lemma firstn_add_skipn {A : Type} (a b : nat) (l : list A) :
  firstn (a + b) l = firstn a l ++ firstn b (skipn a l).
Proof.
  revert l. induction a as [| a IH]; intros l; [reflexivity |].
  destruct l as [| x l]; simpl.
  - now rewrite firstn_nil.
  - now rewrite IH.
Qed.

(** Consecutive chunks of width [d] put together give back the list. *)
Lemma concat_chunks {A : Type} (d h : nat) (l : list A) :
  concat (map (fun j => firstn d (skipn (j * d) l)) (seq 0 h)) = firstn (h * d) l.
Proof.
  induction h as [| h IH]; [reflexivity |].
  rewrite seq_S, map_app, concat_app, IH. cbn [map concat Nat.add].
  rewrite app_nil_r.
  replace (S h * d)%nat with (h * d + d)%nat by lia.
  now rewrite firstn_add_skipn.
Qed.

Lemma map_nth_seq {A : Type} (l : list A) (d : A) :
  map (fun t => nth t l d) (seq 0 (length l)) = l.
Proof.
  induction l as [| x l IH]; [reflexivity |].
  cbn [length seq map nth]. f_equal.
  rewrite <- seq_shift, map_map. exact IH.
Qed.

Lemma merge_heads_map (f : nat -> mat) (idx : list nat) (n : nat) :
  idx <> [] -> (forall j, length (f j) = n) ->
  merge_heads (map f idx)
  = map (fun t => concat (map (fun j => nth t (f j) []) idx)) (seq 0 n).
Proof.
  intros Hne Hlen. destruct idx as [| i idx]; [contradiction |].
  cbn [map merge_heads]. rewrite Hlen.
  apply map_ext. intros t. cbn [map]. now rewrite map_map.
Qed.

(** X8. Splitting into heads and merging back is the identity: for rows
    of width [h * d_k], [merge_heads] after [split_heads] returns the
    input; there are [h] heads, and each has one row of width [d_k] per
    position. *)
Theorem merge_split_heads (h d_k : nat) (x : mat) :
  (0 < h)%nat -> Forall (fun row => length row = (h * d_k)%nat) x ->
  merge_heads (split_heads h d_k x) = x
  /\ length (split_heads h d_k x) = h
  /\ Forall (fun head => length head = length x
                         /\ Forall (fun row => length row = d_k) head)
            (split_heads h d_k x).
Proof.
  intros Hh Hx. split; [| split].
  - unfold split_heads.
    rewrite (merge_heads_map _ _ (length x));
      [| destruct h; [lia | discriminate] | intros j; apply length_map].
    transitivity (map (fun t => nth t x []) (seq 0 (length x)));
      [| apply map_nth_seq].
    apply map_ext_in. intros t Ht. apply in_seq in Ht.
    rewrite (map_ext_in _ (fun j => firstn d_k (skipn (j * d_k) (nth t x [])))).
    + rewrite concat_chunks. apply firstn_all2.
      rewrite Forall_forall in Hx. rewrite (Hx (nth t x [])); [lia |].
      apply nth_In. lia.
    + intros j _.
      rewrite (nth_indep _ [] (firstn d_k (skipn (j * d_k) [])))
        by (rewrite length_map; lia).
      now rewrite (map_nth (fun row => firstn d_k (skipn (j * d_k) row))).
  - unfold split_heads. now rewrite length_map, length_seq.
  - unfold split_heads. apply Forall_forall. intros head Hin.
    apply in_map_iff in Hin as [j [<- Hj]]. apply in_seq in Hj.
    split; [now rewrite length_map |].
    apply Forall_forall. intros row Hrow.
    apply in_map_iff in Hrow as [r [<- Hr]].
    rewrite Forall_forall in Hx. specialize (Hx r Hr).
    rewrite length_firstn, length_skipn, Hx. nia.
Qed.

Lemma merge_split_heads_witness :
  merge_heads (split_heads 2 1 [[1; 2]; [3; 4]]) = [[1; 2]; [3; 4]].
Proof.
  apply (merge_split_heads 2 1 [[1; 2]; [3; 4]]).
  - lia.
  - repeat constructor.
Defined.

(** ** The stack of decoder layers *)

Lemma skipn_nth_error {A : Type} (l : list A) (i : nat) :
  (i < length l)%nat ->
  exists x, nth_error l i = Some x /\ skipn i l = x :: skipn (S i) l.
Proof.
  revert i. induction l as [| y l IH]; intros i Hi; [simpl in Hi; lia |].
  destruct i as [| i]; [exists y; split; reflexivity |].
  destruct (IH i) as [x [E1 E2]]; [simpl in Hi; lia |].
  exists x. split; [exact E1 | exact E2].
Qed.

Lemma Decoder_layers_from (layers : list DecoderLayer) (mask : option xmat)
      (n : nat) :
  forall (i : nat) (x : tensor3) (g : Generator),
    (i <= length layers)%nat ->
    Decoder_layers layers (seq i n) x mask g =
    if (i + n <=? length layers)%nat
    then run_layers (firstn n (skipn i layers)) x mask g
    else (y <- run_layers (skipn i layers) x mask ;; raise IndexError) g.
Proof.
  induction n as [| n IH]; intros i x g Hi.
  - rewrite Nat.add_0_r. destruct (Nat.leb_spec i (length layers)); [| lia].
    reflexivity.
  - cbn [seq Decoder_layers].
    destruct (Nat.eq_dec i (length layers)) as [-> | Hne].
    + destruct (Nat.leb_spec (length layers + S n) (length layers)); [lia |].
      rewrite (proj2 (nth_error_None layers (length layers)) (le_n _)).
      now rewrite skipn_all.
    + destruct (skipn_nth_error layers i) as [l [E1 E2]]; [lia |].
      rewrite E1, E2. unfold bind at 1.
      destruct (DecoderLayer_forward l x mask g) as [[y g'] | e] eqn:E.
      * rewrite IH by lia.
        replace (i + S n)%nat with (S i + n)%nat by lia.
        destruct (S i + n <=? length layers)%nat.
        -- cbn [firstn run_layers]. unfold bind at 1. now rewrite E.
        -- cbn [run_layers]. rewrite bind_assoc. unfold bind at 2.
           now rewrite E.
      * destruct (i + S n <=? length layers)%nat.
        -- cbn [firstn run_layers]. unfold bind. now rewrite E.
        -- cbn [run_layers]. unfold bind. now rewrite E.
Qed.

(** X10. The layer loop of [Decoder.forward] applies the layers [0 ..
    N-1] in order, each to the output of the one before. With fewer than
    [N] layers in the list it runs all of them and then raises
    [IndexError]; with the list that [get_clones] builds for [N] it runs
    exactly the whole list. *)
Theorem Decoder_layers_range (layers : list DecoderLayer) (N : nat)
        (x : tensor3) (mask : option xmat) (g : Generator) :
  ((N <= length layers)%nat ->
   Decoder_layers layers (seq 0 N) x mask g
   = run_layers (firstn N layers) x mask g)
  /\ ((length layers < N)%nat ->
      Decoder_layers layers (seq 0 N) x mask g
      = (y <- run_layers layers x mask ;; raise IndexError) g)
  /\ (forall (l : DecoderLayer) (n : Z),
         layers = get_clones l n -> N = Z.to_nat n ->
         Decoder_layers layers (seq 0 N) x mask g = run_layers layers x mask g).
Proof.
  pose proof (Decoder_layers_from layers mask N 0 x g (Nat.le_0_l _)) as H.
  cbn [Nat.add skipn] in H. split; [| split].
  - intros HN. rewrite H. now destruct (Nat.leb_spec N (length layers)); [| lia].
  - intros HN. rewrite H. now destruct (Nat.leb_spec N (length layers)); [lia |].
  - intros l n -> ->. rewrite H. unfold get_clones. rewrite repeat_length.
    rewrite Nat.leb_refl.
    now rewrite <- (repeat_length l (Z.to_nat n)) at 1; rewrite firstn_all.
Qed.

Lemma Decoder_layers_range_witness :
  Decoder_layers [two_norm_layer] (seq 0 1) [[[1; 3]]] (Some (no_peak_mask 1))
                 (fun _ => true)
  = run_layers [two_norm_layer] [[[1; 3]]] (Some (no_peak_mask 1)) (fun _ => true)
  /\ Decoder_layers [two_norm_layer] (seq 0 2) [[[1; 3]]] (Some (no_peak_mask 1))
                    (fun _ => true)
     = (y <- run_layers [two_norm_layer] [[[1; 3]]] (Some (no_peak_mask 1)) ;;
        raise IndexError) (fun _ => true).
Proof.
  split.
  - apply (proj1 (Decoder_layers_range [two_norm_layer] 1 [[[1; 3]]]
                                       (Some (no_peak_mask 1)) (fun _ => true))).
    simpl. lia.
  - apply (proj1 (proj2 (Decoder_layers_range [two_norm_layer] 2 [[[1; 3]]]
                                              (Some (no_peak_mask 1))
                                              (fun _ => true)))).
    simpl. lia.
Defined.

(** ** Further properties of the scheduler *)

Lemma cosine_factor_bounds (x : R) : 0 <= cos x + 1 <= 2.
Proof.
  pose proof (COS_bound x) as [H1 H2]. lra.
Qed.

(** X13. Every rate that [get_lr] returns lies between [eta_min] and the
    base rate it is computed from (for base rates that are not below
    [eta_min]). *)
Theorem get_lr_within_bounds (s : CosineWithRestarts) :
  _initialized s = false \/ _updated_cycle_len s <> 0%Z ->
  Forall (fun lr => eta_min s <= lr) (base_lrs s) ->
  exists (lrs : list R) (s' : CosineWithRestarts),
    get_lr s = Ok (lrs, s')
    /\ Forall2 (fun lr rate => eta_min s <= rate <= lr) (base_lrs s) lrs.
Proof.
  intros Hok Hbase. unfold get_lr.
  destruct (_initialized s) eqn:Hi; cbn [negb].
  - destruct Hok as [Hok | Hok]; [discriminate |].
    destruct (Z.eqb_spec (_updated_cycle_len s) 0) as [E | _]; [contradiction |].
    assert (Hrates :
      Forall2 (fun lr rate => eta_min s <= rate <= lr) (base_lrs s)
        (map (fun lr =>
                eta_min s + ((lr - eta_min s) / 2) *
                  (cos (PI * IZR ((last_epoch s + 1 - _last_restart s)
                                    mod _updated_cycle_len s)
                        / IZR (_updated_cycle_len s)) + 1))
             (base_lrs s))).
    { induction Hbase as [| lr base Hlr _ IH]; cbn [map]; constructor;
        [| exact IH].
      pose proof (cosine_factor_bounds
                    (PI * IZR ((last_epoch s + 1 - _last_restart s)
                                 mod _updated_cycle_len s)
                     / IZR (_updated_cycle_len s))) as [H0 H2].
      split; nra. }
    destruct (_ =? 0)%Z; do 2 eexists; (split; [reflexivity | exact Hrates]).
  - do 2 eexists. split; [reflexivity |].
    induction Hbase as [| lr base Hlr _ IH]; constructor; [lra | exact IH].
Qed.

Lemma get_lr_within_bounds_witness :
  exists (lrs : list R) (s' : CosineWithRestarts),
    get_lr (mkCosineWithRestarts 4 0 1 0 0 1 4 true [1 / 1000] 2) = Ok (lrs, s')
    /\ Forall2 (fun lr rate => 0 <= rate <= lr) [1 / 1000] lrs.
Proof.
  apply (get_lr_within_bounds (mkCosineWithRestarts 4 0 1 0 0 1 4 true [1 / 1000] 2)).
  - right. discriminate.
  - repeat constructor. simpl. lra.
Defined.

(** X12. [get_lr] fails only by dividing by a cycle length of zero, and
    only after its first call. Otherwise it returns one rate per base
    rate, marks the scheduler as initialized, and leaves [T_max],
    [eta_min], [factor], the base rates and [last_epoch] as they were. *)
Theorem get_lr_contract (s : CosineWithRestarts) :
  (_initialized s = true -> _updated_cycle_len s = 0%Z ->
   get_lr s = Raise ZeroDivisionError)
  /\ (_initialized s = false \/ _updated_cycle_len s <> 0%Z ->
      exists (lrs : list R) (s' : CosineWithRestarts),
        get_lr s = Ok (lrs, s')
        /\ length lrs = length (base_lrs s)
        /\ _initialized s' = true
        /\ T_max s' = T_max s /\ eta_min s' = eta_min s /\ factor s' = factor s
        /\ base_lrs s' = base_lrs s /\ last_epoch s' = last_epoch s).
Proof.
  unfold get_lr. split.
  - intros -> ->. reflexivity.
  - intros Hok. destruct (_initialized s) eqn:Hi; cbn [negb].
    + destruct Hok as [Hok | Hok]; [discriminate |].
      destruct (Z.eqb_spec (_updated_cycle_len s) 0) as [E | _]; [contradiction |].
      destruct (_ =? 0)%Z; do 2 eexists;
        (split; [reflexivity |]); rewrite length_map; cbn; repeat split.
    + do 2 eexists. split; [reflexivity |]. cbn. repeat split.
Qed.

Lemma get_lr_contract_witness :
  get_lr (mkCosineWithRestarts 0 0 1 0 0 1 0 true [1 / 1000] 0)
  = Raise ZeroDivisionError.
Proof.
  apply (proj1 (get_lr_contract
                  (mkCosineWithRestarts 0 0 1 0 0 1 0 true [1 / 1000] 0)));
    reflexivity.
Defined.

(** ** Warm restarts with any growth factor *)

Lemma sched_step_in_cycle (s0 s : CosineWithRestarts) (n : Z) :
  _last_restart s0 = (last_epoch s0 + 1)%Z ->
  in_cycle s0 n s -> (0 <= n)%Z -> (n + 1 < _updated_cycle_len s0)%Z ->
  exists s',
    sched_step s =
    Ok (map (cosine_rate (eta_min s0) (_updated_cycle_len s0) (n + 1))
            (base_lrs s0), s')
    /\ in_cycle s0 (n + 1) s'.
Proof.
  intros Hr (Hi & HT & He & Hf & Hb & Hc & Hl & Hlr & Hle) Hn Hlt.
  unfold sched_step, get_lr. cbn. rewrite Hi, Hl, Hlr, Hle, Hr, He, Hb. cbn [negb].
  destruct (Z.eqb_spec (_updated_cycle_len s0) 0) as [E | _]; [lia |].
  replace (last_epoch s0 + n + 1 + 1 - (last_epoch s0 + 1))%Z with (n + 1)%Z by lia.
  rewrite Z.mod_small by lia.
  destruct (Z.eqb_spec (n + 1) 0) as [E | _]; [lia |].
  eexists. split; [reflexivity |].
  unfold in_cycle. cbn. repeat split; auto; lia.
Qed.

Lemma sched_steps_in_cycle (s0 : CosineWithRestarts) (k : nat) :
  _last_restart s0 = (last_epoch s0 + 1)%Z ->
  forall (s : CosineWithRestarts) (n : Z),
    in_cycle s0 n s -> (0 <= n)%Z ->
    (n + Z.of_nat k < _updated_cycle_len s0)%Z ->
    exists s', sched_steps k s = Ok s' /\ in_cycle s0 (n + Z.of_nat k) s'.
Proof.
  intros Hr. induction k as [| k IH]; intros s n Hin Hn Hlt.
  - exists s. split; [reflexivity |]. now rewrite Z.add_0_r.
  - destruct (sched_step_in_cycle s0 s n Hr Hin Hn) as [s1 [E1 H1]]; [lia |].
    cbn [sched_steps]. rewrite E1. cbn [rbind snd].
    destruct (IH s1 (n + 1)%Z H1) as [s' [E' H']]; [lia | lia |].
    exists s'. split; [exact E' |].
    now replace (n + Z.of_nat (S k))%Z with (n + 1 + Z.of_nat k)%Z by lia.
Qed.

(** X14. One whole cycle, for any growth factor. From a restart with
    cycle length [len > 0], [len - 1] scheduler steps stay inside the
    cycle (same length, same restart point); the next step returns the
    base rates, moves the restart point forward by [len], multiplies the
    cycle factor by [factor], and sets the length of the next cycle to
    [int(cycle_factor * factor * T_max)]. *)
Theorem sched_full_cycle (s : CosineWithRestarts) :
  _initialized s = true -> (0 < _updated_cycle_len s)%Z ->
  _last_restart s = (last_epoch s + 1)%Z ->
  exists s1 s2 : CosineWithRestarts,
    sched_steps (Z.to_nat (_updated_cycle_len s) - 1) s = Ok s1
    /\ _updated_cycle_len s1 = _updated_cycle_len s
    /\ _last_restart s1 = _last_restart s
    /\ sched_step s1 = Ok (base_lrs s, s2)
    /\ _last_restart s2 = (_last_restart s + _updated_cycle_len s)%Z
    /\ _last_restart s2 = (last_epoch s2 + 1)%Z
    /\ _cycle_counter s2 = 0%Z
    /\ _cycle_factor s2 = _cycle_factor s * factor s
    /\ _updated_cycle_len s2
       = py_int (_cycle_factor s * factor s * IZR (T_max s)).
Proof.
  intros Hi Hlen Hr.
  assert (H0 : in_cycle s 0 s).
  { unfold in_cycle. repeat split; auto. lia. }
  destruct (sched_steps_in_cycle s (Z.to_nat (_updated_cycle_len s) - 1) Hr
                                 s 0%Z H0)
    as [s1 [E1 (Hi1 & HT & He & Hf & Hb & Hc & Hl & Hlr & Hle)]]; [lia | lia |].
  assert (E2 : sched_step s1 =
               Ok (base_lrs s,
                   mkCosineWithRestarts
                     (T_max s) (eta_min s) (factor s)
                     (_last_restart s + _updated_cycle_len s) 0
                     (_cycle_factor s * factor s)
                     (py_int (_cycle_factor s * factor s * IZR (T_max s)))
                     true (base_lrs s)
                     (_last_restart s + _updated_cycle_len s - 1))).
  { unfold sched_step, get_lr. cbn.
    rewrite Hi1, Hl, Hlr, Hle, Hr, He, Hb, Hc, Hf, HT. cbn [negb].
    destruct (Z.eqb_spec (_updated_cycle_len s) 0) as [E | _]; [lia |].
    replace (last_epoch s + (0 + Z.of_nat (Z.to_nat (_updated_cycle_len s) - 1))
             + 1 + 1 - (last_epoch s + 1))%Z
      with (_updated_cycle_len s) by lia.
    rewrite Z.mod_same, Z.eqb_refl by lia.
    f_equal. f_equal.
    - rewrite <- (map_id (base_lrs s)) at 2.
      apply map_ext. intros lr. apply cosine_rate_0.
    - f_equal; lia. }
  exists s1. eexists. split; [exact E1 |]. split; [exact Hl |].
  split; [exact Hlr |]. split; [exact E2 |]. cbn. repeat split; lia.
Qed.

Lemma sched_full_cycle_witness :
  exists s1 s2 : CosineWithRestarts,
    sched_steps 1 (mkCosineWithRestarts 2 0 2 0 0 1 2 true [1 / 1000] (-1)) = Ok s1
    /\ sched_step s1 = Ok ([1 / 1000], s2)
    /\ _updated_cycle_len s2 = py_int (1 * 2 * 2).
Proof.
  destruct (sched_full_cycle
              (mkCosineWithRestarts 2 0 2 0 0 1 2 true [1 / 1000] (-1))
              eq_refl eq_refl eq_refl)
    as (s1 & s2 & E1 & _ & _ & E2 & _ & _ & _ & _ & El).
  exists s1, s2. split; [exact E1 |]. split; [exact E2 | exact El].
Defined.

Local Open Scope Z_scope.

(** ** The examples as windows over the corpus *)

Lemma firstn_min_length {A : Type} (a : nat) (l : list A) :
  firstn (Nat.min a (length l)) l = firstn a l.
Proof.
  destruct (Nat.le_gt_cases a (length l)) as [H | H].
  - now rewrite Nat.min_l.
  - rewrite Nat.min_r, !firstn_all2 by lia. reflexivity.
Qed.

Lemma tl_skipn {A : Type} (l : list A) : tl l = skipn 1 l.
Proof. now destruct l. Qed.

(** The block that starts at token [k * block_size], its input and its
    target, as windows over the corpus. *)
Lemma WikiDataset_block_windows (tokens : list Z) (b k : nat) :
  (0 < b)%nat -> (k * b < length tokens)%nat ->
  let block := py_slice tokens (Z.of_nat k * Z.of_nat b)
                        (Z.of_nat k * Z.of_nat b + Z.of_nat b + 1) in
  py_slice block 0 (-1) = firstn b (skipn (k * b) (removelast tokens))
  /\ py_slice block 1 (Z.of_nat (length block)) = firstn b (skipn (k * b) (tl tokens)).
Proof.
  intros Hb Hk block.
  set (s := skipn (k * b) tokens).
  assert (Hs : length s = (length tokens - k * b)%nat) by apply length_skipn.
  assert (Eblock : block = firstn (b + 1) s).
  { unfold block, py_slice, slice_bound.
    destruct (Z.ltb_spec (Z.of_nat k * Z.of_nat b) 0); [lia |].
    destruct (Z.ltb_spec (Z.of_nat k * Z.of_nat b + Z.of_nat b + 1) 0); [lia |].
    replace (Z.to_nat (Z.min (Z.of_nat k * Z.of_nat b) (Z.of_nat (length tokens))))
      with (k * b)%nat by lia.
    fold s.
    replace (Z.to_nat _) with (Nat.min (b + 1) (length s)) by lia.
    apply firstn_min_length. }
  assert (Hlen : length block = Nat.min (b + 1) (length s)).
  { rewrite Eblock. apply length_firstn. }
  split.
  - unfold py_slice, slice_bound. cbn [Z.ltb Z.compare].
    replace (Z.to_nat (Z.min 0 (Z.of_nat (length block)))) with 0%nat by lia.
    replace (Z.to_nat _) with (length block - 1)%nat by lia.
    cbn [skipn]. rewrite Eblock at 2. rewrite firstn_firstn.
    rewrite removelast_firstn_len, skipn_firstn_comm, firstn_firstn. fold s.
    f_equal. lia.
  - unfold py_slice, slice_bound.
    destruct (Z.ltb_spec (Z.of_nat (length block)) 0); [lia |]. cbn [Z.ltb Z.compare].
    replace (Z.to_nat (Z.min 1 (Z.of_nat (length block)))) with 1%nat by lia.
    rewrite firstn_all2 by (rewrite length_skipn; lia).
    rewrite Eblock, skipn_firstn_comm. unfold s.
    rewrite skipn_skipn, tl_skipn, skipn_skipn.
    f_equal; [lia |]. f_equal. lia.
Qed.

(** The number of examples of a corpus of [n] tokens. *)
Lemma WikiDataset_count (n bs : Z) (k : nat) :
  0 < bs -> 0 <= n ->
  (k < Z.to_nat ((n + bs - 1) / bs))%nat <-> Z.of_nat k * bs < n.
Proof.
  intros Hbs Hn. split; intros H.
  - assert (Z.of_nat k + 1 <= (n + bs - 1) / bs) by lia.
    assert (bs * ((n + bs - 1) / bs) <= n + bs - 1) by (apply Z.mul_div_le; lia).
    nia.
  - assert (Z.of_nat k + 1 <= (n + bs - 1) / bs); [| lia].
    apply Z.div_le_lower_bound; [lia | nia].
Qed.

Lemma WikiDataset_getitem_at (tokens : list Z) (bs : Z) (ds : WikiDataset) (k : nat) :
  0 < bs ->
  WikiDataset_init tokens bs = Ok ds ->
  (k < WikiDataset_len ds)%nat ->
  WikiDataset_getitem ds (Z.of_nat k)
  = Ok (firstn (Z.to_nat bs) (skipn (k * Z.to_nat bs) (removelast tokens)),
        firstn (Z.to_nat bs) (skipn (k * Z.to_nat bs) (tl tokens))).
Proof.
  intros Hbs Hinit Hk. set (b := Z.to_nat bs).
  rewrite WikiDataset_init_pos in Hinit by exact Hbs. injection Hinit as <-.
  unfold WikiDataset_len in Hk. cbn [data] in Hk.
  rewrite length_map, length_seq in Hk.
  assert (Hstart : Z.of_nat k * bs < Z.of_nat (length tokens)).
  { apply WikiDataset_count in Hk; lia. }
  unfold WikiDataset_getitem. cbn [data].
  rewrite length_map, length_seq, norm_index_in by lia.
  cbn [rbind]. rewrite Nat2Z.id, nth_map_seq by lia.
  destruct (WikiDataset_block_windows tokens b k) as [Ein Eout]; [lia | nia |].
  replace (Z.of_nat b) with bs in Ein, Eout by lia.
  now rewrite Ein, Eout.
Qed.

(** X15. Example [k] reads the [k]-th window of [block_size] tokens: its
    input from the corpus without the last token, its target from the
    same place of the corpus without the first one, so that every target
    is the token that follows its input token. *)
Theorem WikiDataset_getitem_windows
        (tokens : list Z) (bs : Z) (ds : WikiDataset) (k : nat) :
  0 < bs ->
  WikiDataset_init tokens bs = Ok ds ->
  (k < WikiDataset_len ds)%nat ->
  let b := Z.to_nat bs in
  exists input_text target_text : list Z,
    WikiDataset_getitem ds (Z.of_nat k) = Ok (input_text, target_text)
    /\ input_text = firstn b (skipn (k * b) (removelast tokens))
    /\ target_text = firstn b (skipn (k * b) (tl tokens))
    /\ forall i : nat, (i < length input_text)%nat ->
         nth i input_text 0 = nth (k * b + i) tokens 0
         /\ nth i target_text 0 = nth (k * b + i + 1) tokens 0.
Proof.
  intros Hbs Hinit Hk b.
  do 2 eexists. split; [apply WikiDataset_getitem_at; eassumption |].
  fold b. split; [reflexivity |]. split; [reflexivity |].
  intros i Hi.
  rewrite length_firstn, length_skipn, removelast_firstn_len, length_firstn in Hi.
  rewrite !nth_firstn.
  destruct (Nat.ltb_spec i b); [| lia].
  rewrite !nth_skipn, removelast_firstn_len, nth_firstn, tl_skipn, nth_skipn.
  destruct (Nat.ltb_spec (k * b + i) (Nat.pred (length tokens))); [| lia].
  split; [reflexivity |]. f_equal. lia.
Qed.

Lemma WikiDataset_getitem_windows_witness :
  exists input_text target_text : list Z,
    WikiDataset_getitem (mkWikiDataset 3 [[1; 2; 3; 4]; [4; 5]]) 1
    = Ok (input_text, target_text)
    /\ input_text = [4]
    /\ target_text = [5]
    /\ forall i : nat, (i < length input_text)%nat ->
         nth i input_text 0 = nth (1 * 3 + i) [1; 2; 3; 4; 5] 0
         /\ nth i target_text 0 = nth (1 * 3 + i + 1) [1; 2; 3; 4; 5] 0.
Proof.
  exact (WikiDataset_getitem_windows
           [1; 2; 3; 4; 5] 3 (mkWikiDataset 3 [[1; 2; 3; 4]; [4; 5]]) 1
           eq_refl eq_refl (le_n 2)).
Defined.

(** X16. Read in index order, the inputs of all examples are the corpus
    without its last token and the targets are the corpus without its
    first token: the blocks overlap by one token, and no token pair is
    lost or repeated. *)
Theorem WikiDataset_covers_corpus (tokens : list Z) (bs : Z) (ds : WikiDataset) :
  0 < bs ->
  WikiDataset_init tokens bs = Ok ds ->
  exists examples : list (list Z * list Z),
    map (fun k => WikiDataset_getitem ds (Z.of_nat k)) (seq 0 (WikiDataset_len ds))
    = map Ok examples
    /\ concat (map fst examples) = removelast tokens
    /\ concat (map snd examples) = tl tokens.
Proof.
  intros Hbs Hinit.
  set (b := Z.to_nat bs).
  set (c := WikiDataset_len ds).
  exists (map (fun k => (firstn b (skipn (k * b) (removelast tokens)),
                         firstn b (skipn (k * b) (tl tokens)))) (seq 0 c)).
  assert (Hc : c = Z.to_nat ((Z.of_nat (length tokens) + bs - 1) / bs)).
  { unfold c, WikiDataset_len. rewrite WikiDataset_init_pos in Hinit by exact Hbs.
    injection Hinit as <-. cbn [data]. now rewrite length_map, length_seq. }
  assert (Hcover : (length tokens <= c * b)%nat).
  { destruct (Nat.le_gt_cases (length tokens) (c * b)) as [H | H]; [exact H |].
    assert (Z.of_nat c * bs < Z.of_nat (length tokens)) by lia.
    apply WikiDataset_count in H0; lia. }
  split; [| split].
  - rewrite map_map. apply map_ext_in. intros k Hk. apply in_seq in Hk.
    apply WikiDataset_getitem_at; [exact Hbs | exact Hinit | fold c; lia].
  - rewrite map_map. cbn [fst]. rewrite concat_chunks.
    apply firstn_all2. rewrite removelast_firstn_len, length_firstn. lia.
  - rewrite map_map. cbn [snd]. rewrite concat_chunks.
    apply firstn_all2. rewrite tl_skipn, length_skipn. lia.
Qed.

Lemma WikiDataset_covers_corpus_witness :
  exists examples : list (list Z * list Z),
    map (fun k => WikiDataset_getitem (mkWikiDataset 3 [[1; 2; 3; 4]; [4; 5]])
                                      (Z.of_nat k))
        (seq 0 (WikiDataset_len (mkWikiDataset 3 [[1; 2; 3; 4]; [4; 5]])))
    = map Ok examples
    /\ concat (map fst examples) = removelast [1; 2; 3; 4; 5]
    /\ concat (map snd examples) = tl [1; 2; 3; 4; 5].
Proof.
  exact (WikiDataset_covers_corpus
           [1; 2; 3; 4; 5] 3 (mkWikiDataset 3 [[1; 2; 3; 4]; [4; 5]])
           eq_refl eq_refl).
Defined.

Local Close Scope Z_scope.

Local Open Scope nat_scope.

(** ** Batches of examples of different lengths *)

Lemma max_length_ge {A : Type} (seqs : list (list A)) (s : list A) :
  In s seqs -> length s <= fold_right Nat.max 0 (map (@length A) seqs).
Proof.
  induction seqs as [| x seqs IH]; [intros [] |].
  intros [-> | H]; cbn [map fold_right]; [lia |].
  specialize (IH H). lia.
Qed.

Lemma max_length_attained {A : Type} (seqs : list (list A)) :
  seqs <> [] ->
  exists s, In s seqs /\ length s = fold_right Nat.max 0 (map (@length A) seqs).
Proof.
  induction seqs as [| x seqs IH]; [congruence |]. intros _.
  cbn [map fold_right].
  destruct seqs as [| y seqs].
  - exists x. split; [now left |]. cbn. lia.
  - destruct IH as [s [Hin Hs]]; [discriminate |].
    destruct (Nat.le_gt_cases (length s) (length x)) as [H | H].
    + exists x. split; [now left |]. lia.
    + exists s. split; [now right |]. lia.
Qed.

Lemma pad_sequence_rows (seqs : list (list Z)) (v : Z) :
  let L := fold_right Nat.max 0 (map (@length Z) seqs) in
  Forall2 (fun s row => length row = L /\ row = s ++ repeat v (L - length s))
          seqs (pad_sequence seqs v).
Proof.
  intros L. unfold pad_sequence. fold L.
  assert (H : forall s, In s seqs -> length s <= L) by apply max_length_ge.
  clearbody L. induction seqs as [| s seqs IH]; [constructor |].
  cbn [map]. constructor.
  - split; [| reflexivity]. rewrite length_app, repeat_length.
    specialize (H s (or_introl eq_refl)). lia.
  - apply IH. intros s' Hs'. apply H. now right.
Qed.

Lemma Forall2_map_left {A B C : Type} (P : B -> C -> Prop) (f : A -> B)
      (l : list A) (rows : list C) :
  Forall2 P (map f l) rows -> Forall2 (fun x r => P (f x) r) l rows.
Proof.
  revert rows. induction l as [| x l IH]; intros rows H; cbn [map] in H;
    inversion H; subst; constructor; auto.
Qed.

Lemma filter_padding (s : list Z) (v : Z) (k : nat) :
  Forall (fun t => t <> v) s ->
  filter (fun t => negb (t =? v)%Z) (s ++ repeat v k) = s.
Proof.
  intros H. rewrite filter_app.
  replace (filter _ (repeat v k)) with (@nil Z).
  - rewrite app_nil_r. induction H as [| t s Ht _ IH]; [reflexivity |].
    cbn [filter]. destruct (Z.eqb_spec t v); [contradiction |].
    cbn [negb]. now rewrite IH.
  - induction k as [| k IH]; [reflexivity |].
    cbn [repeat filter]. now rewrite Z.eqb_refl.
Qed.

(** X17. For a batch whose examples pair an input with a target of the
    same length, [collate_fn] returns two rectangles of one shape: a row
    per example, every row as long as the longest example; each row
    starts with its example, and the tokens past it are 0 in the inputs
    and -100 in the targets; some row has no padding at all. Dropping
    the -100 entries of the targets gives back the targets of the
    examples when no target token is -100. *)
Theorem collate_fn_rectangles (batch : list (list Z * list Z)) :
  batch <> [] ->
  Forall (fun ex => length (fst ex) = length (snd ex)) batch ->
  exists (inputs targets : list (list Z)) (L : nat),
    collate_fn batch = Ok (inputs, targets)
    /\ Forall2 (fun ex row => length row = L
                              /\ row = fst ex ++ repeat 0%Z (L - length (fst ex)))
               batch inputs
    /\ Forall2 (fun ex row => length row = L
                              /\ row = snd ex ++ repeat (-100)%Z (L - length (snd ex)))
               batch targets
    /\ (exists ex, In ex batch /\ length (fst ex) = L)
    /\ (Forall (fun ex => Forall (fun t => t <> (-100)%Z) (snd ex)) batch ->
        map (filter (fun t => negb (t =? -100)%Z)) targets = map snd batch).
Proof.
  intros Hne Hlen.
  set (L := fold_right Nat.max 0 (map (@length Z) (map fst batch))).
  assert (HL : fold_right Nat.max 0 (map (@length Z) (map snd batch)) = L).
  { unfold L. f_equal. rewrite !map_map. apply map_ext_in. intros ex Hex.
    rewrite Forall_forall in Hlen. symmetry. now apply Hlen. }
  exists (pad_sequence (map fst batch) 0), (pad_sequence (map snd batch) (-100)), L.
  split; [destruct batch; [congruence | reflexivity] |].
  split; [| split; [| split]].
  - pose proof (pad_sequence_rows (map fst batch) 0) as H. cbv zeta in H. fold L in H.
    apply Forall2_map_left in H. exact H.
  - pose proof (pad_sequence_rows (map snd batch) (-100)) as H. cbv zeta in H.
    rewrite HL in H.
    apply Forall2_map_left in H. exact H.
  - destruct (max_length_attained (map fst batch)) as [s [Hin Hs]].
    { destruct batch; [congruence | discriminate]. }
    apply in_map_iff in Hin. destruct Hin as [ex [<- Hex]].
    exists ex. split; [exact Hex | exact Hs].
  - intros Hreal. unfold pad_sequence. rewrite HL, !map_map.
    apply map_ext_in. intros ex Hex. apply filter_padding.
    rewrite Forall_forall in Hreal. now apply Hreal.
Qed.

Lemma collate_fn_rectangles_witness :
  exists (inputs targets : list (list Z)) (L : nat),
    collate_fn [([1; 2; 3], [2; 3; 4]); ([4], [5])]%Z = Ok (inputs, targets)
    /\ Forall2 (fun ex row => length row = L
                              /\ row = fst ex ++ repeat 0%Z (L - length (fst ex)))
               [([1; 2; 3], [2; 3; 4]); ([4], [5])]%Z inputs
    /\ Forall2 (fun ex row => length row = L
                              /\ row = snd ex ++ repeat (-100)%Z (L - length (snd ex)))
               [([1; 2; 3], [2; 3; 4]); ([4], [5])]%Z targets
    /\ (exists ex, In ex [([1; 2; 3], [2; 3; 4]); ([4], [5])]%Z /\ length (fst ex) = L)
    /\ (Forall (fun ex => Forall (fun t => t <> (-100)%Z) (snd ex))
               [([1; 2; 3], [2; 3; 4]); ([4], [5])]%Z ->
        map (filter (fun t => negb (t =? -100)%Z)) targets
        = map snd [([1; 2; 3], [2; 3; 4]); ([4], [5])]%Z).
Proof.
  refine (collate_fn_rectangles [([1; 2; 3], [2; 3; 4]); ([4], [5])]%Z _ _).
  - discriminate.
  - repeat constructor.
Defined.

Local Close Scope nat_scope.

(** ** The range of the loss *)

Lemma Rsum_exp_nonneg (x : vec) : 0 <= Rsum (map exp x).
Proof.
  induction x as [| a x IH]; cbn [map Rsum fold_right]; [lra |].
  fold (Rsum (map exp x)). pose proof (exp_pos a). lra.
Qed.

Lemma Rsum_exp_ge (x : vec) (i : nat) :
  (i < length x)%nat -> exp (nth i x 0) <= Rsum (map exp x).
Proof.
  revert i. induction x as [| a x IH]; intros i Hi; [simpl in Hi; lia |].
  cbn [map Rsum fold_right]. fold (Rsum (map exp x)).
  destruct i as [| i]; cbn [nth].
  - pose proof (Rsum_exp_nonneg x). lra.
  - simpl in Hi. specialize (IH i ltac:(lia)). pose proof (exp_pos a). lra.
Qed.

Lemma nth_map_in {A B : Type} (f : A -> B) (l : list A) (i : nat) (d : A) (d' : B) :
  (i < length l)%nat -> nth i (map f l) d' = f (nth i l d).
Proof.
  intros H. rewrite (nth_indep _ d' (f d)) by now rewrite length_map.
  apply map_nth.
Qed.

(** Every softmax entry is a probability. *)
Lemma softmax_entry_range (x : vec) (i : nat) :
  (i < length x)%nat -> 0 < nth i (softmax x) 0 <= 1.
Proof.
  intros Hi. unfold softmax.
  rewrite (nth_map_in _ _ _ 0) by now rewrite length_map.
  rewrite (nth_map_in _ _ _ 0) by exact Hi.
  pose proof (Rsum_exp_ge x i Hi) as Hge. pose proof (exp_pos (nth i x 0)) as Hpos.
  set (S := Rsum (map exp x)) in *. set (e := exp (nth i x 0)) in *.
  assert (HS : 0 < S) by lra. split.
  - apply Rdiv_lt_0_compat; assumption.
  - apply (Rmult_le_reg_r S); [exact HS |]. unfold Rdiv.
    rewrite Rmult_assoc, Rinv_l by lra. lra.
Qed.

Lemma nll_entry_nonneg (x : vec) (t : Z) (v : R) :
  nll_entry x t = Ok v -> 0 <= v.
Proof.
  unfold nll_entry.
  destruct ((0 <=? t)%Z && (t <? Z.of_nat (length x))%Z) eqn:E; [| discriminate].
  intros H. injection H as <-.
  apply andb_prop in E. destruct E as [E1 E2].
  apply Z.leb_le in E1. apply Z.ltb_lt in E2.
  destruct (softmax_entry_range x (Z.to_nat t)) as [Hpos Hle]; [lia |].
  set (p := nth (Z.to_nat t) (softmax x) 0) in *.
  destruct (Req_dec p 1) as [-> | Hne]; [rewrite ln_1; lra |].
  assert (ln p < ln 1) by (apply ln_increasing; lra).
  rewrite ln_1 in *. lra.
Qed.

Lemma ce_terms_nonneg (ign : Z) (input : mat) (target : list Z) (terms : list R) :
  ce_terms ign input target = Ok terms -> Forall (fun v => 0 <= v) terms.
Proof.
  revert target terms.
  induction input as [| x input IH]; intros [| t target] terms H; cbn [ce_terms] in H;
    try (injection H as <-; constructor).
  destruct (t =? ign)%Z; [now apply (IH target) |].
  destruct (nll_entry x t) as [v |] eqn:Ev; [| discriminate]. cbn [rbind] in H.
  destruct (ce_terms ign input target) as [rest |] eqn:Er; [| discriminate].
  cbn [rbind] in H. injection H as <-. constructor.
  - now apply (nll_entry_nonneg x t).
  - now apply (IH target).
Qed.

Lemma Rsum_nonneg (l : list R) : Forall (fun v => 0 <= v) l -> 0 <= Rsum l.
Proof.
  induction 1 as [| v l Hv _ IH]; cbn [Rsum fold_right]; [lra |].
  fold (Rsum l). lra.
Qed.

Lemma ce_terms_none (ign : Z) (input : mat) (target : list Z) :
  length input = length target ->
  (ce_terms ign input target = Ok [] <-> Forall (fun t => t = ign) target).
Proof.
  revert target.
  induction input as [| x input IH]; intros [| t target] Hlen; simpl in Hlen;
    try discriminate.
  - split; [constructor | reflexivity].
  - injection Hlen as Hlen. cbn [ce_terms]. destruct (Z.eqb_spec t ign) as [E | E].
    + rewrite IH by exact Hlen. split; intros H.
      * now constructor.
      * now inversion H.
    + split; intros H.
      * destruct (nll_entry x t); [| discriminate]. cbn [rbind] in H.
        destruct (ce_terms ign input target); discriminate.
      * inversion H. contradiction.
Qed.

(** X19. The loss is never negative. A result of [CrossEntropyLoss] is
    NaN exactly when every target is the ignore index (no position is
    left to average over), and otherwise a finite number [v >= 0], so
    that [exp v >= 1]. *)
Theorem CrossEntropyLoss_forward_range
        (l : CrossEntropyLoss) (input : mat) (target : list Z) (x : xfloat) :
  CrossEntropyLoss_forward l input target = Ok x ->
  length input = length target
  /\ ((x = NaN /\ Forall (fun t => t = ignore_index l) target)
      \/ (exists v, x = Fin v /\ 0 <= v /\ 1 <= exp v
                    /\ Exists (fun t => t <> ignore_index l) target)).
Proof.
  unfold CrossEntropyLoss_forward.
  destruct (Nat.eqb_spec (length input) (length target)) as [Hlen | Hlen];
    cbn [negb]; [| discriminate].
  destruct (ce_terms (ignore_index l) input target) as [terms |] eqn:Et;
    [| discriminate].
  cbn [rbind]. intros H. injection H as <-. split; [exact Hlen |].
  destruct terms as [| v terms].
  - left. split; [reflexivity |]. now apply (ce_terms_none (ignore_index l) input).
  - right. eexists. split; [reflexivity |].
    assert (Hv : 0 <= Rsum (v :: terms) / INR (length (v :: terms))).
    { apply Rmult_le_pos.
      - apply Rsum_nonneg. now apply (ce_terms_nonneg (ignore_index l) input target).
      - apply Rlt_le, Rinv_0_lt_compat, lt_0_INR. simpl. lia. }
    split; [exact Hv |]. split.
    + destruct Hv as [Hv | <-]; [| rewrite exp_0; lra].
      apply Rlt_le. rewrite <- exp_0. now apply exp_increasing.
    + apply Exists_Forall_neg.
      * intros t. destruct (Z.eq_dec t (ignore_index l)); tauto.
      * intros Hall. apply (ce_terms_none (ignore_index l) input) in Hall;
          [| exact Hlen].
        congruence.
Qed.

Lemma CrossEntropyLoss_forward_range_witness :
  length [[0; 0]] = length [1%Z]
  /\ ((Fin (- ln (1 / 2) / 1) = NaN
       /\ Forall (fun t => t = ignore_index loss_fn) [1%Z])
      \/ (exists v, Fin (- ln (1 / 2) / 1) = Fin v /\ 0 <= v /\ 1 <= exp v
                    /\ Exists (fun t => t <> ignore_index loss_fn) [1%Z])).
Proof.
  apply (CrossEntropyLoss_forward_range loss_fn [[0; 0]] [1%Z]).
  unfold CrossEntropyLoss_forward, loss_fn. simpl.
  rewrite exp_0. do 2 f_equal.
  replace (1 / (1 + (1 + 0))) with (1 / 2) by lra. lra.
Defined.

(** ** The loss of a collated batch *)

Lemma ce_terms_unpadded (ign : Z) (K : list Z -> nat) (output : tensor3)
      (ts : list (list Z)) :
  Forall2 (fun o t => length o = (length t + K t)%nat) output ts ->
  ce_terms ign (concat output) (concat (map (fun t => t ++ repeat ign (K t)) ts))
  = ce_terms ign (concat (map2 (fun o t => firstn (length t) o) output ts)) (concat ts)
  /\ length (concat output)
     = length (concat (map (fun t => t ++ repeat ign (K t)) ts))
  /\ length (concat (map2 (fun (o : mat) t => firstn (length t) o) output ts))
     = length (concat ts).
Proof.
  induction 1 as [| o t output ts Hot _ [IH [IHl IHr]]]; [repeat split |].
  cbn [map map2 concat].
  assert (Hf : length (firstn (length t) o) = length t).
  { rewrite length_firstn. lia. }
  assert (Hs : length (skipn (length t) o) = length (repeat ign (K t))).
  { rewrite length_skipn, repeat_length. lia. }
  split; [| split].
  - rewrite <- (firstn_skipn (length t) o) at 1.
    rewrite <- !app_assoc.
    rewrite !(ce_terms_app ign (firstn (length t) o) _ t _ Hf).
    rewrite (ce_terms_app ign (skipn (length t) o) _ (repeat ign (K t)) _ Hs).
    rewrite ce_terms_ignored, IH. cbn [rbind app].
    destruct (ce_terms ign (firstn (length t) o) t); [| reflexivity].
    cbn [rbind]. now destruct (ce_terms ign _ (concat ts)).
  - rewrite !length_app, repeat_length.
    unfold tensor3, mat, vec in *. lia.
  - rewrite !length_app. unfold tensor3, mat, vec in *. lia.
Qed.

Lemma Forall2_map_right {A B C : Type} (P : A -> C -> Prop) (f : B -> C)
      (l : list A) (l' : list B) :
  Forall2 P l (map f l') -> Forall2 (fun a b => P a (f b)) l l'.
Proof.
  revert l. induction l' as [| y l' IH]; intros l H; cbn [map] in H;
    inversion H; subst; constructor; auto.
Qed.

(** X18. The loss of a collated batch is the loss of its real positions:
    with one row of logits per position of the padded targets, cutting
    the logits of every example back to the length of its target and
    comparing with the targets as they were before padding gives the
    same result. What the model puts out at padded positions is never
    read. *)
Theorem collated_loss_real_positions
        (batch : list (list Z * list Z)) (inputs targets : list (list Z))
        (output : tensor3) :
  collate_fn batch = Ok (inputs, targets) ->
  Forall2 (fun o t => length o = length t) output targets ->
  batch_loss loss_fn output targets
  = batch_loss loss_fn
               (map2 (fun o ex => firstn (length (snd ex)) o) output batch)
               (map snd batch).
Proof.
  intros Hc Hshape. apply collate_fn_targets in Hc. destruct Hc as [_ ->].
  unfold pad_sequence in *.
  set (L := fold_right Nat.max 0%nat (map (@length Z) (map snd batch))) in *.
  set (K := fun t : list Z => (L - length t)%nat).
  assert (HK : Forall2 (fun o t => length o = (length t + K t)%nat)
                       output (map snd batch)).
  { apply Forall2_map_right in Hshape.
    refine (Forall2_impl _ _ Hshape). intros o t E. cbv beta in E.
    rewrite E, length_app, repeat_length. reflexivity. }
  destruct (ce_terms_unpadded (ignore_index loss_fn) K output (map snd batch) HK)
    as [Et [El Er]].
  rewrite <- (map2_map_r (fun (o : mat) t => firstn (length t) o) snd).
  unfold batch_loss, CrossEntropyLoss_forward.
  unfold K in Et, El, Er. rewrite El, Er, !Nat.eqb_refl. cbn [negb].
  now rewrite Et.
Qed.

Lemma collated_loss_real_positions_witness :
  batch_loss loss_fn [[[0; 0]; [1; 2]]; [[0; 0]; [5; 7]]] [[1; 0]; [1; -100]]%Z
  = batch_loss loss_fn
               (map2 (fun o ex => firstn (length (snd ex)) o)
                     [[[0; 0]; [1; 2]]; [[0; 0]; [5; 7]]]
                     [([3; 4], [1; 0]); ([2], [1])]%Z)
               (map snd [([3; 4], [1; 0]); ([2], [1])]%Z).
Proof.
  refine (collated_loss_real_positions
            [([3; 4], [1; 0]); ([2], [1])]%Z
            [[3; 4]; [2; 0]]%Z [[1; 0]; [1; -100]]%Z
            [[[0; 0]; [1; 2]]; [[0; 0]; [5; 7]]] eq_refl _).
  repeat constructor.
Defined.

(** ** Evaluation mode draws nothing *)

Lemma generator_free_ret {A : Type} (a : A) : generator_free (ret a).
Proof. exists (Ok a). reflexivity. Qed.

Lemma generator_free_raise {A : Type} (e : PyError) : generator_free (@raise A e).
Proof. exists (Raise e). reflexivity. Qed.

Lemma generator_free_lift {A : Type} (r : Result A) : generator_free (lift r).
Proof. exists r. destruct r; reflexivity. Qed.

Lemma generator_free_bind {A B : Type} (m : M A) (f : A -> M B) :
  generator_free m -> (forall a, generator_free (f a)) -> generator_free (bind m f).
Proof.
  intros [[a | e] Hm] Hf.
  - destruct (Hf a) as [r Hr]. exists r. intros g. unfold bind. rewrite Hm. apply Hr.
  - exists (Raise e). intros g. unfold bind. now rewrite Hm.
Qed.

Lemma generator_free_for_each {S A : Type} (f : S -> A -> M S) (l : list A) :
  (forall s x, generator_free (f s x)) -> forall s, generator_free (for_each f l s).
Proof.
  intros Hf. induction l as [| x l IH]; intros s; cbn [for_each].
  - apply generator_free_ret.
  - apply generator_free_bind; [apply Hf | exact IH].
Qed.

Lemma Dropout_forward_eval (mode : Dropout) (x : tensor3) :
  generator_free (Dropout_forward (Dropout_train false mode) x).
Proof. apply generator_free_ret. Qed.

Lemma attention_eval (q k v : tensor4) (d_k : nat) (mask : option xmat) (d : Dropout) :
  generator_free (attention q k v d_k mask (Some (Dropout_train false d))).
Proof.
  unfold attention. apply generator_free_bind; [apply generator_free_lift |].
  intros s. apply generator_free_bind; [apply generator_free_ret |].
  intros s'. apply generator_free_ret.
Qed.

Lemma MultiHeadAttention_forward_eval (a : MultiHeadAttention) (q k v : tensor3)
      (mask : option xmat) :
  generator_free
    (MultiHeadAttention_forward (MultiHeadAttention_train false a) q k v mask).
Proof.
  unfold MultiHeadAttention_forward. cbn [MultiHeadAttention_train mha_dropout].
  apply generator_free_bind; [apply attention_eval |].
  intros s. apply generator_free_ret.
Qed.

Lemma DecoderLayer_forward_eval (l : DecoderLayer) (x : tensor3) (mask : option xmat) :
  generator_free (DecoderLayer_forward (DecoderLayer_train false l) x mask).
Proof.
  unfold DecoderLayer_forward. cbn [DecoderLayer_train attn_1 dropout_1 norm_1 norm_2].
  repeat (apply generator_free_bind;
          [first [apply MultiHeadAttention_forward_eval | apply Dropout_forward_eval] |];
          intros ?).
  apply generator_free_ret.
Qed.

Lemma Decoder_layers_eval (layers : list DecoderLayer) (idx : list nat)
      (mask : option xmat) :
  forall x, generator_free
              (Decoder_layers (map (DecoderLayer_train false) layers) idx x mask).
Proof.
  induction idx as [| i idx IH]; intros x; cbn [Decoder_layers].
  - apply generator_free_ret.
  - rewrite nth_error_map. destruct (nth_error layers i) as [l |]; cbn [option_map].
    + apply generator_free_bind; [apply DecoderLayer_forward_eval | exact IH].
    + apply generator_free_raise.
Qed.

Lemma Transformer_forward_eval (m : Transformer) (trg : list (list Z))
      (mask : option xmat) :
  generator_free (Transformer_forward (Transformer_train false m) trg mask).
Proof.
  unfold Transformer_forward, Decoder_forward.
  cbn [Transformer_train decoder Decoder_train dec_embed dec_pe dec_layers dec_N
       dec_norm out].
  apply generator_free_bind; [| intros ?; apply generator_free_ret].
  apply generator_free_bind; [apply generator_free_lift | intros x0].
  apply generator_free_bind.
  { unfold PositionalEncoder_forward. cbn [PositionalEncoder_train pe_dropout].
    apply generator_free_bind; [apply generator_free_lift | intros ?].
    apply Dropout_forward_eval. }
  intros x1. apply generator_free_bind; [apply Decoder_layers_eval |].
  intros ?. apply generator_free_ret.
Qed.

(** X21. Evaluation draws no random number. [validate] and [test] give,
    from every state of the random generator, the same outcome (the same
    losses or the same exception) and leave the state as it was; the
    same holds for one forward pass of a model in evaluation mode.
    Dropout is the only reader of the generator, and [model.eval()]
    turns every dropout of the model off. *)
Theorem evaluation_generator_free
        (model : Transformer) (dataloader : list Batch) (loss_fn : CrossEntropyLoss) :
  generator_free (validate model dataloader loss_fn)
  /\ generator_free (test model dataloader loss_fn)
  /\ forall (trg : list (list Z)) (mask : option xmat),
       generator_free (Transformer_forward (Transformer_train false model) trg mask).
Proof.
  assert (H : forall (total : xfloat) (batch : Batch),
             generator_free
               (loss <- forward_loss (Transformer_train false model) loss_fn batch ;;
                ret (xadd total loss))).
  { intros total batch. apply generator_free_bind; [| intros ?; apply generator_free_ret].
    unfold forward_loss. apply generator_free_bind; [apply Transformer_forward_eval |].
    intros ?. apply generator_free_lift. }
  split; [| split].
  - unfold validate. apply generator_free_bind.
    + apply generator_free_for_each. exact H.
    + intros total. destruct dataloader;
        [apply generator_free_raise | apply generator_free_ret].
  - unfold test. apply generator_free_bind.
    + apply generator_free_for_each. exact H.
    + intros total. destruct dataloader;
        [apply generator_free_raise | apply generator_free_ret].
  - intros trg mask. apply Transformer_forward_eval.
Qed.

Local Open Scope nat_scope.

(** ** The epoch loop *)

Lemma for_each_app {S A : Type} (f : S -> A -> M S) (l l' : list A) (s : S)
      (g : Generator) :
  for_each f (l ++ l') s g = (s' <- for_each f l s ;; for_each f l' s') g.
Proof.
  revert s g. induction l as [| x l IH]; intros s g; [reflexivity |].
  cbn [app for_each]. rewrite bind_assoc. apply bind_ext. intros s1 g1. apply IH.
Qed.

Lemma Transformer_train_twice (mode mode' : bool) (m : Transformer) :
  Transformer_train mode (Transformer_train mode' m) = Transformer_train mode m.
Proof.
  destruct m as [[N e p layers n] o].
  unfold Transformer_train, Decoder_train.
  cbn [decoder out dec_N dec_embed dec_pe dec_layers dec_norm].
  do 2 f_equal. rewrite map_map. apply map_ext. intros l. reflexivity.
Qed.

Lemma validate_Ok (model : Transformer) (dl : list Batch) (loss : CrossEntropyLoss)
      (g g' : Generator) (r : xfloat * xfloat * Transformer) :
  validate model dl loss g = Ok (r, g') ->
  dl <> [] /\ snd r = Transformer_train false model.
Proof.
  unfold validate, bind.
  destruct (for_each _ dl (Fin 0) g) as [[total g1] |]; [| discriminate].
  destruct dl as [| b dl]; [discriminate |].
  intros H. injection H as <- _. split; [discriminate | reflexivity].
Qed.

Lemma seq_epochs_S (n : nat) :
  map Z.of_nat (seq 0 (S n)) = map Z.of_nat (seq 0 n) ++ [Z.of_nat n].
Proof. now rewrite seq_S, map_app. Qed.

Lemma multiples_of_5_S (n : nat) :
  map (fun k => (5 * (Z.of_nat k + 1))%Z) (seq 0 (Z.to_nat (Z.of_nat (S n) / 5)))
  = if ((Z.of_nat n + 1) mod 5 =? 0)%Z
    then map (fun k => (5 * (Z.of_nat k + 1))%Z) (seq 0 (Z.to_nat (Z.of_nat n / 5)))
         ++ [(Z.of_nat n + 1)%Z]
    else map (fun k => (5 * (Z.of_nat k + 1))%Z) (seq 0 (Z.to_nat (Z.of_nat n / 5))).
Proof.
  pose proof (Z.div_mod (Z.of_nat n + 1) 5 ltac:(lia)) as D1.
  pose proof (Z.mod_pos_bound (Z.of_nat n + 1) 5 ltac:(lia)) as B1.
  pose proof (Z.div_mod (Z.of_nat n) 5 ltac:(lia)) as D0.
  pose proof (Z.mod_pos_bound (Z.of_nat n) 5 ltac:(lia)) as B0.
  replace (Z.of_nat (S n)) with (Z.of_nat n + 1)%Z by lia.
  destruct (Z.eqb_spec ((Z.of_nat n + 1) mod 5) 0) as [E | E].
  - assert (Hq : ((Z.of_nat n + 1) / 5 = Z.of_nat n / 5 + 1)%Z) by lia.
    rewrite Hq.
    replace (Z.to_nat (Z.of_nat n / 5 + 1)) with (S (Z.to_nat (Z.of_nat n / 5)))
      by lia.
    rewrite seq_S, map_app. cbn [map Nat.add]. do 2 f_equal. lia.
  - assert (Hq : ((Z.of_nat n + 1) / 5 = Z.of_nat n / 5)%Z) by lia.
    now rewrite Hq.
Qed.

Section TrainModelFacts.

Variable Optimizer : Type.

Variable backward_step :
  Transformer -> Optimizer -> Batch -> Generator -> Transformer * Optimizer.

Lemma train_epoch_Ok (model : Transformer) (opt : Optimizer) (dl : list Batch)
      (loss : CrossEntropyLoss) (g g' : Generator)
      (r : xfloat * xfloat * Transformer * Optimizer) :
  train_epoch Optimizer backward_step model opt dl loss g = Ok (r, g') -> dl <> [].
Proof.
  unfold train_epoch, bind.
  destruct (for_each _ dl _ g) as [[[[total m] o] g1] |]; [| discriminate].
  destruct dl; discriminate.
Qed.

Lemma train_epoch_empty (model : Transformer) (opt : Optimizer)
      (loss : CrossEntropyLoss) (g : Generator) :
  train_epoch Optimizer backward_step model opt [] loss g = Raise ZeroDivisionError.
Proof. reflexivity. Qed.

Lemma train_model_epoch_Ok (train_dl valid_dl : list Batch) (loss : CrossEntropyLoss)
      (model model' : Transformer) (opt opt' : Optimizer) (log log' : TrainLog)
      (epoch : Z) (g g' : Generator) :
  train_model_epoch Optimizer backward_step train_dl valid_dl loss
                    (model, opt, log) epoch g
  = Ok ((model', opt', log'), g') ->
  train_dl <> [] /\ valid_dl <> []
  /\ Transformer_train false model' = model'
  /\ length (train_losses log') = S (length (train_losses log))
  /\ length (train_perplexities log') = S (length (train_perplexities log))
  /\ length (valid_losses log') = S (length (valid_losses log))
  /\ length (valid_perplexities log') = S (length (valid_perplexities log))
  /\ map fst (checkpoints log')
     = (if ((epoch + 1) mod 5 =? 0)%Z
        then map fst (checkpoints log) ++ [(epoch + 1)%Z]
        else map fst (checkpoints log)).
Proof.
  unfold train_model_epoch. unfold bind at 1.
  destruct (train_epoch _ _ model opt train_dl loss g)
    as [[[[[avg_tl tp] m1] o1] g1] |] eqn:Et; [| discriminate].
  apply train_epoch_Ok in Et. unfold bind.
  destruct (validate m1 valid_dl loss g1) as [[[[avg_vl vp] m2] g2] |] eqn:Ev;
    [| discriminate].
  apply validate_Ok in Ev. destruct Ev as [Hv Hm]. cbn [snd] in Hm.
  unfold ret. intros H. injection H as <- <- <- <-.
  split; [exact Et |]. split; [exact Hv |].
  split; [rewrite Hm; apply Transformer_train_twice |].
  cbn [train_losses train_perplexities valid_losses valid_perplexities checkpoints].
  rewrite !length_app. cbn [length].
  repeat (split; [lia |]).
  destruct ((epoch + 1) mod 5 =? 0)%Z; [| reflexivity].
  now rewrite map_app.
Qed.

(** After [n] epochs. *)
Lemma train_model_epochs (train_dl valid_dl : list Batch) (loss : CrossEntropyLoss)
      (model : Transformer) (opt : Optimizer) (n : nat) :
  forall (model' : Transformer) (opt' : Optimizer) (log' : TrainLog)
         (g g' : Generator),
    for_each (train_model_epoch Optimizer backward_step train_dl valid_dl loss)
             (map Z.of_nat (seq 0 n)) (model, opt, mkTrainLog [] [] [] [] []) g
    = Ok ((model', opt', log'), g') ->
    length (train_losses log') = n
    /\ length (train_perplexities log') = n
    /\ length (valid_losses log') = n
    /\ length (valid_perplexities log') = n
    /\ map fst (checkpoints log')
       = map (fun k => (5 * (Z.of_nat k + 1))%Z) (seq 0 (Z.to_nat (Z.of_nat n / 5)))
    /\ ((0 < n)%nat ->
        train_dl <> [] /\ valid_dl <> []
        /\ Transformer_train false model' = model').
Proof.
  induction n as [| n IH]; intros model' opt' log' g g' H.
  - cbn in H. injection H as <- <- <- <-. cbn. repeat split; try reflexivity; lia.
  - rewrite seq_epochs_S, for_each_app in H. unfold bind in H.
    destruct (for_each _ (map Z.of_nat (seq 0 n)) _ g) as [[[[m1 o1] log1] g1] |] eqn:E;
      [| discriminate].
    destruct (IH _ _ _ _ _ E) as [L1 [L2 [L3 [L4 [C _]]]]].
    cbn [for_each] in H. rewrite bind_ret_r in H.
    apply train_model_epoch_Ok in H.
    destruct H as [Ht [Hv [Hm [K1 [K2 [K3 [K4 KC]]]]]]].
    repeat (split; [lia |]).
    split; [| intros _; repeat split; assumption].
    rewrite KC, C. symmetry. apply multiples_of_5_S.
Qed.

(** X22. On return, [train_model] has recorded one training loss, one
    training perplexity, one validation loss and one validation
    perplexity per epoch; it has written checkpoints 5, 10, 15, ... up
    to the number of epochs and no other; and, after at least one epoch,
    it leaves the model in evaluation mode: the last call of [validate]
    switches dropout off, and nothing switches it on again. *)
Theorem train_model_log
        (model model' : Transformer) (opt opt' : Optimizer) (epochs : Z)
        (train_dl valid_dl : list Batch) (loss : CrossEntropyLoss)
        (log : TrainLog) (g g' : Generator) :
  train_model Optimizer backward_step model opt epochs train_dl valid_dl loss g
  = Ok ((model', opt', log), g') ->
  length (train_losses log) = Z.to_nat epochs
  /\ length (train_perplexities log) = Z.to_nat epochs
  /\ length (valid_losses log) = Z.to_nat epochs
  /\ length (valid_perplexities log) = Z.to_nat epochs
  /\ map fst (checkpoints log)
     = map (fun k => (5 * (Z.of_nat k + 1))%Z) (seq 0 (Z.to_nat (epochs / 5)))
  /\ ((0 < epochs)%Z -> Transformer_train false model' = model').
Proof.
  unfold train_model. intros H. apply train_model_epochs in H.
  destruct H as [L1 [L2 [L3 [L4 [C Hm]]]]].
  repeat (split; [assumption |]). split.
  - rewrite C. destruct (Z.le_gt_cases 0 epochs) as [Hpos | Hneg].
    + now rewrite Z2Nat.id by exact Hpos.
    + replace (Z.to_nat epochs) with 0%nat by lia.
      replace (Z.to_nat (epochs / 5)) with 0%nat; [reflexivity |].
      assert (epochs / 5 < 0)%Z by (apply Z.div_lt_upper_bound; lia). lia.
  - intros Hpos. apply Hm. lia.
Qed.

(** X23. Without batches there is no epoch. With at least one epoch to
    run, an empty training loader makes [train_model] stop with a
    division by zero before anything is validated or saved, and an empty
    validation loader makes it fail as well (at the latest when the
    first validation loss is averaged). *)
Theorem train_model_needs_batches
        (model : Transformer) (opt : Optimizer) (epochs : Z)
        (train_dl valid_dl : list Batch) (loss : CrossEntropyLoss) (g : Generator) :
  (0 < epochs)%Z ->
  train_model Optimizer backward_step model opt epochs [] valid_dl loss g
  = Raise ZeroDivisionError
  /\ exists e, train_model Optimizer backward_step model opt epochs train_dl [] loss g
               = Raise e.
Proof.
  intros He. split.
  - unfold train_model.
    replace (Z.to_nat epochs) with (S (Z.to_nat (epochs - 1))) by lia.
    reflexivity.
  - destruct (train_model Optimizer backward_step model opt epochs train_dl [] loss g)
      as [[[[m o] log] g'] | e] eqn:E; [| now exists e].
    unfold train_model in E. apply train_model_epochs in E.
    destruct E as [_ [_ [_ [_ [_ Hm]]]]].
    destruct Hm as [_ [Hv _]]; [lia | congruence].
Qed.

End TrainModelFacts.

Lemma train_model_needs_batches_witness :
  train_model unit (fun m o _ _ => (m, o)) tiny_model tt 1
              [] [([[0%Z]], [[1%Z]])] loss_fn (fun _ => true)
  = Raise ZeroDivisionError
  /\ exists e, train_model unit (fun m o _ _ => (m, o)) tiny_model tt 1
                           [([[0%Z]], [[1%Z]])] [] loss_fn (fun _ => true)
               = Raise e.
Proof.
  apply train_model_needs_batches. lia.
Defined.

Local Close Scope nat_scope.

(** The model without layers on one batch of one token, in either mode:
    both logits are zero and the loss is [ln 2]. *)
Lemma bare_model_loss (mode : bool) (m : Transformer) :
  Transformer_train mode m = Transformer_train mode bare_model ->
  forward_loss (Transformer_train mode m) loss_fn ([[0%Z]], [[1%Z]]) (fun _ => true)
  = Ok (Fin (ln 2), fun _ => true).
Proof.
  intros ->. unfold forward_loss, Transformer_forward, Decoder_forward.
  cbn [fst snd hd length].
  assert (Hpe : exists a b,
             PositionalEncoder_forward
               (dec_pe (decoder (Transformer_train mode bare_model)))
               [[[1; 0]]] (fun _ => true)
             = Ok ([[[a; b]]], fun _ => true)).
  { destruct mode.
    - unfold PositionalEncoder_forward, Dropout_forward, dropout_entry. cbn.
      destruct (Req_dec_T (1 / 10) 1); do 2 eexists; reflexivity.
    - do 2 eexists. reflexivity. }
  destruct Hpe as [a [b Hpe]].
  assert (Hf : Transformer_forward (Transformer_train mode bare_model) [[0%Z]]
                 (Some (no_peak_mask 1)) (fun _ => true)
               = Ok ([[[0; 0]]], fun _ => true)).
  { unfold Transformer_forward, Decoder_forward, bind.
    change (lift (Embedder_forward
                    (dec_embed (decoder (Transformer_train mode bare_model)))
                    [[0%Z]]) (fun _ => true))
      with (@Ok (tensor3 * Generator) ([[[1; 0]]], fun _ => true)).
    cbv iota beta. rewrite Hpe.
    change (dec_N (decoder (Transformer_train mode bare_model))) with 0%nat.
    cbn [seq Decoder_layers]. unfold ret.
    unfold Norm_forward. cbn [map].
    rewrite (Norm_vec_alpha0 _ 0 0) by reflexivity.
    cbn. repeat f_equal; ring. }
  fold (Decoder_forward (decoder (Transformer_train mode bare_model)) [[0%Z]]
          (Some (no_peak_mask 1))).
  fold (Transformer_forward (Transformer_train mode bare_model) [[0%Z]]
          (Some (no_peak_mask 1))).
  rewrite (bind_Ok _ _ _ _ _ Hf).
  simpl. unfold ret. repeat f_equal.
  rewrite exp_0. replace (1 / (1 + (1 + 0))) with (/ 2) by lra.
  rewrite ln_Rinv by lra. lra.
Qed.

Lemma bare_model_epoch (m : Transformer) (log : TrainLog) (epoch : Z) :
  Transformer_train true m = Transformer_train true bare_model ->
  train_model_epoch unit (fun m o _ _ => (m, o))
                    [([[0%Z]], [[1%Z]])] [([[0%Z]], [[1%Z]])] loss_fn
                    (m, tt, log) epoch (fun _ => true)
  = Ok ((Transformer_train false bare_model, tt,
         mkTrainLog
           (train_losses log ++ [Fin ((0 + ln 2) / 1)])
           (train_perplexities log ++ [Fin (exp ((0 + ln 2) / 1))])
           (valid_losses log ++ [Fin ((0 + ln 2) / 1)])
           (valid_perplexities log ++ [Fin (exp ((0 + ln 2) / 1))])
           (if ((epoch + 1) mod 5 =? 0)%Z
            then checkpoints log ++ [((epoch + 1)%Z, Transformer_train false bare_model)]
            else checkpoints log)),
        fun _ => true).
Proof.
  intros Hm.
  assert (Ht : train_epoch unit (fun m o _ _ => (m, o)) m tt
                           [([[0%Z]], [[1%Z]])] loss_fn (fun _ => true)
               = Ok ((Fin ((0 + ln 2) / 1), Fin (exp ((0 + ln 2) / 1)),
                      Transformer_train true bare_model, tt), fun _ => true)).
  { unfold train_epoch. cbn [for_each]. rewrite Hm.
    unfold bind at 1. unfold bind at 1. unfold bind at 1. unfold get_generator.
    unfold bind at 1.
    rewrite (bare_model_loss true bare_model eq_refl). reflexivity. }
  assert (Hv : validate (Transformer_train true bare_model)
                        [([[0%Z]], [[1%Z]])] loss_fn (fun _ => true)
               = Ok ((Fin ((0 + ln 2) / 1), Fin (exp ((0 + ln 2) / 1)),
                      Transformer_train false bare_model), fun _ => true)).
  { unfold validate. cbn [for_each].
    unfold bind at 1. unfold bind at 1. unfold bind at 1.
    rewrite (bare_model_loss false (Transformer_train true bare_model) eq_refl).
    reflexivity. }
  unfold train_model_epoch. unfold bind at 1. rewrite Ht.
  unfold bind at 1. rewrite Hv. reflexivity.
Qed.

(** Five epochs of the model without layers, with an optimizer that
    changes nothing, on one batch for training and for validation. *)
Lemma bare_model_training :
  train_model unit (fun m o _ _ => (m, o)) bare_model tt 5
              [([[0%Z]], [[1%Z]])] [([[0%Z]], [[1%Z]])] loss_fn (fun _ => true)
  = Ok ((Transformer_train false bare_model, tt,
         mkTrainLog (repeat (Fin ((0 + ln 2) / 1)) 5)
                    (repeat (Fin (exp ((0 + ln 2) / 1))) 5)
                    (repeat (Fin ((0 + ln 2) / 1)) 5)
                    (repeat (Fin (exp ((0 + ln 2) / 1))) 5)
                    [(5%Z, Transformer_train false bare_model)]),
        fun _ => true).
Proof.
  unfold train_model.
  change (map Z.of_nat (seq 0 (Z.to_nat 5))) with [0; 1; 2; 3; 4]%Z.
  cbn [for_each].
  do 5 (unfold bind at 1; rewrite bare_model_epoch by reflexivity;
        cbn [train_losses train_perplexities valid_losses valid_perplexities
             checkpoints app]).
  reflexivity.
Qed.

Lemma train_model_log_witness :
  length (repeat (Fin ((0 + ln 2) / 1)) 5) = Z.to_nat 5
  /\ length (repeat (Fin (exp ((0 + ln 2) / 1))) 5) = Z.to_nat 5
  /\ length (repeat (Fin ((0 + ln 2) / 1)) 5) = Z.to_nat 5
  /\ length (repeat (Fin (exp ((0 + ln 2) / 1))) 5) = Z.to_nat 5
  /\ map fst [(5%Z, Transformer_train false bare_model)]
     = map (fun k => (5 * (Z.of_nat k + 1))%Z) (seq 0 (Z.to_nat (5 / 5)))
  /\ ((0 < 5)%Z ->
      Transformer_train false (Transformer_train false bare_model)
      = Transformer_train false bare_model).
Proof.
  exact (train_model_log unit (fun m o _ _ => (m, o)) _ _ _ _ _ _ _ _ _ _ _
                         bare_model_training).
Defined.

(** ** The positional table, entry by entry *)

Lemma even_of_nat (j : nat) : Z.even (Z.of_nat j) = Nat.even j.
Proof.
  destruct (Nat.even j) eqn:E.
  - apply Nat.even_spec in E as [k ->].
    rewrite Nat2Z.inj_mul, Z.even_mul. reflexivity.
  - assert (Ho : Nat.odd j = true) by (unfold Nat.odd; now rewrite E).
    apply Nat.odd_spec in Ho as [k ->].
    replace (Z.of_nat (2 * k + 1)) with (1 + 2 * Z.of_nat k)%Z by lia.
    now rewrite Z.even_add_mul_2.
Qed.

(** X2. For valid arguments and an even width, the constructor returns a
    module whose dropout is in training mode and whose table has one row
    per position and one column per feature. Entry [(pos, j)] is the
    sine (even [j]) or the cosine (odd [j]) of [pos / 10000^(2j /
    d_model)]; it lies between -1 and 1, and the row of position 0 reads
    0, 1, 0, 1, ... *)
Theorem PositionalEncoder_init_entries (d_model max_seq_len : Z) (dropout : R) :
  0 <= dropout <= 1 -> (0 <= d_model)%Z -> Z.even d_model = true ->
  (0 <= max_seq_len)%Z ->
  exists pe : PositionalEncoder,
    PositionalEncoder_init d_model max_seq_len dropout = Ok pe
    /\ pe_d_model pe = d_model
    /\ pe_dropout pe = mkDropout dropout true
    /\ shaped (Z.to_nat max_seq_len) (Z.to_nat d_model) (pe_buffer pe)
    /\ forall pos j : nat,
         (pos < Z.to_nat max_seq_len)%nat -> (j < Z.to_nat d_model)%nat ->
         nth j (nth pos (pe_buffer pe) []) 0
         = (if Nat.even j
            then sin (INR pos / Rpower 10000 (INR (2 * j) / IZR d_model))
            else cos (INR pos / Rpower 10000 (INR (2 * j) / IZR d_model)))
         /\ -1 <= nth j (nth pos (pe_buffer pe) []) 0 <= 1
         /\ (pos = 0%nat ->
             nth j (nth pos (pe_buffer pe) []) 0 = if Nat.even j then 0 else 1).
Proof.
  intros Hp Hd He Hm. eexists.
  split; [apply PositionalEncoder_init_table; assumption |].
  cbn [pe_d_model pe_dropout pe_buffer].
  split; [reflexivity |]. split; [reflexivity |]. split.
  - unfold shaped, pe_code_table. rewrite length_map, length_seq.
    split; [reflexivity |]. apply Forall_forall. intros row Hrow.
    apply in_map_iff in Hrow as [pos [<- _]].
    unfold pe_code_row. now rewrite length_map, length_seq.
  - intros pos j Hpos Hj.
    assert (E : nth j (nth pos (pe_code_table d_model max_seq_len) []) 0
                = pe_code_entry d_model (Z.of_nat pos) (Z.of_nat j)).
    { unfold pe_code_table. rewrite nth_map_seq by exact Hpos.
      unfold pe_code_row. now rewrite nth_map_seq by exact Hj. }
    rewrite E. unfold pe_code_entry.
    rewrite <- !INR_IZR_INZ.
    replace (IZR (2 * Z.of_nat j)) with (INR (2 * j))
      by (rewrite INR_IZR_INZ; f_equal; lia).
    rewrite even_of_nat.
    split; [reflexivity |]. split.
    + destruct (Nat.even j); [apply SIN_bound | apply COS_bound].
    + intros ->. cbn [INR]. unfold Rdiv. rewrite Rmult_0_l.
      destruct (Nat.even j); [apply sin_0 | apply cos_0].
Qed.

Lemma PositionalEncoder_init_entries_witness :
  exists pe : PositionalEncoder,
    PositionalEncoder_init 4 2 (1 / 10) = Ok pe
    /\ pe_d_model pe = 4%Z
    /\ pe_dropout pe = mkDropout (1 / 10) true
    /\ shaped (Z.to_nat 2) (Z.to_nat 4) (pe_buffer pe)
    /\ forall pos j : nat,
         (pos < Z.to_nat 2)%nat -> (j < Z.to_nat 4)%nat ->
         nth j (nth pos (pe_buffer pe) []) 0
         = (if Nat.even j
            then sin (INR pos / Rpower 10000 (INR (2 * j) / IZR 4))
            else cos (INR pos / Rpower 10000 (INR (2 * j) / IZR 4)))
         /\ -1 <= nth j (nth pos (pe_buffer pe) []) 0 <= 1
         /\ (pos = 0%nat ->
             nth j (nth pos (pe_buffer pe) []) 0 = if Nat.even j then 0 else 1).
Proof.
  apply (PositionalEncoder_init_entries 4 2 (1 / 10)); [lra | lia | reflexivity | lia].
Defined.

(** ** The masked scores for any sequence length *)

Lemma length_imap {A B : Type} (f : nat -> A -> B) (l : list A) :
  forall i0, length (imap f i0 l) = length l.
Proof.
  induction l as [| x l IH]; intros i0; simpl; [reflexivity | now rewrite IH].
Qed.

Lemma nth_imap {A B : Type} (f : nat -> A -> B) (l : list A) (d : A) (d' : B) :
  forall i0 i, (i < length l)%nat ->
               nth i (imap f i0 l) d' = f (i0 + i)%nat (nth i l d).
Proof.
  induction l as [| x l IH]; intros i0 i Hi; [simpl in Hi; lia |].
  destruct i as [| i]; cbn [imap nth].
  - now rewrite Nat.add_0_r.
  - simpl in Hi. rewrite IH by lia. f_equal. lia.
Qed.

Lemma imap_constant {A B : Type} (f : nat -> A -> B) (c : B) (l : list A) :
  forall i0,
    (forall i x, (i0 <= i < i0 + length l)%nat -> f i x = c) ->
    imap f i0 l = repeat c (length l).
Proof.
  induction l as [| x l IH]; intros i0 H; [reflexivity |].
  cbn [imap length repeat]. rewrite H by (simpl; lia). f_equal.
  apply IH. intros i y Hi. apply H. simpl. lia.
Qed.

Lemma Rsum_repeat (a : R) (n : nat) : Rsum (repeat a n) = INR n * a.
Proof.
  induction n as [| n IH]; [simpl; ring |].
  cbn [repeat Rsum fold_right]. fold (Rsum (repeat a n)).
  rewrite IH, S_INR. ring.
Qed.

(** Equal scores get equal weights. *)
Lemma softmax_constant (c : R) (n : nat) :
  (0 < n)%nat -> softmax (repeat c n) = repeat (1 / INR n) n.
Proof.
  intros Hn. unfold softmax. rewrite !map_repeat, Rsum_repeat. f_equal.
  pose proof (exp_pos c). assert (INR n <> 0) by (apply not_0_INR; lia).
  field. split; lra.
Qed.

(** X6. With the mask of [no_peak_mask L] on [L] x [L] scores, the
    masking step of [attention] succeeds and keeps the shape; it
    overwrites every score on and below the diagonal (the present and
    the past) with the fill value 1e-9, and keeps every score above the
    diagonal (the future). The last row is overwritten entirely, so its
    softmax weights are all [1 / L]. *)
Theorem no_peak_mask_overwrites_past (L : nat) (scores : mat) :
  (0 < L)%nat -> shaped L L scores ->
  exists masked : mat,
    mask_scores (Some (no_peak_mask L)) scores = Ok masked
    /\ shaped L L masked
    /\ (forall i j : nat, (i < L)%nat -> (j < L)%nat ->
          nth j (nth i masked []) 0
          = if (j <=? i)%nat then mask_fill_value else nth j (nth i scores []) 0)
    /\ softmax (nth (L - 1) masked []) = repeat (1 / INR L) L.
Proof.
  intros HL [Hlen Hrows]. eexists.
  split; [apply mask_scores_no_peak; assumption |].
  assert (Hrow : forall i, (i < L)%nat -> length (nth i scores []) = L).
  { intros i Hi. rewrite Forall_forall in Hrows. apply Hrows, nth_In. lia. }
  split; [| split].
  - split; [now rewrite length_imap |].
    apply Forall_forall. intros row Hin.
    destruct (In_nth _ _ [] Hin) as [i [Hi <-]]. rewrite length_imap in Hi.
    rewrite (nth_imap _ _ []) by exact Hi. rewrite length_imap.
    apply Hrow. lia.
  - intros i j Hi Hj.
    rewrite (nth_imap _ _ []) by lia.
    rewrite (nth_imap _ _ 0) by (rewrite Hrow; lia).
    reflexivity.
  - rewrite (nth_imap _ _ []) by lia.
    rewrite (imap_constant _ mask_fill_value).
    + rewrite Hrow by lia. now apply softmax_constant.
    + intros j x Hj. rewrite Hrow in Hj by lia.
      destruct (Nat.leb_spec j (0 + (L - 1))); [reflexivity | lia].
Qed.

Lemma no_peak_mask_overwrites_past_witness :
  exists masked : mat,
    mask_scores (Some (no_peak_mask 2)) [[3; 4]; [5; 6]] = Ok masked
    /\ shaped 2 2 masked
    /\ (forall i j : nat, (i < 2)%nat -> (j < 2)%nat ->
          nth j (nth i masked []) 0
          = if (j <=? i)%nat then mask_fill_value
            else nth j (nth i [[3; 4]; [5; 6]] []) 0)
    /\ softmax (nth (2 - 1) masked []) = repeat (1 / INR 2) 2.
Proof.
  apply (no_peak_mask_overwrites_past 2 [[3; 4]; [5; 6]]); [lia |].
  split; [reflexivity | repeat constructor].
Defined.

(** ** Attention at the last position *)

Lemma length_transpose (m : mat) :
  length (transpose m) = length (hd [] m).
Proof.
  destruct m as [| r m]; [reflexivity |].
  unfold transpose. now rewrite length_map, length_seq.
Qed.

Lemma transpose_rows (m : mat) :
  Forall (fun col => length col = length m) (transpose m).
Proof.
  destruct m as [| r m]; [constructor |].
  unfold transpose. apply Forall_forall. intros col Hin.
  apply in_map_iff in Hin as [j [<- _]]. now rewrite length_map.
Qed.

Lemma dot_repeat (c : R) (u : vec) : dot (repeat c (length u)) u = c * Rsum u.
Proof.
  unfold dot. induction u as [| x u IH]; [simpl; ring |].
  cbn [length repeat map2 Rsum fold_right].
  fold (Rsum (map2 Rmult (repeat c (length u)) u)). fold (Rsum u).
  rewrite IH. ring.
Qed.

(** The scores of [L] queries against [L] keys of positive width. *)
Lemma scores_shaped (L d : nat) (q k : mat) (c : R) :
  (0 < L)%nat -> (0 < d)%nat -> length q = L -> shaped L d k ->
  shaped L L (mat_div (matmul q (transpose k)) c).
Proof.
  intros HL Hd Hq [Hk Hkr]. unfold shaped, mat_div, matmul.
  rewrite !length_map. split; [exact Hq |].
  apply Forall_forall. intros row Hin.
  apply in_map_iff in Hin as [r0 [<- Hin]].
  apply in_map_iff in Hin as [r1 [<- _]].
  rewrite !length_map, length_transpose.
  destruct k as [| r k]; [simpl in Hk; lia |].
  inversion Hkr as [| ? ? Hr _]; subst.
  unfold transpose. cbn [hd].
  destruct (length r) as [| n] eqn:E; [lia |].
  cbn [seq map hd length]. rewrite ?length_map. simpl in Hk. lia.
Qed.

(** X7. With the mask of [no_peak_mask], the output of [attention] at
    the last position is the plain average of the value vectors over all
    positions, whatever the queries and keys are: every score of the
    last row has been overwritten with the same fill value. (One batch
    element and one head, [L] positions of width [d], no dropout.) *)
Theorem attention_last_position_averages
        (L d : nat) (q k v : mat) (g : Generator) :
  (0 < L)%nat -> (0 < d)%nat ->
  shaped L d q -> shaped L d k -> shaped L d v ->
  exists o : mat,
    attention [[q]] [[k]] [[v]] d (Some (no_peak_mask L)) None g = Ok ([[o]], g)
    /\ length o = L
    /\ nth (L - 1) o [] = map mean (transpose v).
Proof.
  intros HL Hd [Hq _] Hk [Hv _].
  pose proof (scores_shaped L d q k (sqrt (INR d)) HL Hd Hq Hk) as Hs.
  destruct Hs as [Hsl Hsr].
  unfold attention. cbn [map2 map sequence].
  rewrite (mask_scores_no_peak L) by assumption.
  cbn [lift]. unfold bind, ret. eexists. split; [reflexivity |].
  set (masked := imap _ 0%nat _).
  assert (Hm : length masked = L) by (unfold masked; now rewrite length_imap).
  split.
  - unfold matmul. now rewrite !length_map.
  - unfold matmul at 1.
    assert (Hm' : (L - 1 < length masked)%nat) by lia.
    rewrite (@nth_map_in vec vec _ _ _ [] []) by (rewrite length_map; exact Hm').
    rewrite (@nth_map_in vec vec _ _ _ [] []) by exact Hm'.
    assert (Hlast : softmax (@nth vec (L - 1) masked []) = repeat (1 / INR L) L).
    { change (@nth vec) with (@nth (list R)). unfold masked.
      rewrite (nth_imap _ _ []) by lia.
      assert (Hrow : length (nth (L - 1)
                                 (mat_div (matmul q (transpose k)) (sqrt (INR d))) [])
                     = L).
      { rewrite Forall_forall in Hsr. apply Hsr, nth_In. lia. }
      rewrite (imap_constant _ mask_fill_value).
      - rewrite Hrow. now apply softmax_constant.
      - intros j x Hj. rewrite Hrow in Hj.
        destruct (Nat.leb_spec j (0 + (L - 1))); [reflexivity | lia]. }
    rewrite Hlast. apply map_ext_in. intros col Hcol.
    pose proof (transpose_rows v) as Hc. rewrite Forall_forall in Hc.
    specialize (Hc col Hcol). rewrite Hv in Hc.
    replace (repeat (1 / INR L) L) with (repeat (1 / INR L) (length col))
      by now rewrite Hc.
    rewrite dot_repeat. unfold mean. rewrite Hc.
    unfold Rdiv. ring.
Qed.

Lemma attention_last_position_averages_witness :
  exists o : mat,
    attention [[ [[1]; [2]] ]] [[ [[3]; [4]] ]] [[ [[0]; [1]] ]] 1
              (Some (no_peak_mask 2)) None (fun _ => true)
    = Ok ([[o]], fun _ => true)
    /\ length o = 2%nat
    /\ nth (2 - 1) o [] = map mean (transpose [[0]; [1]]).
Proof.
  apply (attention_last_position_averages 2 1); try lia;
    (split; [reflexivity | repeat constructor]).
Defined.

(** ** What a decoder layer does not do *)

Lemma Norm_forward_shift (n : Norm) (c : R) (x : tensor3) :
  Forall (Forall (fun tok : vec => tok <> [])) x ->
  Norm_forward n (map (map (map (fun xi => xi + c))) x) = Norm_forward n x.
Proof.
  intros H. unfold Norm_forward. rewrite map_map.
  apply map_ext_in. intros xb Hxb. rewrite map_map.
  apply map_ext_in. intros tok Htok. apply Norm_vec_shift.
  rewrite Forall_forall in H. specialize (H xb Hxb).
  rewrite Forall_forall in H. now apply H.
Qed.

(** X9. A decoder layer has no skip connection: its input reaches the
    output only through the first normalisation. Adding the same
    constant to every feature of every token therefore changes nothing
    in what the layer returns (tokens of at least two features, positive
    [eps]). *)
Theorem DecoderLayer_forward_no_residual
        (l : DecoderLayer) (x : tensor3) (c : R) (trg_mask : option xmat)
        (g : Generator) :
  Forall (Forall (fun tok : vec => (2 <= length tok)%nat)) x ->
  0 < norm_eps (norm_1 l) ->
  DecoderLayer_forward l (map (map (map (fun xi => xi + c))) x) trg_mask g
  = DecoderLayer_forward l x trg_mask g.
Proof.
  intros H _. unfold DecoderLayer_forward.
  rewrite Norm_forward_shift; [reflexivity |].
  refine (Forall_impl _ _ H). intros xb Hxb.
  refine (Forall_impl _ _ Hxb). intros tok Htok ->. simpl in Htok. lia.
Qed.

Lemma DecoderLayer_forward_no_residual_witness :
  DecoderLayer_forward two_norm_layer
                       (map (map (map (fun xi => xi + 5))) [[[1; 3]]])
                       (Some (no_peak_mask 1)) (fun _ => true)
  = DecoderLayer_forward two_norm_layer [[[1; 3]]]
                         (Some (no_peak_mask 1)) (fun _ => true).
Proof.
  apply DecoderLayer_forward_no_residual.
  - repeat constructor.
  - simpl. lra.
Defined.

Lemma DecoderLayer_forward_live (l l' : DecoderLayer) (x : tensor3)
      (mask : option xmat) :
  norm_1 l = norm_1 l' -> norm_2 l = norm_2 l' ->
  dropout_1 l = dropout_1 l' -> attn_1 l = attn_1 l' ->
  DecoderLayer_forward l x mask = DecoderLayer_forward l' x mask.
Proof.
  intros H1 H2 H3 H4. unfold DecoderLayer_forward. now rewrite H1, H2, H3, H4.
Qed.

Lemma Decoder_layers_live (layers layers' : list DecoderLayer) (idx : list nat)
      (mask : option xmat) :
  Forall2 (fun l l' => norm_1 l = norm_1 l' /\ norm_2 l = norm_2 l'
                       /\ dropout_1 l = dropout_1 l' /\ attn_1 l = attn_1 l')
          layers layers' ->
  forall x g, Decoder_layers layers idx x mask g = Decoder_layers layers' idx x mask g.
Proof.
  intros H. induction idx as [| i idx IH]; intros x g; [reflexivity |].
  cbn [Decoder_layers].
  assert (E : match nth_error layers i, nth_error layers' i with
              | Some l, Some l' =>
                  norm_1 l = norm_1 l' /\ norm_2 l = norm_2 l'
                  /\ dropout_1 l = dropout_1 l' /\ attn_1 l = attn_1 l'
              | None, None => True
              | _, _ => False
              end).
  { clear - H. revert i. induction H as [| l l' ls ls' Hl _ IHl]; intros [| i];
      cbn [nth_error]; auto. apply IHl. }
  destruct (nth_error layers i) as [l |], (nth_error layers' i) as [l' |];
    try contradiction; [| reflexivity].
  destruct E as [H1 [H2 [H3 H4]]].
  rewrite (DecoderLayer_forward_live l l' x mask H1 H2 H3 H4).
  apply bind_ext. intros y g'. apply IH.
Qed.

(** X11. The feed-forward block, the third normalisation and the third
    dropout of a decoder layer are constructed but never applied: two
    models that differ only in these give the same forward pass, from
    every generator state. *)
Theorem Transformer_forward_unused_sublayers
        (m m' : Transformer) (trg : list (list Z)) (trg_mask : option xmat)
        (g : Generator) :
  out m = out m' ->
  dec_N (decoder m) = dec_N (decoder m') ->
  dec_embed (decoder m) = dec_embed (decoder m') ->
  dec_pe (decoder m) = dec_pe (decoder m') ->
  dec_norm (decoder m) = dec_norm (decoder m') ->
  Forall2 (fun l l' => norm_1 l = norm_1 l' /\ norm_2 l = norm_2 l'
                       /\ dropout_1 l = dropout_1 l' /\ attn_1 l = attn_1 l')
          (dec_layers (decoder m)) (dec_layers (decoder m')) ->
  Transformer_forward m trg trg_mask g = Transformer_forward m' trg trg_mask g.
Proof.
  intros Ho HN He Hp Hn Hl. unfold Transformer_forward, Decoder_forward.
  rewrite Ho, HN, He, Hp, Hn. rewrite !bind_assoc.
  apply bind_ext. intros x0 g0. rewrite !bind_assoc.
  apply bind_ext. intros x1 g1. rewrite !bind_assoc.
  unfold bind. rewrite (Decoder_layers_live _ _ _ _ Hl). reflexivity.
Qed.

Lemma Transformer_forward_unused_sublayers_witness :
  Transformer_forward tiny_model [[0%Z]] (Some (no_peak_mask 1)) (fun _ => true)
  = Transformer_forward
      (mkTransformer
         (mkDecoder 1 (mkEmbedder 2 [[1; 0]; [0; 1]])
                    (mkPE 2 eval_dropout [[0; 1]; [0; 1]])
                    [mkDecoderLayer (norm_1 two_norm_layer) (norm_2 two_norm_layer)
                                    (mkNorm 2 [5; 5] [7; 7] 1e-6)
                                    (dropout_1 two_norm_layer)
                                    (mkDropout (1 / 2) true)
                                    (attn_1 two_norm_layer)
                                    (mkFF id_linear2 eval_dropout id_linear2)]
                    (mkNorm 2 [0; 0] [0; 0] 1e-6))
         id_linear2)
      [[0%Z]] (Some (no_peak_mask 1)) (fun _ => true).
Proof.
  apply Transformer_forward_unused_sublayers; try reflexivity.
  repeat constructor.
Defined.

(** ** The range of the reported loss and perplexity *)

Lemma for_each_inv {S A : Type} (P : S -> Prop) (f : S -> A -> M S) (l : list A) :
  (forall s x g s' g', P s -> f s x g = Ok (s', g') -> P s') ->
  forall s g s' g', P s -> for_each f l s g = Ok (s', g') -> P s'.
Proof.
  intros Hf. induction l as [| x l IH]; intros s g s' g' Hs H.
  - injection H as <- _. exact Hs.
  - cbn [for_each] in H. unfold bind in H.
    destruct (f s x g) as [[s1 g1] |] eqn:E; [| discriminate].
    exact (IH _ _ _ _ (Hf _ _ _ _ _ Hs E) H).
Qed.

(** A loss value: NaN, or a finite number that is not negative. *)
Lemma CrossEntropyLoss_forward_value
      (l : CrossEntropyLoss) (input : mat) (target : list Z) (x : xfloat) :
  CrossEntropyLoss_forward l input target = Ok x ->
  x = NaN \/ exists v, x = Fin v /\ 0 <= v.
Proof.
  unfold CrossEntropyLoss_forward.
  destruct (negb _); [discriminate |].
  destruct (ce_terms (ignore_index l) input target) as [terms |] eqn:Et;
    [| discriminate].
  cbn [rbind]. intros H. injection H as <-.
  destruct terms as [| v terms]; [now left | right].
  eexists. split; [reflexivity |].
  apply Rmult_le_pos.
  - apply Rsum_nonneg. now apply (ce_terms_nonneg (ignore_index l) input target).
  - apply Rlt_le, Rinv_0_lt_compat, lt_0_INR. simpl. lia.
Qed.

Lemma forward_loss_value (model : Transformer) (loss : CrossEntropyLoss)
      (batch : Batch) (g g' : Generator) (x : xfloat) :
  forward_loss model loss batch g = Ok (x, g') ->
  x = NaN \/ exists v, x = Fin v /\ 0 <= v.
Proof.
  unfold forward_loss, bind.
  destruct (Transformer_forward _ _ _ g) as [[output g1] |]; [| discriminate].
  unfold batch_loss.
  destruct (CrossEntropyLoss_forward _ _ _) as [y |] eqn:E; [| discriminate].
  cbn [lift]. unfold ret. intros H. injection H as <- _.
  now apply CrossEntropyLoss_forward_value in E.
Qed.

Lemma total_loss_value (model : Transformer) (loss : CrossEntropyLoss)
      (dl : list Batch) (g g' : Generator) (total : xfloat) :
  for_each (fun total_loss batch =>
              loss <- forward_loss model loss batch ;;
              ret (xadd total_loss loss))
           dl (Fin 0) g = Ok (total, g') ->
  total = NaN \/ exists v, total = Fin v /\ 0 <= v.
Proof.
  apply (for_each_inv (fun t => t = NaN \/ exists v, t = Fin v /\ 0 <= v)).
  - intros s x g0 s' g0' Hs H. unfold bind in H.
    destruct (forward_loss model loss x g0) as [[y g1] |] eqn:E; [| discriminate].
    unfold ret in H. injection H as <- _.
    apply forward_loss_value in E.
    destruct Hs as [-> | [v [-> Hv]]]; [now left |].
    destruct E as [-> | [w [-> Hw]]]; [now left | right].
    exists (v + w). split; [reflexivity | lra].
  - right. exists 0. split; [reflexivity | lra].
Qed.

(** X20. What [validate] and [test] report. The average loss is either
    NaN (some batch had no target to score) or a finite number that is
    not negative; the perplexity is its exponential, so NaN or at least
    1. *)
Theorem validate_reports_range
        (model model' : Transformer) (dataloader : list Batch)
        (loss : CrossEntropyLoss) (avg_loss perplexity : xfloat)
        (g g' : Generator) :
  validate model dataloader loss g = Ok ((avg_loss, perplexity, model'), g')
  \/ test model dataloader loss g = Ok ((avg_loss, perplexity, model'), g') ->
  (avg_loss = NaN /\ perplexity = NaN)
  \/ (exists v, avg_loss = Fin v /\ 0 <= v
                /\ perplexity = Fin (exp v) /\ 1 <= exp v).
Proof.
  assert (Hv : validate model dataloader loss g
               = Ok ((avg_loss, perplexity, model'), g') ->
               (avg_loss = NaN /\ perplexity = NaN)
               \/ (exists v, avg_loss = Fin v /\ 0 <= v
                             /\ perplexity = Fin (exp v) /\ 1 <= exp v)).
  { unfold validate. unfold bind at 1.
    destruct (for_each _ dataloader (Fin 0) g) as [[total g1] |] eqn:E;
      [| discriminate].
    apply total_loss_value in E.
    destruct dataloader as [| b dl]; [discriminate |].
    unfold ret. intros H. injection H as <- <- _ _.
    destruct E as [-> | [v [-> Hv]]]; [left; split; reflexivity | right].
    cbn [xdiv xexp]. set (q := v / INR (length (b :: dl))).
    assert (Hq : 0 <= q).
    { apply Rmult_le_pos; [exact Hv |].
      apply Rlt_le, Rinv_0_lt_compat, lt_0_INR. simpl. lia. }
    exists q. split; [reflexivity |].
    split; [exact Hq |]. split; [reflexivity |].
    destruct Hq as [Hq | Hq]; [| rewrite <- Hq, exp_0; lra].
    apply Rlt_le. rewrite <- exp_0. now apply exp_increasing. }
  intros [H | H]; apply Hv; exact H.
Qed.

Lemma validate_reports_range_witness :
  (Fin (ln 2) = NaN /\ Fin 2 = NaN)
  \/ (exists v, Fin (ln 2) = Fin v /\ 0 <= v /\ Fin 2 = Fin (exp v) /\ 1 <= exp v).
Proof.
  refine (validate_reports_range
            tiny_model (Transformer_train false tiny_model)
            [([[0%Z]], [[1%Z]])] loss_fn (Fin (ln 2)) (Fin 2)
            (fun _ => true) (fun _ => true) (or_introl _)).
  unfold validate. cbn [for_each].
  unfold bind at 1. unfold bind at 1. unfold bind at 1.
  rewrite tiny_model_loss. unfold ret, bind.
  cbn [xadd xdiv xexp length INR].
  replace ((0 + ln 2) / 1) with (ln 2) by lra.
  rewrite exp_ln by lra. reflexivity.
Defined.

(** ** The shape of the forward pass *)

Lemma returns_ret {A : Type} (P : A -> Prop) (a : A) : P a -> returns P (ret a).
Proof. intros H g. now exists a, g. Qed.

Lemma returns_bind {A B : Type} (P : A -> Prop) (Q : B -> Prop)
      (m : M A) (f : A -> M B) :
  returns P m -> (forall a, P a -> returns Q (f a)) -> returns Q (bind m f).
Proof.
  intros Hm Hf g. destruct (Hm g) as (a & g1 & E & Ha).
  destruct (Hf a Ha g1) as (b & g2 & E2 & Hb).
  exists b, g2. split; [| exact Hb]. unfold bind. now rewrite E.
Qed.

Lemma returns_lift {A : Type} (P : A -> Prop) (r : Result A) (a : A) :
  r = Ok a -> P a -> returns P (lift r).
Proof. intros -> H g. now exists a, g. Qed.

Lemma returns_impl {A : Type} (P Q : A -> Prop) (m : M A) :
  (forall a, P a -> Q a) -> returns P m -> returns Q m.
Proof.
  intros H Hm g. destruct (Hm g) as (a & g' & E & Ha). exists a, g'. auto.
Qed.

Lemma returns_mapM {A B : Type} (P : A -> B -> Prop) (f : A -> M B) (l : list A) :
  (forall a, In a l -> returns (P a) (f a)) ->
  returns (Forall2 P l) (mapM f l).
Proof.
  induction l as [| x l IH]; intros H; cbn [mapM].
  - apply returns_ret. constructor.
  - apply (returns_bind (P x)); [apply H; now left |]. intros y Hy.
    apply (returns_bind (Forall2 P l)); [apply IH; intros a Ha; apply H; now right |].
    intros ys Hys. apply returns_ret. now constructor.
Qed.

Lemma Forall2_length_eq {A B : Type} (l : list A) (l' : list B) :
  Forall2 (fun _ _ => True) l l' <-> length l = length l'.
Proof.
  split.
  - induction 1; simpl; congruence.
  - revert l'. induction l as [| x l IH]; intros [| y l'] H; simpl in H;
      try discriminate; constructor; auto.
Qed.

(** Dropout keeps the shape, in either mode. *)
Lemma dropout_rows (p : R) (row : vec) :
  returns (fun row' => length row' = length row) (mapM (dropout_entry p) row).
Proof.
  apply (returns_impl (Forall2 (fun _ _ => True) row)).
  - intros a H. symmetry. now apply Forall2_length_eq.
  - apply returns_mapM. intros a _ g. unfold dropout_entry, bind, draw, ret.
    do 2 eexists. split; [reflexivity | exact I].
Qed.

Lemma Forall2_shaped (L W : nat) (m m' : mat) :
  shaped L W m -> Forall2 (fun r r' : vec => length r' = length r) m m' ->
  shaped L W m'.
Proof.
  intros [Hl Hr] H. split.
  - rewrite <- Hl. symmetry. clear - H. induction H; simpl; congruence.
  - clear Hl. induction H as [| r r' m m' E _ IH]; constructor.
    + inversion Hr; subst. congruence.
    + apply IH. now inversion Hr.
Qed.

Lemma dropout_mat (p : R) (L W : nat) (m : mat) :
  shaped L W m -> returns (shaped L W) (mapM (mapM (dropout_entry p)) m).
Proof.
  intros Hm.
  apply (returns_impl (Forall2 (fun r r' : vec => length r' = length r) m)).
  - intros m' H. now apply (Forall2_shaped L W m).
  - apply returns_mapM. intros row _. apply dropout_rows.
Qed.

Lemma Forall2_Forall_r {A B : Type} (P : A -> Prop) (Q : B -> Prop)
      (l : list A) (l' : list B) :
  Forall P l -> Forall2 (fun a b => P a -> Q b) l l' -> Forall Q l'.
Proof.
  intros Hl H. induction H as [| a b l l' Hab _ IH]; constructor.
  - apply Hab. now inversion Hl.
  - apply IH. now inversion Hl.
Qed.

Lemma Forall2_same_length {A B : Type} (P : A -> B -> Prop) (l : list A) (l' : list B) :
  Forall2 P l l' -> length l' = length l.
Proof. induction 1; simpl; congruence. Qed.

Lemma Dropout_forward_shaped (d : Dropout) (B L W : nat) (x : tensor3) :
  shaped3 B L W x -> returns (shaped3 B L W) (Dropout_forward d x).
Proof.
  intros [Hl Hx]. unfold Dropout_forward.
  destruct (drop_training d); [| apply returns_ret; now split].
  apply (returns_impl (Forall2 (fun m m' => shaped L W m -> shaped L W m') x)).
  - intros x' H. split.
    + rewrite <- Hl. now apply Forall2_same_length in H.
    + exact (Forall2_Forall_r _ _ _ _ Hx H).
  - apply returns_mapM. intros m Hm.
    rewrite Forall_forall in Hx.
    apply (returns_impl (shaped L W)); [auto |].
    apply dropout_mat. now apply Hx.
Qed.

Lemma length_map2 {A B C : Type} (f : A -> B -> C) (l : list A) (l' : list B) :
  length (map2 f l l') = Nat.min (length l) (length l').
Proof.
  revert l'. induction l as [| x l IH]; intros [| y l']; simpl; auto.
Qed.

Lemma shaped_map (L W W' : nat) (f : vec -> vec) (m : mat) :
  (forall r, length r = W -> length (f r) = W') ->
  shaped L W m -> shaped L W' (map f m).
Proof.
  intros Hf [Hl Hr]. split; [now rewrite length_map |].
  apply Forall_map. refine (Forall_impl _ _ Hr). exact Hf.
Qed.

Lemma shaped3_map (B L W W' : nat) (f : vec -> vec) (x : tensor3) :
  (forall r, length r = W -> length (f r) = W') ->
  shaped3 B L W x -> shaped3 B L W' (map (map f) x).
Proof.
  intros Hf [Hl Hx]. split; [now rewrite length_map |].
  apply Forall_map. refine (Forall_impl _ _ Hx).
  intros m. now apply shaped_map.
Qed.

Lemma Linear_forward_shaped (d_in d_out B L : nat) (l : Linear) (x : tensor3) :
  Linear_shaped d_in d_out l -> shaped3 B L d_in x ->
  shaped3 B L d_out (Linear_forward l x).
Proof.
  intros [[Hw _] Hb]. apply shaped3_map. intros r _.
  unfold Linear_vec. rewrite length_map2. unfold mat, vec in *. lia.
Qed.

Lemma Norm_forward_shaped (d B L : nat) (n : Norm) (x : tensor3) :
  Norm_shaped d n -> shaped3 B L d x -> shaped3 B L d (Norm_forward n x).
Proof.
  intros [Ha Hb]. apply shaped3_map. intros r Hr.
  unfold Norm_vec. rewrite !length_map2. unfold vec in *. lia.
Qed.

Lemma Embedder_forward_shaped (vocab d B L : nat) (e : Embedder)
      (trg : list (list Z)) :
  shaped vocab d (emb_weight e) ->
  length trg = B -> Forall (fun row => length row = L) trg ->
  Forall (Forall (fun id => (0 <= id < Z.of_nat vocab)%Z)) trg ->
  exists x, Embedder_forward e trg = Ok x /\ shaped3 B L d x.
Proof.
  intros Hw HB HL Hid. eexists. split.
  - unfold Embedder_forward.
    apply (sequence_map_all _
             (map (fun id => nth (Z.to_nat id) (emb_weight e) []))).
    intros row Hrow. apply sequence_map_all. intros id Hin.
    rewrite Forall_forall in Hid. specialize (Hid row Hrow).
    rewrite Forall_forall in Hid. specialize (Hid id Hin).
    unfold embedding_lookup. destruct Hw as [Hw _]. rewrite Hw.
    destruct (Z.leb_spec 0 id); [| lia].
    destruct (Z.ltb_spec id (Z.of_nat vocab)); [reflexivity | lia].
  - split; [now rewrite length_map |].
    apply Forall_map. rewrite Forall_forall in *. intros row Hrow.
    split; [rewrite length_map; now apply HL |].
    apply Forall_map. specialize (Hid row Hrow).
    refine (Forall_impl _ _ Hid). intros id Hrange.
    apply (shaped_nth vocab d); [exact Hw | lia].
Qed.

Lemma shaped_map2 (L W : nat) (f : vec -> vec -> vec) (m m' : mat) :
  (forall r r', length r = W -> length r' = W -> length (f r r') = W) ->
  shaped L W m -> shaped L W m' -> shaped L W (map2 f m m').
Proof.
  intros Hf [Hl Hr] [Hl' Hr']. split.
  - rewrite length_map2. unfold mat, vec in *. lia.
  - clear Hl Hl'. revert m' Hr'. induction Hr as [| r m Hr0 _ IH]; intros m' Hr';
      [constructor |].
    destruct Hr' as [| r' m' Hr0' Hr']; cbn [map2]; constructor; auto.
Qed.

Lemma shaped_firstn (n L W : nat) (m : mat) :
  (n <= L)%nat -> shaped L W m -> shaped n W (firstn n m).
Proof.
  intros Hn [Hl Hr]. split.
  - rewrite length_firstn. lia.
  - apply Forall_forall. intros r Hin. rewrite Forall_forall in Hr.
    apply Hr. rewrite <- (firstn_skipn n m). apply in_or_app. now left.
Qed.

Lemma PositionalEncoder_forward_shaped (d max_len B L : nat)
      (p : PositionalEncoder) (x : tensor3) :
  shaped max_len d (pe_buffer p) -> (0 < B)%nat -> (L <= max_len)%nat ->
  shaped3 B L d x ->
  returns (shaped3 B L d) (PositionalEncoder_forward p x).
Proof.
  intros Hpe HB HL Hx. unfold PositionalEncoder_forward.
  set (scaled := map (map (map (fun e => e * sqrt (IZR (pe_d_model p))))) x).
  assert (Hs : shaped3 B L d scaled).
  { unfold scaled. apply (shaped3_map B L d d); [| exact Hx].
    intros r Hr. now rewrite length_map. }
  assert (Hlen : length (hd [] scaled) = L).
  { destruct Hs as [Hl Hf]. destruct scaled as [| xb rest]; [simpl in Hl; lia |].
    inversion Hf as [| ? ? Hb _]; subst. exact (proj1 Hb). }
  rewrite Hlen.
  pose proof (shaped_firstn L max_len d _ HL Hpe) as Hfirst.
  apply (returns_bind (shaped3 B L d)).
  - apply (returns_lift _ _ (map (fun xb => map2 (map2 Rplus) xb
                                               (firstn L (pe_buffer p))) scaled)).
    + unfold add_positional. apply sequence_map_all. intros xb Hin.
      destruct Hs as [_ Hf]. rewrite Forall_forall in Hf.
      destruct (Hf xb Hin) as [Hb _].
      rewrite broadcast_pair_same by (destruct Hfirst; congruence).
      now rewrite (map_combine_map2 (map2 Rplus)).
    + destruct Hs as [Hl Hf]. split; [now rewrite length_map |].
      apply Forall_map. refine (Forall_impl _ _ Hf). intros xb Hxb.
      apply shaped_map2; [| exact Hxb | exact Hfirst].
      intros r r' Hr Hr'. rewrite length_map2. lia.
  - intros y Hy. now apply Dropout_forward_shaped.
Qed.

Lemma Forall_map2 {A B C : Type} (P : A -> Prop) (Q : B -> Prop) (R : C -> Prop)
      (f : A -> B -> C) (l : list A) (l' : list B) :
  (forall a b, P a -> Q b -> R (f a b)) ->
  Forall P l -> Forall Q l' -> Forall R (map2 f l l').
Proof.
  intros Hf Hl. revert l'. induction Hl as [| a l Ha _ IH]; intros l' Hl';
    [constructor |].
  destruct Hl' as [| b l' Hb Hl']; cbn [map2]; constructor; auto.
Qed.

Lemma shaped3_map2 (h L W L' W' L'' W'' : nat) (f : mat -> mat -> mat)
      (b b' : tensor3) :
  (forall m m', shaped L W m -> shaped L' W' m' -> shaped L'' W'' (f m m')) ->
  shaped3 h L W b -> shaped3 h L' W' b' -> shaped3 h L'' W'' (map2 f b b').
Proof.
  intros Hf [Hl Hb] [Hl' Hb']. split.
  - rewrite length_map2. unfold tensor3, mat, vec in *. lia.
  - exact (Forall_map2 _ _ _ f b b' Hf Hb Hb').
Qed.

Lemma split_heads_shaped (h d_k L : nat) (x : mat) :
  shaped L (h * d_k) x -> shaped3 h L d_k (split_heads h d_k x).
Proof.
  intros [Hl Hr]. unfold split_heads. split.
  - now rewrite length_map, length_seq.
  - apply Forall_map. apply Forall_forall. intros j Hj. apply in_seq in Hj.
    split; [now rewrite length_map |].
    apply Forall_map. refine (Forall_impl _ _ Hr). intros row Hrow.
    rewrite length_firstn, length_skipn, Hrow. nia.
Qed.

Lemma length_concat_rows {A : Type} (w : nat) (l : list (list A)) :
  Forall (fun r => length r = w) l -> length (concat l) = (length l * w)%nat.
Proof.
  induction 1 as [| r l Hr _ IH]; [reflexivity |].
  cbn [concat length]. rewrite length_app, IH, Hr. lia.
Qed.

Lemma merge_heads_shaped (h d_k L : nat) (hs : tensor3) :
  (0 < h)%nat -> shaped3 h L d_k hs -> shaped L (h * d_k) (merge_heads hs).
Proof.
  intros Hh [Hl Hf]. destruct hs as [| m hs]; [simpl in Hl; lia |].
  unfold merge_heads.
  assert (Hm : length m = L) by (inversion Hf as [| ? ? Hs _]; exact (proj1 Hs)).
  rewrite Hm. split; [now rewrite length_map, length_seq |].
  apply Forall_map. apply Forall_forall. intros t Ht. apply in_seq in Ht.
  rewrite (length_concat_rows d_k).
  - rewrite length_map. unfold tensor3, mat, vec in *. rewrite Hl. reflexivity.
  - apply Forall_map. refine (Forall_impl _ _ Hf). intros hm Hhm.
    apply (shaped_nth L d_k); [exact Hhm | lia].
Qed.

Lemma matmul_shaped (L L' d : nat) (p v : mat) :
  (0 < L')%nat -> length p = L -> shaped L' d v -> shaped L d (matmul p v).
Proof.
  intros HL Hp [Hv Hr]. unfold matmul. split; [now rewrite length_map |].
  apply Forall_map. apply Forall_forall. intros row _.
  rewrite length_map, length_transpose.
  destruct v as [| r v]; [simpl in Hv; lia |].
  cbn [hd]. now inversion Hr.
Qed.

Lemma masked_shaped (L : nat) (s : mat) :
  shaped L L s ->
  shaped L L (imap (fun i row =>
                      imap (fun j x => if (j <=? i)%nat then mask_fill_value else x)
                           0%nat row)
                   0%nat s).
Proof.
  intros [Hl Hr]. split; [now rewrite length_imap |].
  apply Forall_forall. intros row Hin.
  destruct (In_nth _ _ [] Hin) as [i [Hi <-]]. rewrite length_imap in Hi.
  rewrite (nth_imap _ _ []) by exact Hi. rewrite length_imap.
  rewrite Forall_forall in Hr. apply Hr, nth_In. exact Hi.
Qed.

Lemma length_softmax (r : vec) : length (softmax r) = length r.
Proof. unfold softmax. now rewrite !length_map. Qed.

Lemma Dropout_forward4_shaped (d : Dropout) (B h L W : nat) (x : tensor4) :
  length x = B -> Forall (shaped3 h L W) x ->
  returns (fun y => length y = B /\ Forall (shaped3 h L W) y)
          (Dropout_forward4 d x).
Proof.
  intros Hl Hx. unfold Dropout_forward4.
  destruct (drop_training d); [| apply returns_ret; now split].
  apply (returns_impl
           (Forall2 (fun b b' => shaped3 h L W b -> shaped3 h L W b') x)).
  - intros x' H. split.
    + rewrite <- Hl. now apply Forall2_same_length in H.
    + exact (Forall2_Forall_r _ _ _ _ Hx H).
  - apply returns_mapM. intros b Hb.
    rewrite Forall_forall in Hx.
    apply (returns_impl (shaped3 h L W)); [auto |].
    apply (Dropout_forward_shaped (mkDropout (drop_p d) true)). now apply Hx.
Qed.

(** Masked attention keeps the shape batch x heads x positions x width. *)
Lemma attention_shaped (B h L d_k : nat) (q k v : tensor4) (d : Dropout) :
  (0 < L)%nat -> (0 < d_k)%nat ->
  length q = B -> Forall (shaped3 h L d_k) q ->
  length k = B -> Forall (shaped3 h L d_k) k ->
  length v = B -> Forall (shaped3 h L d_k) v ->
  returns (fun o => length o = B /\ Forall (shaped3 h L d_k) o)
          (attention q k v d_k (Some (no_peak_mask L)) (Some d)).
Proof.
  intros HL Hd Hql Hq Hkl Hk Hvl Hv. unfold attention.
  set (F := fun qh kh : mat => mat_div (matmul qh (transpose kh)) (sqrt (INR d_k))).
  set (scores := map2 (map2 F) q k).
  assert (Hsl : length scores = B).
  { unfold scores. rewrite length_map2. unfold tensor4, tensor3, mat, vec in *. lia. }
  assert (Hs : Forall (shaped3 h L L) scores).
  { unfold scores. refine (Forall_map2 _ _ _ _ q k _ Hq Hk).
    intros b b'. apply shaped3_map2. intros m m' [Hm _] Hm'.
    now apply (scores_shaped L d_k). }
  set (maskf := fun s : mat =>
                  imap (fun i row =>
                          imap (fun j x => if (j <=? i)%nat then mask_fill_value else x)
                               0%nat row)
                       0%nat s).
  apply (returns_bind (fun o => length o = B /\ Forall (shaped3 h L L) o)).
  - apply (returns_lift _ _ (map (map maskf) scores)).
    + apply sequence_map_all. intros b Hb. apply sequence_map_all. intros s Hin.
      rewrite Forall_forall in Hs. destruct (Hs b Hb) as [_ Hbs].
      rewrite Forall_forall in Hbs. destruct (Hbs s Hin) as [Hsl' Hsr].
      now apply mask_scores_no_peak.
    + split; [now rewrite length_map |].
      apply Forall_map. refine (Forall_impl _ _ Hs). intros b [Hbl Hbs].
      split; [now rewrite length_map |].
      apply Forall_map. refine (Forall_impl _ _ Hbs). intros s. apply masked_shaped.
  - intros masked [Hml Hm].
    apply (returns_bind (fun o => length o = B /\ Forall (shaped3 h L L) o)).
    + apply Dropout_forward4_shaped; [now rewrite length_map |].
      apply Forall_map. refine (Forall_impl _ _ Hm). intros b Hb.
      apply (shaped3_map h L L L); [| exact Hb].
      intros r Hr. now rewrite length_softmax.
    + intros dropped [Hdl Hdr]. apply returns_ret. split.
      * rewrite length_map2. unfold tensor4, tensor3, mat, vec in *. lia.
      * refine (Forall_map2 _ _ _ _ dropped v _ Hdr Hv).
        intros b b'. apply shaped3_map2. intros m m' [Hm0 _] Hm'.
        now apply (matmul_shaped L L d_k).
Qed.

Lemma MultiHeadAttention_forward_shaped (d_model B L : nat)
      (a : MultiHeadAttention) (x : tensor3) :
  (0 < L)%nat -> MultiHeadAttention_shaped d_model a -> shaped3 B L d_model x ->
  returns (shaped3 B L d_model)
          (MultiHeadAttention_forward a x x x (Some (no_peak_mask L))).
Proof.
  intros HL (Hh & Hdk & Hd & Hq & Hk & Hv & Ho) Hx.
  unfold MultiHeadAttention_forward.
  assert (Hsplit : forall l : Linear,
             Linear_shaped d_model d_model l ->
             length (map (split_heads (mha_h a) (mha_d_k a)) (Linear_forward l x)) = B
             /\ Forall (shaped3 (mha_h a) L (mha_d_k a))
                       (map (split_heads (mha_h a) (mha_d_k a)) (Linear_forward l x))).
  { intros l Hl.
    destruct (Linear_forward_shaped d_model d_model B L l x Hl Hx) as [Hyl Hy].
    split; [now rewrite length_map |].
    apply Forall_map. refine (Forall_impl _ _ Hy). intros m Hm.
    apply split_heads_shaped. now rewrite Hd. }
  destruct (Hsplit _ Hq) as [Hql Hqs].
  destruct (Hsplit _ Hk) as [Hkl Hks].
  destruct (Hsplit _ Hv) as [Hvl Hvs].
  apply (returns_bind (fun o => length o = B
                                /\ Forall (shaped3 (mha_h a) L (mha_d_k a)) o)).
  - now apply attention_shaped.
  - intros o [Hol Hos]. apply returns_ret.
    apply (Linear_forward_shaped d_model d_model); [exact Ho |].
    split; [now rewrite length_map |].
    apply Forall_map. refine (Forall_impl _ _ Hos). intros b Hb.
    rewrite <- Hd. now apply merge_heads_shaped.
Qed.

Lemma DecoderLayer_forward_shaped (d_model B L : nat) (l : DecoderLayer)
      (x : tensor3) :
  (0 < L)%nat -> DecoderLayer_shaped d_model l -> shaped3 B L d_model x ->
  returns (shaped3 B L d_model)
          (DecoderLayer_forward l x (Some (no_peak_mask L))).
Proof.
  intros HL (H1 & H2 & Ha) Hx. unfold DecoderLayer_forward.
  apply (returns_bind (shaped3 B L d_model)).
  { apply (MultiHeadAttention_forward_shaped d_model); auto.
    now apply Norm_forward_shaped. }
  intros a1 Ha1. apply (returns_bind (shaped3 B L d_model)).
  { now apply Dropout_forward_shaped. }
  intros x1 Hx1. apply (returns_bind (shaped3 B L d_model)).
  { apply (MultiHeadAttention_forward_shaped d_model); auto.
    now apply Norm_forward_shaped. }
  intros a2 Ha2. apply (returns_bind (shaped3 B L d_model)).
  { now apply Dropout_forward_shaped. }
  intros x2 Hx2. now apply returns_ret.
Qed.

Lemma run_layers_shaped (d_model B L : nat) (layers : list DecoderLayer) :
  (0 < L)%nat -> Forall (DecoderLayer_shaped d_model) layers ->
  forall x, shaped3 B L d_model x ->
            returns (shaped3 B L d_model)
                    (run_layers layers x (Some (no_peak_mask L))).
Proof.
  intros HL Hl. induction Hl as [| l layers Hl0 _ IH]; intros x Hx;
    cbn [run_layers].
  - now apply returns_ret.
  - apply (returns_bind (shaped3 B L d_model)).
    + now apply DecoderLayer_forward_shaped.
    + exact IH.
Qed.

Lemma Transformer_forward_returns (trg_vocab d_model max_seq_len B L : nat)
      (m : Transformer) (trg : list (list Z)) :
  Transformer_shaped trg_vocab d_model max_seq_len m ->
  (0 < B)%nat -> (0 < L <= max_seq_len)%nat ->
  length trg = B -> Forall (fun row => length row = L) trg ->
  Forall (Forall (fun id => (0 <= id < Z.of_nat trg_vocab)%Z)) trg ->
  returns (shaped3 B L trg_vocab)
          (Transformer_forward m trg (Some (no_peak_mask L))).
Proof.
  intros (He & Hp & HN & Hl & Hn & Ho) HB HL Htl Htr Hid.
  unfold Transformer_forward, Decoder_forward.
  destruct (Embedder_forward_shaped trg_vocab d_model B L _ trg He Htl Htr Hid)
    as [x0 [E0 Hx0]].
  apply (returns_bind (shaped3 B L d_model)).
  - apply (returns_bind (shaped3 B L d_model)).
    { now apply (returns_lift _ _ x0). }
    intros x1 Hx1. apply (returns_bind (shaped3 B L d_model)).
    { apply (PositionalEncoder_forward_shaped d_model max_seq_len); auto. lia. }
    intros x2 Hx2. apply (returns_bind (shaped3 B L d_model)).
    { intros g. rewrite HN.
      rewrite (Decoder_layers_from _ _ _ 0) by lia.
      cbn [Nat.add skipn]. rewrite Nat.leb_refl, firstn_all.
      apply run_layers_shaped; auto. lia. }
    intros x3 Hx3. apply returns_ret. now apply Norm_forward_shaped.
  - intros x4 Hx4. apply returns_ret.
    now apply (Linear_forward_shaped d_model trg_vocab).
Qed.

(** X24.  The forward pass is defined on every valid input.  For a model
    with the weight shapes its constructors give it, a batch of [B >= 1]
    sequences of one length [L] between 1 and the number of rows of the
    positional table, token ids below the vocabulary size, and the mask
    of [no_peak_mask L], [Transformer.forward] raises nothing, in
    training as in evaluation mode and from every generator state, and
    returns logits of shape [B] x [L] x vocabulary. *)
Theorem Transformer_forward_shape
        (trg_vocab d_model max_seq_len B L : nat)
        (m : Transformer) (trg : list (list Z)) (g : Generator) :
  Transformer_shaped trg_vocab d_model max_seq_len m ->
  (0 < B)%nat -> (0 < L <= max_seq_len)%nat ->
  length trg = B -> Forall (fun row => length row = L) trg ->
  Forall (Forall (fun id => (0 <= id < Z.of_nat trg_vocab)%Z)) trg ->
  exists (output : tensor3) (g' : Generator),
    Transformer_forward m trg (Some (no_peak_mask L)) g = Ok (output, g')
    /\ length output = B
    /\ Forall (fun logits : mat =>
                 length logits = L
                 /\ Forall (fun row : vec => length row = trg_vocab) logits)
              output.
Proof.
  intros Hm HB HL Htl Htr Hid.
  exact (Transformer_forward_returns trg_vocab d_model max_seq_len B L m trg
                                     Hm HB HL Htl Htr Hid g).
Qed.

Lemma tiny_model_shaped : Transformer_shaped 2 2 2 tiny_model.
Proof.
  unfold Transformer_shaped, DecoderLayer_shaped, MultiHeadAttention_shaped,
    Linear_shaped, Norm_shaped, shaped. cbn.
  repeat split; repeat constructor.
Qed.

Lemma Transformer_forward_shape_witness :
  exists (output : tensor3) (g' : Generator),
    Transformer_forward tiny_model [[0%Z]] (Some (no_peak_mask 1)) (fun _ => true)
    = Ok (output, g')
    /\ length output = 1%nat
    /\ Forall (fun logits : mat =>
                 length logits = 1%nat
                 /\ Forall (fun row : vec => length row = 2%nat) logits)
              output.
Proof.
  apply (Transformer_forward_shape 2 2 2 1 1 tiny_model [[0%Z]] (fun _ => true)).
  - exact tiny_model_shaped.
  - lia.
  - lia.
  - reflexivity.
  - repeat constructor.
  - repeat constructor; lia.
Defined.

Lemma Transformer_train_shaped (trg_vocab d_model max_seq_len : nat) (mode : bool)
      (m : Transformer) :
  Transformer_shaped trg_vocab d_model max_seq_len m ->
  Transformer_shaped trg_vocab d_model max_seq_len (Transformer_train mode m).
Proof.
  intros (He & Hp & HN & Hl & Hn & Ho).
  unfold Transformer_shaped, Transformer_train, Decoder_train.
  cbn [decoder out dec_N dec_embed dec_pe dec_layers dec_norm
       PositionalEncoder_train pe_buffer].
  repeat split; try assumption; try apply He; try apply Hp; try apply Hn;
    try apply Ho.
  - now rewrite length_map.
  - apply Forall_map. refine (Forall_impl _ _ Hl). intros l Hl0. exact Hl0.
Qed.

Lemma ce_terms_defined (ign : Z) (input : mat) (target : list Z) :
  Forall2 (fun (x : vec) t => t = ign \/ (0 <= t < Z.of_nat (length x))%Z)
          input target ->
  exists terms, ce_terms ign input target = Ok terms.
Proof.
  induction 1 as [| x t input target Ht _ [terms IH]]; [now exists [] |].
  cbn [ce_terms]. destruct (Z.eqb_spec t ign) as [E | E]; [now exists terms |].
  destruct Ht as [Ht | Ht]; [contradiction |].
  unfold nll_entry.
  destruct (Z.leb_spec 0 t); [| lia].
  destruct (Z.ltb_spec t (Z.of_nat (length x))); [| lia].
  cbn [andb rbind]. rewrite IH. cbn [rbind]. eexists. reflexivity.
Qed.

Lemma Forall2_concat {A B : Type} (P : A -> B -> Prop)
      (l : list (list A)) (l' : list (list B)) :
  Forall2 (Forall2 P) l l' -> Forall2 P (concat l) (concat l').
Proof.
  induction 1 as [| r r' l l' Hr _ IH]; [constructor |].
  cbn [concat]. now apply Forall2_app.
Qed.

Lemma Forall2_of_Forall {A B : Type} (P : A -> Prop) (Q : B -> Prop)
      (l : list A) (l' : list B) :
  length l = length l' -> Forall P l -> Forall Q l' ->
  Forall2 (fun a b => P a /\ Q b) l l'.
Proof.
  revert l'. induction l as [| a l IH]; intros [| b l'] Hlen Hl Hl';
    simpl in Hlen; try discriminate; constructor.
  - split; [now inversion Hl | now inversion Hl'].
  - apply IH; [lia | now inversion Hl | now inversion Hl'].
Qed.

Lemma batch_loss_defined (trg_vocab B L : nat) (output : tensor3)
      (targets : list (list Z)) :
  shaped3 B L trg_vocab output ->
  length targets = B -> Forall (fun row => length row = L) targets ->
  Forall (Forall (fun t => t = (-100)%Z \/ (0 <= t < Z.of_nat trg_vocab)%Z))
         targets ->
  exists loss, batch_loss loss_fn output targets = Ok loss.
Proof.
  intros [Hol Ho] Htl Htr Htv.
  assert (H2 : Forall2 (fun (x : vec) t =>
                          t = (-100)%Z \/ (0 <= t < Z.of_nat (length x))%Z)
                       (concat output) (concat targets)).
  { apply Forall2_concat.
    assert (Hrows : Forall (fun row : list Z =>
                              length row = L
                              /\ Forall (fun t => t = (-100)%Z
                                                  \/ (0 <= t < Z.of_nat trg_vocab)%Z)
                                        row) targets).
    { apply Forall_forall. intros row Hin. rewrite Forall_forall in Htr, Htv. auto. }
    pose proof (Forall2_of_Forall _ _ output targets
                                  ltac:(unfold tensor3, mat, vec in *; lia)
                                  Ho Hrows) as H.
    refine (Forall2_impl _ _ H). intros m row [[Hml Hmr] [Hrl Hrv]].
    pose proof (Forall2_of_Forall _ _ m row
                                  ltac:(unfold mat, vec in *; lia) Hmr Hrv) as H'.
    refine (Forall2_impl _ _ H'). intros x t [Hx Ht]. cbv beta in *.
    rewrite Hx. exact Ht. }
  pose proof (Forall2_length H2) as Hlen.
  destruct (ce_terms_defined _ _ _ H2) as [terms E].
  unfold batch_loss, CrossEntropyLoss_forward.
  cbn [loss_fn ignore_index].
  unfold tensor3, mat, vec in *. rewrite Hlen, Nat.eqb_refl. cbn [negb].
  rewrite E. cbn [rbind]. eexists. reflexivity.
Qed.

Lemma forward_loss_returns (trg_vocab d_model max_seq_len : nat)
      (m : Transformer) (batch : Batch) :
  Transformer_shaped trg_vocab d_model max_seq_len m ->
  Batch_valid trg_vocab max_seq_len batch ->
  returns (fun _ => True) (forward_loss m loss_fn batch).
Proof.
  intros Hm (B & L & HB & HL & Hil & Htl & Hir & Htr & Hiv & Htv).
  unfold forward_loss.
  assert (Hhd : length (hd [] (fst batch)) = L).
  { destruct (fst batch) as [| row rows]; [simpl in Hil; lia |].
    now inversion Hir. }
  rewrite Hhd.
  apply (returns_bind (shaped3 B L trg_vocab)).
  - now apply (Transformer_forward_returns trg_vocab d_model max_seq_len).
  - intros output Ho.
    destruct (batch_loss_defined trg_vocab B L output (snd batch) Ho Htl Htr Htv)
      as [loss E].
    now apply (returns_lift _ _ loss).
Qed.

Lemma validate_returns (trg_vocab d_model max_seq_len : nat)
      (model : Transformer) (dataloader : list Batch) :
  Transformer_shaped trg_vocab d_model max_seq_len model ->
  dataloader <> [] ->
  Forall (Batch_valid trg_vocab max_seq_len) dataloader ->
  returns (fun r => snd r = Transformer_train false model)
          (validate model dataloader loss_fn).
Proof.
  intros Hm Hne Hdl.
  apply (Transformer_train_shaped _ _ _ false) in Hm.
  assert (Hloop : forall total : xfloat,
             returns (fun _ => True)
                     (for_each (fun total_loss batch =>
                                  loss <- forward_loss (Transformer_train false model)
                                                       loss_fn batch ;;
                                  ret (xadd total_loss loss))
                               dataloader total)).
  { clear Hne. induction Hdl as [| b dl Hb _ IH]; intros total; cbn [for_each].
    - now apply returns_ret.
    - apply (returns_bind (fun _ => True)); [| intros t _; apply IH].
      apply (returns_bind (fun _ => True)).
      + now apply (forward_loss_returns trg_vocab d_model max_seq_len).
      + intros loss _. now apply returns_ret. }
  unfold validate. apply (returns_bind (fun _ => True)); [apply Hloop |].
  intros total _. destruct dataloader; [contradiction |].
  now apply returns_ret.
Qed.

(** X25.  Evaluation is defined on every valid data set.  For a model
    with the weight shapes its constructors give it and a data loader
    of at least one batch, all batches valid (sequences of one length
    between 1 and the number of rows of the positional table, token ids
    below the vocabulary size, targets of the same shape that are -100
    or a class), [validate] and [test] raise nothing: they return a
    loss, a perplexity and the model in evaluation mode.  (Overflow of
    [math.exp] is outside the model.) *)
Theorem validate_defined
        (trg_vocab d_model max_seq_len : nat)
        (model : Transformer) (dataloader : list Batch) (g : Generator) :
  Transformer_shaped trg_vocab d_model max_seq_len model ->
  dataloader <> [] ->
  Forall (Batch_valid trg_vocab max_seq_len) dataloader ->
  exists (avg_loss perplexity : xfloat) (g' : Generator),
    validate model dataloader loss_fn g
    = Ok ((avg_loss, perplexity, Transformer_train false model), g')
    /\ test model dataloader loss_fn g
       = Ok ((avg_loss, perplexity, Transformer_train false model), g').
Proof.
  intros Hm Hne Hdl.
  destruct (validate_returns _ _ _ _ _ Hm Hne Hdl g)
    as ([[avg_loss perplexity] m'] & g' & E & Hr).
  cbn [snd] in Hr. subst m'.
  exists avg_loss, perplexity, g'. split; exact E.
Qed.

Lemma validate_defined_witness :
  exists (avg_loss perplexity : xfloat) (g' : Generator),
    validate tiny_model [([[0%Z]], [[1%Z]])] loss_fn (fun _ => true)
    = Ok ((avg_loss, perplexity, Transformer_train false tiny_model), g')
    /\ test tiny_model [([[0%Z]], [[1%Z]])] loss_fn (fun _ => true)
       = Ok ((avg_loss, perplexity, Transformer_train false tiny_model), g').
Proof.
  apply (validate_defined 2 2 2 tiny_model [([[0%Z]], [[1%Z]])] (fun _ => true)).
  - exact tiny_model_shaped.
  - discriminate.
  - constructor; [| constructor].
    exists 1%nat, 1%nat. cbn [fst snd length].
    repeat split; try lia; repeat constructor; lia.
Defined.

(** ** Training is defined on valid data *)

Section TrainModelDefined.

Variable Optimizer : Type.

Variable backward_step :
  Transformer -> Optimizer -> Batch -> Generator -> Transformer * Optimizer.

Variables trg_vocab d_model max_seq_len : nat.

(** An optimizer step changes the values of the weights, not their
    shapes. *)
Hypothesis backward_step_shaped :
  forall (m : Transformer) (o : Optimizer) (b : Batch) (g : Generator),
    Transformer_shaped trg_vocab d_model max_seq_len m ->
    Transformer_shaped trg_vocab d_model max_seq_len
                       (fst (backward_step m o b g)).

Lemma train_epoch_returns (model : Transformer) (optimizer : Optimizer)
      (train_dl : list Batch) :
  Transformer_shaped trg_vocab d_model max_seq_len model ->
  train_dl <> [] ->
  Forall (Batch_valid trg_vocab max_seq_len) train_dl ->
  returns (fun r : xfloat * xfloat * Transformer * Optimizer =>
             Transformer_shaped trg_vocab d_model max_seq_len (snd (fst r)))
          (train_epoch Optimizer backward_step model optimizer train_dl loss_fn).
Proof.
  intros Hm Hne Hdl.
  apply (Transformer_train_shaped _ _ _ true) in Hm.
  unfold train_epoch.
  set (step := fun (st : xfloat * Transformer * Optimizer) (batch : Batch) =>
                 let '(total_tl, model, optimizer) := st in
                 g <- get_generator ;;
                 loss <- forward_loss model loss_fn batch ;;
                 (let '(model0, optimizer0) :=
                    backward_step model optimizer batch g in
                  ret (xadd total_tl loss, model0, optimizer0))).
  assert (Hloop : forall st : xfloat * Transformer * Optimizer,
             Transformer_shaped trg_vocab d_model max_seq_len (snd (fst st)) ->
             returns (fun st' : xfloat * Transformer * Optimizer =>
                        Transformer_shaped trg_vocab d_model max_seq_len
                                           (snd (fst st')))
                     (for_each step train_dl st)).
  { clear Hne. induction Hdl as [| b dl Hb _ IH]; intros st Hst; cbn [for_each].
    - now apply returns_ret.
    - apply (returns_bind
               (fun st' : xfloat * Transformer * Optimizer =>
                  Transformer_shaped trg_vocab d_model max_seq_len (snd (fst st'))));
        [| exact IH].
      destruct st as [[total m] o]. cbn [fst snd] in Hst. unfold step.
      intros g. unfold bind at 1. unfold get_generator.
      destruct (forward_loss_returns trg_vocab d_model max_seq_len m b Hst Hb g)
        as (loss & g' & E & _).
      unfold bind. rewrite E.
      pose proof (backward_step_shaped m o b g Hst) as Hs.
      destruct (backward_step m o b g) as [m' o']. cbn [fst] in Hs.
      unfold ret. do 2 eexists. split; [reflexivity | exact Hs]. }
  apply (returns_bind
           (fun st' : xfloat * Transformer * Optimizer =>
              Transformer_shaped trg_vocab d_model max_seq_len (snd (fst st')))).
  - apply Hloop. exact Hm.
  - intros [[total m] o] Hst. cbn [fst snd] in Hst.
    destruct train_dl; [contradiction |]. now apply returns_ret.
Qed.

Lemma train_model_epoch_returns (train_dl valid_dl : list Batch)
      (st : Transformer * Optimizer * TrainLog) (epoch : Z) :
  train_dl <> [] -> valid_dl <> [] ->
  Forall (Batch_valid trg_vocab max_seq_len) train_dl ->
  Forall (Batch_valid trg_vocab max_seq_len) valid_dl ->
  Transformer_shaped trg_vocab d_model max_seq_len (fst (fst st)) ->
  returns (fun st' : Transformer * Optimizer * TrainLog =>
             Transformer_shaped trg_vocab d_model max_seq_len (fst (fst st')))
          (train_model_epoch Optimizer backward_step train_dl valid_dl loss_fn
                             st epoch).
Proof.
  intros Ht Hv Htd Hvd Hst. destruct st as [[m o] log]. cbn [fst] in Hst.
  unfold train_model_epoch.
  apply (returns_bind
           (fun r : xfloat * xfloat * Transformer * Optimizer =>
              Transformer_shaped trg_vocab d_model max_seq_len (snd (fst r)))).
  - now apply train_epoch_returns.
  - intros [[[avg_tl tp] m1] o1] Hm1. cbn [fst snd] in Hm1.
    apply (returns_bind (fun r : xfloat * xfloat * Transformer =>
                           snd r = Transformer_train false m1)).
    + now apply (validate_returns trg_vocab d_model max_seq_len).
    + intros [[avg_vl vp] m2] Hm2. cbn [snd] in Hm2. subst m2.
      apply returns_ret. cbn [fst].
      now apply Transformer_train_shaped.
Qed.

(** X26.  Training is defined on every valid data set.  For a model
    with the weight shapes its constructors give it, an optimizer whose
    steps keep these shapes, and training and validation loaders of at
    least one batch each, all batches valid, [train_model] raises
    nothing, for any number of epochs and from every generator state:
    it returns its four lists, one entry per epoch.  (Overflow of
    [math.exp] and the file system are outside the model.) *)
Theorem train_model_defined
        (model : Transformer) (optimizer : Optimizer) (epochs : Z)
        (train_dl valid_dl : list Batch) (g : Generator) :
  Transformer_shaped trg_vocab d_model max_seq_len model ->
  train_dl <> [] -> valid_dl <> [] ->
  Forall (Batch_valid trg_vocab max_seq_len) train_dl ->
  Forall (Batch_valid trg_vocab max_seq_len) valid_dl ->
  exists (model' : Transformer) (optimizer' : Optimizer) (log : TrainLog)
         (g' : Generator),
    train_model Optimizer backward_step model optimizer epochs
                train_dl valid_dl loss_fn g
    = Ok ((model', optimizer', log), g')
    /\ Transformer_shaped trg_vocab d_model max_seq_len model'
    /\ length (train_losses log) = Z.to_nat epochs
    /\ length (valid_losses log) = Z.to_nat epochs.
Proof.
  intros Hm Ht Hv Htd Hvd. unfold train_model.
  assert (Hloop : forall (epochs : list Z) (st : Transformer * Optimizer * TrainLog),
             Transformer_shaped trg_vocab d_model max_seq_len (fst (fst st)) ->
             returns (fun st' : Transformer * Optimizer * TrainLog =>
                        Transformer_shaped trg_vocab d_model max_seq_len
                                           (fst (fst st')))
                     (for_each (train_model_epoch Optimizer backward_step
                                                  train_dl valid_dl loss_fn)
                               epochs st)).
  { intros es. induction es as [| e es IH]; intros st Hst; cbn [for_each].
    - now apply returns_ret.
    - apply (returns_bind
               (fun st' : Transformer * Optimizer * TrainLog =>
                  Transformer_shaped trg_vocab d_model max_seq_len (fst (fst st'))));
        [| exact IH].
      now apply train_model_epoch_returns. }
  destruct (Hloop (map Z.of_nat (seq 0 (Z.to_nat epochs)))
                  (model, optimizer, mkTrainLog [] [] [] [] []) Hm g)
    as ([[m' o'] log] & g' & E & Hs).
  exists m', o', log, g'. split; [exact E |]. split; [exact Hs |].
  destruct (train_model_epochs Optimizer backward_step train_dl valid_dl loss_fn
                               model optimizer (Z.to_nat epochs) m' o' log g g' E)
    as (L1 & _ & L3 & _).
  split; assumption.
Qed.

End TrainModelDefined.

Lemma train_model_defined_witness :
  exists (model' : Transformer) (optimizer' : unit) (log : TrainLog)
         (g' : Generator),
    train_model unit (fun m o _ _ => (m, o)) tiny_model tt 2
                [([[0%Z]], [[1%Z]])] [([[0%Z]], [[1%Z]])] loss_fn (fun _ => true)
    = Ok ((model', optimizer', log), g')
    /\ Transformer_shaped 2 2 2 model'
    /\ length (train_losses log) = Z.to_nat 2
    /\ length (valid_losses log) = Z.to_nat 2.
Proof.
  assert (Hb : Forall (Batch_valid 2 2) [([[0%Z]], [[1%Z]])]).
  { constructor; [| constructor].
    exists 1%nat, 1%nat. cbn [fst snd length].
    repeat split; try lia; repeat constructor; lia. }
  apply (train_model_defined unit (fun m o _ _ => (m, o)) 2 2 2).
  - intros m o b g H. exact H.
  - exact tiny_model_shaped.
  - discriminate.
  - discriminate.
  - exact Hb.
  - exact Hb.
Defined.
